(** * Jool (stateful NAT64): the pool4 allocator, the mark-keyed pool4
    database and the filtering-and-updating tables, embedded from the C
    sources, with the properties the specification states about them.

    - [Machine]   : fixed-width integers, byte order, jiffies comparison.
    - [Pool4]     : [mod/pool4.c].
    - [Pool4db]   : [mod/stateful/pool4/db.c].
    - [Filtering] : [include/nf_nat64_filtering_and_updating.h].
    - [Auxiliary] : [include/nf_nat64_auxiliary_functions.h].
    - [Pool4Facts], [FilteringFacts], [Pool4dbFacts] : what the
      specification states of each.
    - [Pool4Coverage], [Pool4dbCoverage], [FilteringCoverage],
      [AuxiliaryFacts] : further properties of the code.

    The code is sequential here: spinlocks and RCU sections are left
    out. Memory allocation can fail: [kmalloc] answers as an oracle
    says, and the slab allocations of the filtering tables take the
    allocator's answer as an argument. *)

From Stdlib Require Import ZArith List Bool Lia.
From stdpp Require Import base option list gmap.

Open Scope Z_scope.

(* ===================================================================== *)
(** ** Machine-level arithmetic *)
(* ===================================================================== *)

Module Machine.

(** Truncation to an unsigned [w]-bit integer (C conversion to [__u16],
    [__u32], [unsigned long]). *)
Definition wrap (w : Z) (x : Z) : Z := x mod 2 ^ w.

Definition u16 (x : Z) : Z := wrap 16 x.
Definition u32 (x : Z) : Z := wrap 32 x.

(** [unsigned long] on the 64-bit kernels the module is built for. *)
Definition BITS_PER_LONG : Z := 64.
Definition ulong (x : Z) : Z := wrap BITS_PER_LONG x.

(** Reinterpretation of an [unsigned long] as a [long]. *)
Definition slong (x : Z) : Z :=
  let y := ulong x in
  if y <? 2 ^ (BITS_PER_LONG - 1) then y else y - 2 ^ BITS_PER_LONG.

(** Truncation to an [int] (32 bits, two's complement). The kernel is
    built with [-fno-strict-overflow]: [int] arithmetic wraps. *)
Definition sint (x : Z) : Z :=
  let y := u32 x in
  if y <? 2 ^ 31 then y else y - 2 ^ 32.

(** [time_after(a, b)] of <linux/jiffies.h>: [(long)(b - a) < 0]. *)
Definition time_after (a b : Z) : bool := slong (b - a) <? 0.

(** Exchange of the two bytes of a 16-bit value. *)
Definition swab16 (x : Z) : Z :=
  Z.lor (Z.shiftl (Z.land x 255) 8) (Z.land (Z.shiftr x 8) 255).

(** [be16_to_cpu], [ntohs] and [htons]: a byte swap on a little-endian
    host, the identity on a big-endian one. *)
Definition be16_to_cpu (little_endian : bool) (x : Z) : Z :=
  if little_endian then swab16 x else x.

Definition ntohs := be16_to_cpu.
Definition htons := be16_to_cpu.

(** Conversion of an [int] to the kernel's [bool] ([_Bool]): every
    nonzero value becomes [true]. *)
Definition int_to_bool (e : Z) : bool := negb (e =? 0).

(** Conversion of a [bool] to [int]. *)
Definition bool_to_int (b : bool) : Z := if b then 1 else 0.

End Machine.

(* ===================================================================== *)
(** ** mod/pool4.c *)
(* ===================================================================== *)

Module Pool4.
Import Machine.

(** [enum response_code], the values this file returns. *)
Inductive response_code :=
  | RESPONSE_SUCCESS
  | RESPONSE_MISSING_PARAM
  | RESPONSE_ALLOC_FAILED
  | RESPONSE_NOT_FOUND.

Definition IPPROTO_ICMP : Z := 1.
Definition IPPROTO_TCP : Z := 6.
Definition IPPROTO_UDP : Z := 17.
Definition IPPROTO_ICMPV6 : Z := 58.

(** [struct in_addr]: the 32-bit [s_addr]. *)
Definition in_addr := Z.

(** [struct addr_section]; [free_ports] lists the [struct free_port]
    records from the list head onwards. *)
Record addr_section := mk_section {
  next_port : Z;
  max_port : Z;
  free_ports : list Z
}.

(** [struct pool_node]. *)
Record pool_node := mk_node {
  address : in_addr;
  odd_low : addr_section;
  even_low : addr_section;
  odd_high : addr_section;
  even_high : addr_section
}.

(** [struct address_list]: the nodes from the list head onwards (the
    spinlock has no sequential content). *)
Abbreviation address_list := (list pool_node).

(** The static [pools]. *)
Record pools_t := mk_pools {
  udp : address_list;
  tcp : address_list;
  icmp : address_list
}.

(** [struct ipv4_tuple_address]. *)
Record ipv4_tuple_address := mk_tuple_addr {
  ta_address : in_addr;
  l4_id : Z
}.

(** Bookkeeping of the slab allocator: how many times [kmalloc] has been
    called and how many objects are allocated and not yet freed. *)
Record kmem := mk_kmem {
  km_calls : nat;
  km_live : Z
}.

(** The whole state [pool4.c] reads and writes. *)
Record pool4_state := mk_state {
  pools : pools_t;
  mem : kmem
}.

(** A pointer to one of the three [address_list]s of [pools]. *)
Inductive pool_ref := PoolUdp | PoolTcp | PoolIcmp.

#[global] Instance pool_ref_eq_dec : EqDecision pool_ref.
Proof. solve_decision. Defined.

Definition pool_get (r : pool_ref) (p : pools_t) : address_list :=
  match r with
  | PoolUdp => udp p
  | PoolTcp => tcp p
  | PoolIcmp => icmp p
  end.

Definition pool_set (r : pool_ref) (l : address_list) (p : pools_t) : pools_t :=
  match r with
  | PoolUdp => mk_pools l (tcp p) (icmp p)
  | PoolTcp => mk_pools (udp p) l (icmp p)
  | PoolIcmp => mk_pools (udp p) (tcp p) l
  end.

(** A pointer to one of the four sections of a node. *)
Inductive section_ref := OddLow | EvenLow | OddHigh | EvenHigh.

#[global] Instance section_ref_eq_dec : EqDecision section_ref.
Proof. solve_decision. Defined.

Definition section_get (r : section_ref) (n : pool_node) : addr_section :=
  match r with
  | OddLow => odd_low n
  | EvenLow => even_low n
  | OddHigh => odd_high n
  | EvenHigh => even_high n
  end.

Definition section_set (r : section_ref) (s : addr_section) (n : pool_node)
  : pool_node :=
  match r with
  | OddLow => mk_node (address n) s (even_low n) (odd_high n) (even_high n)
  | EvenLow => mk_node (address n) (odd_low n) s (odd_high n) (even_high n)
  | OddHigh => mk_node (address n) (odd_low n) (even_low n) s (even_high n)
  | EvenHigh => mk_node (address n) (odd_low n) (even_low n) (odd_high n) s
  end.

Definition get_pool (l4protocol : Z) : option pool_ref :=
  if l4protocol =? IPPROTO_UDP then Some PoolUdp
  else if l4protocol =? IPPROTO_TCP then Some PoolTcp
  else if l4protocol =? IPPROTO_ICMP then Some PoolIcmp
  else if l4protocol =? IPPROTO_ICMPV6 then Some PoolIcmp
  else None.

(** Modelled from the spec: [ipv4_addr_equals] is declared outside the
    sources at hand; two addresses are equal when their [s_addr] are. *)
Definition ipv4_addr_equals (a b : in_addr) : bool := a =? b.

(** [get_pool_node]: the position and contents of the first node of
    [pool] that holds [addr], [None] for the C [NULL]. *)
Definition get_pool_node (pool : address_list) (addr : in_addr)
  : option (nat * pool_node) :=
  list_find (λ node, ipv4_addr_equals (address node) addr = true) pool.

(** [get_section]: which section of the node [address->l4_id] selects. *)
Definition get_section (l4 : Z) : section_ref :=
  if l4 <? 1024
  then (if l4 mod 2 =? 0 then EvenLow else OddLow)
  else (if l4 mod 2 =? 0 then EvenHigh else OddHigh).

Section WithAllocator.

(** [kmalloc_ok k] tells whether the [k]-th call of [kmalloc] (counted
    from the start of the module) returns memory. *)
Variable kmalloc_ok : nat → bool.

Definition kmalloc (m : kmem) : bool * kmem :=
  if kmalloc_ok (km_calls m)
  then (true, mk_kmem (S (km_calls m)) (km_live m + 1))
  else (false, mk_kmem (S (km_calls m)) (km_live m)).

Definition kfree (m : kmem) : kmem := mk_kmem (km_calls m) (km_live m - 1).

(** [extract_any_port]: the port written through [port] on success, the
    section and the allocator afterwards. *)
Definition extract_any_port (section : addr_section) (m : kmem)
  : option Z * addr_section * kmem :=
  match free_ports section with
  | port :: rest =>
      (Some port, mk_section (next_port section) (max_port section) rest,
       kfree m)
  | [] =>
      if next_port section >? max_port section then (None, section, m)
      else (Some (u16 (next_port section)),
            mk_section (u32 (next_port section + 2)) (max_port section) [],
            m)
  end.

(** [destroy_section]: one [kfree] per free port. *)
Definition destroy_section (section : addr_section) (m : kmem) : kmem :=
  fold_left (λ m' _, kfree m') (free_ports section) m.

(** [destroy_pool_node] on the node at position [i] of [pool]. *)
Definition destroy_pool_node (i : nat) (node : pool_node)
    (pool : address_list) (m : kmem) : address_list * kmem :=
  let m1 := destroy_section (odd_low node) m in
  let m2 := destroy_section (even_low node) m1 in
  let m3 := destroy_section (odd_high node) m2 in
  let m4 := destroy_section (even_high node) m3 in
  (delete i pool, kfree m4).

(** The loop of [pool4_destroy] on one list: the head node is destroyed
    until the list is empty. *)
Fixpoint destroy_nodes (pool : address_list) (m : kmem) : kmem :=
  match pool with
  | [] => m
  | node :: rest => destroy_nodes rest (destroy_pool_node 0 node pool m).2
  end.

Definition pool4_destroy (st : pool4_state) : pool4_state :=
  let m1 := destroy_nodes (udp (pools st)) (mem st) in
  let m2 := destroy_nodes (tcp (pools st)) m1 in
  let m3 := destroy_nodes (icmp (pools st)) m2 in
  mk_state (mk_pools [] [] []) m3.

Definition init_section (next max : Z) : addr_section :=
  mk_section next max [].

(** The array [pool] of [pool4_register] and [pool4_remove]. *)
Definition pool_array : list pool_ref := [PoolTcp; PoolUdp; PoolIcmp].

(** First loop of [pool4_register]: [count] more nodes to allocate when
    [i] have been; on a failed [kmalloc] the [i] nodes are freed. *)
Fixpoint alloc_nodes (count : nat) (i : nat) (m : kmem) : bool * kmem :=
  match count with
  | O => (true, m)
  | S count' =>
      let '(ok, m1) := kmalloc m in
      if ok then alloc_nodes count' (S i) m1
      else (false, Nat.iter i kfree m1)
  end.

Definition new_node (addr : in_addr) : pool_node :=
  mk_node addr
    (init_section 1 1023) (init_section 0 1022)
    (init_section 1025 65535) (init_section 1024 65534).

(** Second loop of [pool4_register]: [list_add(&node->next, list.prev)]
    puts the node at the end of each list. *)
Definition link_nodes (addr : in_addr) (p : pools_t) : pools_t :=
  fold_left (λ p' r, pool_set r (pool_get r p' ++ [new_node addr]) p')
            pool_array p.

(** [pool4_register]; [None] is the C [NULL] argument. *)
Definition pool4_register (addr : option in_addr) (st : pool4_state)
  : response_code * pool4_state :=
  match addr with
  | None => (RESPONSE_MISSING_PARAM, st)
  | Some a =>
      let '(ok, m1) := alloc_nodes (length pool_array) O (mem st) in
      if ok then (RESPONSE_SUCCESS, mk_state (link_nodes a (pools st)) m1)
      else (RESPONSE_ALLOC_FAILED, mk_state (pools st) m1)
  end.

(** The macro [POOL4_DEF] is defined outside the sources at hand: the
    default addresses, each as [str_to_addr4] reads it ([None] for a
    malformed one). *)
Variable POOL4_DEF : list (option in_addr).

(** Loop of [load_defaults] over the addresses still to register. *)
Fixpoint load_defaults_from (defaults : list (option in_addr))
    (st : pool4_state) : bool * pool4_state :=
  match defaults with
  | [] => (true, st)
  | None :: _ => (false, pool4_destroy st)
  | Some a :: rest =>
      let '(rc, st1) := pool4_register (Some a) st in
      match rc with
      | RESPONSE_SUCCESS => load_defaults_from rest st1
      | _ => (false, pool4_destroy st1)
      end
  end.

Definition load_defaults (st : pool4_state) : bool * pool4_state :=
  load_defaults_from POOL4_DEF st.

(** [pool4_init]; [m] is the allocator when the module starts. *)
Definition pool4_init (defaults : bool) (m : kmem) : bool * pool4_state :=
  let st0 := mk_state (mk_pools [] [] []) m in
  if defaults then
    let '(ok, st1) := load_defaults st0 in
    if negb ok then (false, st1) else (true, st1)
  else (true, st0).

(** Loop of [pool4_remove] over the pools still to visit. *)
Fixpoint remove_loop (addr : in_addr) (rs : list pool_ref)
    (st : pool4_state) (deleted : Z) : pool4_state * Z :=
  match rs with
  | [] => (st, deleted)
  | r :: rs' =>
      match get_pool_node (pool_get r (pools st)) addr with
      | None => remove_loop addr rs' st deleted
      | Some (i, node) =>
          let '(l, m1) :=
            destroy_pool_node i node (pool_get r (pools st)) (mem st) in
          remove_loop addr rs' (mk_state (pool_set r l (pools st)) m1)
                      (deleted + 1)
      end
  end.

Definition pool4_remove (addr : option in_addr) (st : pool4_state)
  : response_code * pool4_state :=
  match addr with
  | None => (RESPONSE_MISSING_PARAM, st)
  | Some a =>
      let '(st1, deleted) := remove_loop a pool_array st 0 in
      if negb (deleted =? 0) && negb (deleted =? Z.of_nat (length pool_array))
      then (RESPONSE_NOT_FOUND, st1)
      else (RESPONSE_SUCCESS, st1)
  end.

(** Loop of [pool4_get_any] over the nodes from the cursor onwards; the
    first node whose matching section yields a port wins. *)
Fixpoint get_any_loop (host_port : Z) (nodes : list pool_node) (m : kmem)
  : option (ipv4_tuple_address * list pool_node * kmem) :=
  match nodes with
  | [] => None
  | node :: rest =>
      let section := get_section host_port in
      match extract_any_port (section_get section node) m with
      | (Some p, s', m') =>
          Some (mk_tuple_addr (address node) p,
                section_set section s' node :: rest, m')
      | (None, _, _) =>
          match get_any_loop host_port rest m with
          | Some (r, rest', m') => Some (r, node :: rest', m')
          | None => None
          end
      end
  end.

Variable little_endian : bool.

(** [pool4_get_any]: [Some result] when the C function returns [true]. *)
Definition pool4_get_any (l4protocol : Z) (port : Z) (st : pool4_state)
  : option ipv4_tuple_address * pool4_state :=
  match get_pool l4protocol with
  | None => (None, st)
  | Some r =>
      match pool_get r (pools st) with
      | [] => (None, st)
      | nodes =>
          match get_any_loop (be16_to_cpu little_endian port) nodes (mem st) with
          | Some (result, nodes', m') =>
              (Some result, mk_state (pool_set r nodes' (pools st)) m')
          | None => (None, st)
          end
      end
  end.

(** [pool4_get_similar]; [None] for [address] is the C [NULL]. *)
Definition pool4_get_similar (l4protocol : Z)
    (addr : option ipv4_tuple_address) (st : pool4_state)
  : option ipv4_tuple_address * pool4_state :=
  match addr with
  | None => (None, st)
  | Some a =>
      match get_pool l4protocol with
      | None => (None, st)
      | Some r =>
          match get_pool_node (pool_get r (pools st)) (ta_address a) with
          | None => (None, st)
          | Some (i, node) =>
              let section := get_section (l4_id a) in
              match extract_any_port (section_get section node) (mem st) with
              | (Some p, s', m') =>
                  (Some (mk_tuple_addr (ta_address a) p),
                   mk_state
                     (pool_set r
                        (<[i := section_set section s' node]>
                           (pool_get r (pools st)))
                        (pools st))
                     m')
              | (None, _, _) => (None, st)
              end
          end
      end
  end.

(** [pool4_return]. *)
Definition pool4_return (l4protocol : Z) (addr : option ipv4_tuple_address)
    (st : pool4_state) : bool * pool4_state :=
  match addr with
  | None => (false, st)
  | Some a =>
      match get_pool l4protocol with
      | None => (false, st)
      | Some r =>
          match get_pool_node (pool_get r (pools st)) (ta_address a) with
          | None => (false, st)
          | Some (i, node) =>
              let section := get_section (l4_id a) in
              let '(ok, m1) := kmalloc (mem st) in
              if ok then
                let s := section_get section node in
                let s' := mk_section (next_port s) (max_port s)
                            (free_ports s ++ [l4_id a]) in
                (true,
                 mk_state
                   (pool_set r
                      (<[i := section_set section s' node]>
                         (pool_get r (pools st)))
                      (pools st))
                   m1)
              else (false, mk_state (pools st) m1)
          end
      end
  end.

(** [pool4_contains]. *)
Definition pool4_contains (addr : in_addr) (st : pool4_state) : bool :=
  match get_pool_node (udp (pools st)) addr with
  | Some _ => true
  | None => false
  end.

(** [pool4_to_array]: the addresses of the UDP list, in an array the
    caller owns. *)
Definition pool4_to_array (st : pool4_state)
  : response_code * option (list in_addr) * pool4_state :=
  let '(ok, m1) := kmalloc (mem st) in
  if ok then
    (RESPONSE_SUCCESS, Some (map address (udp (pools st))),
     mk_state (pools st) m1)
  else (RESPONSE_ALLOC_FAILED, None, mk_state (pools st) m1).

End WithAllocator.

(** *** What a section is for

    The comments of [struct pool_node] give each section a parity and a
    range. *)

Definition section_odd (r : section_ref) : bool :=
  match r with OddLow | OddHigh => true | _ => false end.

Definition section_low (r : section_ref) : bool :=
  match r with OddLow | EvenLow => true | _ => false end.

Definition port_odd (p : Z) : bool := negb (p mod 2 =? 0).
Definition port_low (p : Z) : bool := p <? 1024.

(** A section whose never-used counter and whose free ports all belong
    to the parity and range of [r]. *)
Record section_ok (r : section_ref) (s : addr_section) : Prop := {
  sok_nonneg : 0 ≤ next_port s;
  sok_max : max_port s ≤ 65535;
  sok_parity : next_port s mod 2 = if section_odd r then 1 else 0;
  sok_range : if section_low r then max_port s ≤ 1023 else 1024 ≤ next_port s;
  sok_free : Forall (λ p, get_section p = r) (free_ports s)
}.

Definition node_ok (n : pool_node) : Prop :=
  ∀ r, section_ok r (section_get r n).

Definition pools_ok (p : pools_t) : Prop :=
  ∀ r, Forall node_ok (pool_get r p).

(** The states the module can be in: [pool4_init], then any sequence of
    the public operations, whatever the allocator answers. *)
Inductive reachable (kmalloc_ok : nat → bool)
    (POOL4_DEF : list (option in_addr)) (little_endian : bool)
  : pool4_state → Prop :=
  | reach_init defaults m :
      reachable kmalloc_ok POOL4_DEF little_endian
        (pool4_init kmalloc_ok POOL4_DEF defaults m).2
  | reach_destroy st :
      reachable kmalloc_ok POOL4_DEF little_endian st →
      reachable kmalloc_ok POOL4_DEF little_endian (pool4_destroy st)
  | reach_register a st :
      reachable kmalloc_ok POOL4_DEF little_endian st →
      reachable kmalloc_ok POOL4_DEF little_endian
        (pool4_register kmalloc_ok a st).2
  | reach_remove a st :
      reachable kmalloc_ok POOL4_DEF little_endian st →
      reachable kmalloc_ok POOL4_DEF little_endian (pool4_remove a st).2
  | reach_get_any proto port st :
      reachable kmalloc_ok POOL4_DEF little_endian st →
      reachable kmalloc_ok POOL4_DEF little_endian
        (pool4_get_any little_endian proto port st).2
  | reach_get_similar proto a st :
      reachable kmalloc_ok POOL4_DEF little_endian st →
      reachable kmalloc_ok POOL4_DEF little_endian
        (pool4_get_similar proto a st).2
  | reach_return proto a st :
      reachable kmalloc_ok POOL4_DEF little_endian st →
      reachable kmalloc_ok POOL4_DEF little_endian
        (pool4_return kmalloc_ok proto a st).2
  | reach_to_array st :
      reachable kmalloc_ok POOL4_DEF little_endian st →
      reachable kmalloc_ok POOL4_DEF little_endian
        (pool4_to_array kmalloc_ok st).2.

(** The observation of one section: pool [r], node at position [i],
    section [sr]. *)
Definition section_at (st : pool4_state) (r : pool_ref) (i : nat)
    (sr : section_ref) : option addr_section :=
  section_get sr <$> (pool_get r (pools st) !! i).

(** How many of the three pools hold a node for [a]. *)
Definition holds_node (a : in_addr) (l : address_list) : Z :=
  match get_pool_node l a with Some _ => 1 | None => 0 end.

Definition pools_holding (a : in_addr) (p : pools_t) : Z :=
  holds_node a (tcp p) + holds_node a (udp p) + holds_node a (icmp p).

(** [pool] without the first node that holds [a]. *)
Definition without_node (a : in_addr) (l : address_list) : address_list :=
  match get_pool_node l a with
  | Some (i, _) => delete i l
  | None => l
  end.

(** *** Further observations *)

(** The addresses of a list, in list order. *)
Definition addresses (l : address_list) : list in_addr := address <$> l.

(** The three lists hold the same addresses in the same order. *)
Definition pools_in_step (p : pools_t) : Prop :=
  addresses (tcp p) = addresses (udp p) ∧
  addresses (icmp p) = addresses (udp p).

(** The section of [node] that serves [host_port] can still yield a
    port. *)
Definition available (host_port : Z) (node : pool_node) : Prop :=
  let s := section_get (get_section host_port) node in
  free_ports s ≠ [] ∨ next_port s ≤ max_port s.

#[global] Instance available_dec host_port node :
  Decision (available host_port node).
Proof. unfold available. apply _. Defined.

(** The slab objects a node stands for: the node and one [free_port]
    record per free port. *)
Definition node_objects (n : pool_node) : Z :=
  1 + Z.of_nat (length (free_ports (odd_low n)))
    + Z.of_nat (length (free_ports (even_low n)))
    + Z.of_nat (length (free_ports (odd_high n)))
    + Z.of_nat (length (free_ports (even_high n))).

Fixpoint list_objects (l : address_list) : Z :=
  match l with
  | [] => 0
  | n :: l' => node_objects n + list_objects l'
  end.

Definition objects (p : pools_t) : Z :=
  list_objects (udp p) + list_objects (tcp p) + list_objects (icmp p).

(** [k] calls of [extract_any_port] in a row on one section: the
    answers in order, and the section and the allocator afterwards. *)
Fixpoint extract_many (k : nat) (s : addr_section) (m : kmem)
  : list (option Z) * addr_section * kmem :=
  match k with
  | O => ([], s, m)
  | S k' =>
      let '(o, s1, m1) := extract_any_port s m in
      let '(os, s2, m2) := extract_many k' s1 m1 in
      (o :: os, s2, m2)
  end.

(** The ports [first], [first + 2], ... ([k] of them). *)
Fixpoint every_other (k : nat) (first : Z) : list Z :=
  match k with
  | O => []
  | S k' => first :: every_other k' (first + 2)
  end.

(** *** Sample states *)

Definition always_ok : nat → bool := λ _, true.

(** 198.51.100.1 and 198.51.100.2. *)
Definition addr_1 : in_addr := 0xc6336401.
Definition addr_2 : in_addr := 0xc6336402.

(** The module started without default addresses. *)
Definition st_empty : pool4_state :=
  (pool4_init always_ok [] false (mk_kmem 0 0)).2.

Definition st_registered : pool4_state :=
  (pool4_register always_ok (Some addr_1) st_empty).2.

(** A state in which only the TCP and ICMP pools know [addr_1]. *)
Definition st_no_udp : pool4_state :=
  mk_state (mk_pools [] [new_node addr_1] [new_node addr_1]) (mk_kmem 2 2).

End Pool4.

(* ===================================================================== *)
(** ** mod/stateful/pool4/db.c *)
(* ===================================================================== *)

Module Pool4db.
Import Machine.

Definition ESRCH : Z := 3.

(** [struct ipv4_transport_addr]. *)
Record ipv4_transport_addr := mk_taddr {
  l3 : Z;
  l4 : Z
}.

Section WithTables.

(** [struct pool4_table] and the functions of [table.h] are declared
    outside the sources at hand: a table is its [mark] and a body of
    some type, and [pool4table_contains] is any predicate on it. *)
Context {table_body : Type}.

Record pool4_table := mk_table {
  mark : Z;
  body : table_body
}.

Variable pool4table_contains : pool4_table → ipv4_transport_addr → bool.

(** [hash_32] of <linux/hash.h>. *)
Variable hash_32 : Z → Z → Z.

(** The globals [db] (the chain hanging from each slot), [power] and
    [values]. *)
Record db_state := mk_db {
  db : Z → list pool4_table;
  power : Z;
  values : Z
}.

Definition slots (st : db_state) : Z := Z.shiftl 1 (power st).

(** [find_table]: [None] is the C [NULL]. *)
Definition find_table (st : db_state) (m : Z) : option pool4_table :=
  let hash := hash_32 m (power st) in
  List.find (λ table, mark table =? m) (db st hash).

(** [pool4db_contains]: the [int error] is converted to the [bool]
    result on return. *)
Definition pool4db_contains (st : db_state) (m : Z)
    (addr : ipv4_transport_addr) : bool :=
  let table := find_table st m in
  let error : Z :=
    match table with
    | Some t => bool_to_int (pool4table_contains t addr)
    | None => - ESRCH
    end in
  int_to_bool error.

(** [struct pool4_sample] and the other functions of [table.h] are
    declared outside the sources at hand too. [pool4table_create]
    answers [None] for [NULL]; [pool4table_add] and [pool4table_rm]
    answer with their error code and the table as they leave it. *)
Context {pool4_sample : Type}.

Variable pool4table_create : Z → option pool4_table.
Variable pool4table_add : pool4_table → pool4_sample → Z * pool4_table.
Variable pool4table_rm : pool4_table → pool4_sample → Z * pool4_table.
Variable pool4table_flush : pool4_table → pool4_table.
Variable pool4table_is_empty : pool4_table → bool.

Definition ENOMEM : Z := 12.

(** [pool4db_init]; [kmalloc_ok] tells whether [init_db] finds memory
    for the slots. The state is [None] when it does not ([db] is
    [NULL]). *)
Definition pool4db_init (kmalloc_ok : bool) : Z * option db_state :=
  if kmalloc_ok then (0, Some (mk_db (λ _, []) 4 0))
  else (- ENOMEM, None).

(** The slots the loops [for (i = 0; i < slots(); i++)] visit. *)
Definition slot_indices (st : db_state) : list Z :=
  Z.of_nat <$> seq 0 (Z.to_nat (slots st)).

(** [db[h] = chain]. *)
Definition set_slot (h : Z) (chain : list pool4_table)
    (d : Z → list pool4_table) : Z → list pool4_table :=
  λ i, if i =? h then chain else d i.

(** The chain once the table [find_table] found for [m] has been
    changed in place into [t']. *)
Fixpoint replace_table (m : Z) (t' : pool4_table) (chain : list pool4_table)
  : list pool4_table :=
  match chain with
  | [] => []
  | t :: chain' =>
      if mark t =? m then t' :: chain' else t :: replace_table m t' chain'
  end.

Definition create_table (st : db_state) (m : Z) (sample : pool4_sample)
  : Z * db_state :=
  match pool4table_create m with
  | None => (- ENOMEM, st)
  | Some table =>
      let '(error, table') := pool4table_add table sample in
      if negb (error =? 0) then (error, st)
      else
        let h := hash_32 m (power st) in
        (0, mk_db (set_slot h (table' :: db st h) (db st)) (power st)
                  (u32 (values st + 1)))
  end.

Definition pool4db_add (st : db_state) (m : Z) (sample : pool4_sample)
  : Z * db_state :=
  match find_table st m with
  | Some table =>
      let '(error, table') := pool4table_add table sample in
      let h := hash_32 m (power st) in
      (error,
       mk_db (set_slot h (replace_table m table' (db st h)) (db st))
             (power st) (values st))
  | None => create_table st m sample
  end.

Definition pool4db_rm (st : db_state) (m : Z) (sample : pool4_sample)
  : Z * db_state :=
  match find_table st m with
  | Some table =>
      let '(error, table') := pool4table_rm table sample in
      let h := hash_32 m (power st) in
      (error,
       mk_db (set_slot h (replace_table m table' (db st h)) (db st))
             (power st) (values st))
  | None => (- ESRCH, st)
  end.

Definition pool4db_flush (st : db_state) (m : Z) : Z * db_state :=
  match find_table st m with
  | Some table =>
      let h := hash_32 m (power st) in
      (0,
       mk_db (set_slot h (replace_table m (pool4table_flush table) (db st h))
                (db st))
             (power st) (values st))
  | None => (- ESRCH, st)
  end.

(** [pool4db_contains_all]: the walk over the slots and their chains
    stops at the first table that contains the address. *)
Definition pool4db_contains_all (st : db_state) (addr : ipv4_transport_addr)
  : bool :=
  existsb (λ i, existsb (λ table, pool4table_contains table addr) (db st i))
          (slot_indices st).

(** [pool4db_is_empty]: [empty] starts [true] and the walk stops with
    [false] at the first table for which [pool4table_is_empty]
    holds. *)
Definition pool4db_is_empty (st : db_state) : bool :=
  negb (existsb (λ i, existsb (λ table, pool4table_is_empty table) (db st i))
                (slot_indices st)).

End WithTables.

(** *** A sample database *)

(** A [hash_32] to run the sample with: the high [bits] bits of the
    32-bit product with the golden-ratio prime of <linux/hash.h>. *)
Definition hash_32_linux (val bits : Z) : Z :=
  Z.shiftr (u32 (val * 0x9e370001)) (32 - bits).

(** One table, of mark 1, that holds the listed transport addresses. *)
Definition sample_contains (t : @pool4_table (list (Z * Z)))
    (a : ipv4_transport_addr) : bool :=
  existsb (λ e, (e.1 =? l3 a) && (e.2 =? l4 a)) (body t).

(** Tables that list transport addresses; a sample is one address. *)
Definition sample_create (m : Z) : option (@pool4_table (list (Z * Z))) :=
  Some (mk_table m []).

Definition sample_add (t : @pool4_table (list (Z * Z))) (x : Z * Z)
  : Z * @pool4_table (list (Z * Z)) :=
  (0, mk_table (mark t) (x :: body t)).

Definition sample_is_empty (t : @pool4_table (list (Z * Z))) : bool :=
  match body t with [] => true | _ => false end.

Definition sample_rm (t : @pool4_table (list (Z * Z))) (x : Z * Z)
  : Z * @pool4_table (list (Z * Z)) :=
  (0, mk_table (mark t)
        (List.filter (λ e, negb ((e.1 =? x.1) && (e.2 =? x.2))) (body t))).

Definition sample_flush (t : @pool4_table (list (Z * Z)))
  : @pool4_table (list (Z * Z)) :=
  mk_table (mark t) [].

Definition sample_db : @db_state (list (Z * Z)) :=
  mk_db (λ slot, if slot =? hash_32_linux 1 4
                 then [mk_table 1 [(0xc6336401, 1024)]] else [])
        4 1.

End Pool4db.

(* ===================================================================== *)
(** ** include/nf_nat64_filtering_and_updating.h *)
(* ===================================================================== *)

Module Filtering.
Import Machine.

Inductive expiry_type :=
  | UDP_DEFAULT
  | TCP_TRANS
  | TCP_EST
  | TCP_INCOMING_SYN
  | ICMP_DEFAULT.

Inductive state_type :=
  | CLOSED
  | V6_SYN_RCV
  | V4_SYN_RCV
  | FOUR_MIN
  | ESTABLISHED
  | V6_FIN_RCV
  | V4_FIN_RCV
  | V6_FIN_V4_FIN.

#[global] Instance expiry_type_eq_dec : EqDecision expiry_type.
Proof. solve_decision. Defined.

#[global] Instance state_type_eq_dec : EqDecision state_type.
Proof. solve_decision. Defined.

(** The address of a slab object. *)
Abbreviation ptr := positive.

(** [struct in6_addr], as its four 32-bit words [s6_addr32]. *)
Record in6_addr := mk_in6 {
  s6_addr32_0 : Z;
  s6_addr32_1 : Z;
  s6_addr32_2 : Z;
  s6_addr32_3 : Z
}.

(** The flags of [struct tcphdr] the state machine reads. *)
Record tcphdr := mk_tcphdr {
  syn : bool;
  fin : bool;
  rst : bool
}.

(** [struct expiry_q]: the sessions linked through [byexpiry], from the
    head onwards, and the timeout in seconds. *)
Record expiry_q := mk_expiry_q {
  queue : list ptr;
  timeout : Z
}.

(** [struct nat64_bib_entry]. [sessions] lists the session entries
    linked into the ring of this entry, from the head onwards; the
    hooks [byremote] and [bylocal] are the entry's places in the chains
    of [hash6] and [hash4]. *)
Record nat64_bib_entry := mk_bib {
  type : Z;
  remote6_addr : in6_addr;
  local4_addr : Z;
  remote6_port : Z;
  local4_port : Z;
  sessions : list ptr
}.

(** [struct nat64_st_entry]. The hook [list] is represented by [ring],
    the BIB entry whose [sessions] ring the session is linked into; the
    hook [byexpiry] is the session's place in a queue of
    [expiry_base]. *)
Record nat64_st_entry := mk_st {
  ring : ptr;
  st_remote6_addr : in6_addr;
  embedded6_addr : in6_addr;
  expires : Z;
  state : state_type;
  st_local4_addr : Z;
  remote4_addr : Z;
  st_remote6_port : Z;
  embedded6_port : Z;
  remote4_port : Z;
  st_local4_port : Z
}.

(** [struct transport_addr_struct] of the legacy pool; [address] stands
    for the [in_addr] that [in4_pton] reads from the stored text. *)
Record transport_addr_struct := mk_transport_addr {
  address : Z;
  port : Z
}.

(** The globals of the module: the clock, the expiry queues, the
    objects allocated from the session caches ([st_cache],
    [st_cacheTCP]) and from the BIB caches ([bib_cache],
    [bib_cacheTCP]), the two hash tables, the legacy list of free
    transport addresses, and the pools of [pool4.c]. *)
Record world := mk_world {
  jiffies : Z;
  expiry_base : expiry_type → expiry_q;
  st_cache : gmap ptr nat64_st_entry;
  bib_cache : gmap ptr nat64_bib_entry;
  hash6 : Z → list ptr;
  hash4 : Z → list ptr;
  free_udp_transport_addr : list transport_addr_struct;
  pool4 : Pool4.pool4_state
}.

Definition with_expiry_base (e : expiry_type → expiry_q) (w : world) : world :=
  mk_world (jiffies w) e (st_cache w) (bib_cache w) (hash6 w) (hash4 w)
           (free_udp_transport_addr w) (pool4 w).

Definition with_st_cache (m : gmap ptr nat64_st_entry) (w : world) : world :=
  mk_world (jiffies w) (expiry_base w) m (bib_cache w) (hash6 w) (hash4 w)
           (free_udp_transport_addr w) (pool4 w).

Definition with_bib_cache (m : gmap ptr nat64_bib_entry) (w : world) : world :=
  mk_world (jiffies w) (expiry_base w) (st_cache w) m (hash6 w) (hash4 w)
           (free_udp_transport_addr w) (pool4 w).

Definition with_hash6 (h : Z → list ptr) (w : world) : world :=
  mk_world (jiffies w) (expiry_base w) (st_cache w) (bib_cache w) h (hash4 w)
           (free_udp_transport_addr w) (pool4 w).

Definition with_hash4 (h : Z → list ptr) (w : world) : world :=
  mk_world (jiffies w) (expiry_base w) (st_cache w) (bib_cache w) (hash6 w) h
           (free_udp_transport_addr w) (pool4 w).

Definition with_free_udp (l : list transport_addr_struct) (w : world) : world :=
  mk_world (jiffies w) (expiry_base w) (st_cache w) (bib_cache w) (hash6 w)
           (hash4 w) l (pool4 w).

Definition set_expires (e : Z) (s : nat64_st_entry) : nat64_st_entry :=
  mk_st (ring s) (st_remote6_addr s) (embedded6_addr s) e (state s)
        (st_local4_addr s) (remote4_addr s) (st_remote6_port s)
        (embedded6_port s) (remote4_port s) (st_local4_port s).

Definition set_state (x : state_type) (s : nat64_st_entry) : nat64_st_entry :=
  mk_st (ring s) (st_remote6_addr s) (embedded6_addr s) (expires s) x
        (st_local4_addr s) (remote4_addr s) (st_remote6_port s)
        (embedded6_port s) (remote4_port s) (st_local4_port s).

Definition set_sessions (l : list ptr) (b : nat64_bib_entry) : nat64_bib_entry :=
  mk_bib (type b) (remote6_addr b) (local4_addr b) (remote6_port b)
         (local4_port b) l.

(** [list_del] and [hlist_del] on a list of object addresses: the
    object leaves the list it is linked into. *)
Definition unlink (x : ptr) (l : list ptr) : list ptr :=
  filter (λ y, y ≠ x) l.

(** The entry that follows [x] in [l] ([pos->next]); [None] when the
    next node is the list head. *)
Fixpoint list_next (x : ptr) (l : list ptr) : option ptr :=
  match l with
  | [] => None
  | y :: l' => if decide (y = x) then head l' else list_next x l'
  end.

(** [list_del(&session->byexpiry)]: the session leaves the queue it is
    on. *)
Definition dequeue (s : ptr) (e : expiry_type → expiry_q)
  : expiry_type → expiry_q :=
  λ t, mk_expiry_q (unlink s (queue (e t))) (timeout (e t)).

(** [list_add_tail(&session->byexpiry, &expiry_base[type].queue)]. *)
Definition enqueue_tail (s : ptr) (ty : expiry_type)
    (e : expiry_type → expiry_q) : expiry_type → expiry_q :=
  λ t, if decide (t = ty) then mk_expiry_q (queue (e t) ++ [s]) (timeout (e t))
       else e t.

Definition nat64_hash4 (addr : Z) (port : Z) : Z := port.

Definition nat64_hash6 (addr6 : in6_addr) (port : Z) : Z :=
  let addr4 :=
    Z.lxor (Z.lxor (s6_addr32_1 addr6) (s6_addr32_2 addr6)) (s6_addr32_3 addr6) in
  u16 (Z.lxor (Z.lxor (Z.shiftr addr4 16) addr4) port).

Section WithKernel.

(** The tick rate [HZ], an [int] constant. *)
Variable HZ : Z.

(** Every function below that dereferences a pointer answers [None]
    when the object is not allocated. *)

(** [session_renew]. [timeout] is an [int] and so is [HZ]: their
    product is taken on [int] and then converted to [unsigned long] for
    the sum with [jiffies]. *)
Definition session_renew (session : ptr) (ty : expiry_type) (w : world)
  : option world :=
  se ← st_cache w !! session;
  let e1 := dequeue session (expiry_base w) in
  let se' :=
    set_expires
      (ulong (jiffies w + sint (timeout (expiry_base w ty) * HZ))) se in
  Some (with_expiry_base (enqueue_tail session ty e1)
          (with_st_cache (<[session := se']> (st_cache w)) w)).

(** [session->state = x]. *)
Definition store_state (session : ptr) (x : state_type) (w : world)
  : option world :=
  se ← st_cache w !! session;
  Some (with_st_cache (<[session := set_state x se]> (st_cache w)) w).

Definition tcp_timeout_fsm (session : ptr) (w : world) : option (Z * world) :=
  se ← st_cache w !! session;
  if decide (state se = ESTABLISHED) then
    w1 ← session_renew session TCP_TRANS w;
    w2 ← store_state session FOUR_MIN w1;
    Some (1, w2)
  else Some (0, w).

Definition tcp4_fsm (session : ptr) (tcph : tcphdr) (w : world) : option world :=
  se ← st_cache w !! session;
  match state se with
  | CLOSED => Some w
  | V6_SYN_RCV =>
      if syn tcph then
        w1 ← session_renew session TCP_EST w;
        store_state session ESTABLISHED w1
      else Some w
  | V4_SYN_RCV => Some w
  | FOUR_MIN =>
      if negb (rst tcph) then
        w1 ← session_renew session TCP_EST w;
        store_state session ESTABLISHED w1
      else Some w
  | ESTABLISHED =>
      if fin tcph then store_state session V4_FIN_RCV w
      else if rst tcph then
        w1 ← session_renew session TCP_TRANS w;
        store_state session FOUR_MIN w1
      else session_renew session TCP_EST w
  | V6_FIN_RCV =>
      if fin tcph then
        w1 ← session_renew session TCP_TRANS w;
        store_state session V6_FIN_V4_FIN w1
      else session_renew session TCP_EST w
  | V4_FIN_RCV => session_renew session TCP_EST w
  | V6_FIN_V4_FIN => Some w
  end.

Definition tcp6_fsm (session : ptr) (tcph : tcphdr) (w : world) : option world :=
  se ← st_cache w !! session;
  match state se with
  | CLOSED =>
      if syn tcph then
        w1 ← session_renew session TCP_TRANS w;
        store_state session V6_SYN_RCV w1
      else Some w
  | V6_SYN_RCV =>
      if syn tcph then session_renew session TCP_TRANS w else Some w
  | V4_SYN_RCV =>
      if syn tcph then
        w1 ← session_renew session TCP_EST w;
        store_state session ESTABLISHED w1
      else Some w
  | FOUR_MIN =>
      if negb (rst tcph) then
        w1 ← session_renew session TCP_EST w;
        store_state session ESTABLISHED w1
      else Some w
  | ESTABLISHED =>
      if fin tcph then store_state session V6_FIN_RCV w
      else if rst tcph then
        w1 ← session_renew session TCP_TRANS w;
        store_state session FOUR_MIN w1
      else session_renew session TCP_EST w
  | V6_FIN_RCV => session_renew session TCP_EST w
  | V4_FIN_RCV =>
      if fin tcph then
        w1 ← session_renew session TCP_TRANS w;
        store_state session V6_FIN_V4_FIN w1
      else session_renew session TCP_EST w
  | V6_FIN_V4_FIN => Some w
  end.

(** What the body of a loop asks of the loop. *)
Inductive flow := Continue | Break.

(** [hlist_del(&bib->byremote)] and [hlist_del(&bib->bylocal)]: the
    entry leaves the chain it is on. *)
Definition hlist_del (b : ptr) (h : Z → list ptr) : Z → list ptr :=
  λ i, unlink b (h i).

(** [hlist_add_head] on slot [k], as it changes the chain: the entry
    becomes the first one. The primitive also writes the back link
    ([pprev]) of the entry that was first, as [list_add_tail] writes the
    forward link of the entry that was last; these writes to the
    neighbours are not part of this view of a chain, and a statement
    that depends on them takes the neighbours to be allocated. *)
Definition hlist_add_head (b : ptr) (k : Z) (h : Z → list ptr)
  : Z → list ptr :=
  λ i, if i =? k then b :: h i else h i.

(** The body of the loop of [clean_expired_sessions], at the session
    [pos] points to. *)
Definition clean_session (s : ptr) (w : world) : option (flow * world) :=
  se ← st_cache w !! s;
  if time_after (jiffies w) (expires se) then
    '(grace, w1) ← tcp_timeout_fsm s w;
    if negb (grace =? 0) then Some (Continue, w1)
    else
      (* list_del(pos) *)
      let w2 := with_expiry_base (dequeue s (expiry_base w1)) w1 in
      (* next_session = session->list.next; list_del(&session->list) *)
      b ← bib_cache w2 !! ring se;
      let rest := unlink s (sessions b) in
      let w3 :=
        match rest with
        | [] =>
            (* list_empty(next_session): the ring is down to its head *)
            with_bib_cache (delete (ring se) (bib_cache w2))
              (with_hash4 (hlist_del (ring se) (hash4 w2))
                 (with_hash6 (hlist_del (ring se) (hash6 w2)) w2))
        | _ :: _ =>
            with_bib_cache (<[ring se := set_sessions rest b]> (bib_cache w2)) w2
        end in
      (* kmem_cache_free(st_cache, session) *)
      Some (Continue, with_st_cache (delete s (st_cache w3)) w3)
  else Some (Break, w).

(** [list_for_each_safe(pos, n, queue)]: [n] is read before the body
    runs, and the walk ends when [pos] is back at the head. [fuel]
    bounds the number of iterations. *)
Fixpoint clean_loop (fuel : nat) (q : expiry_type) (pos : option ptr)
    (w : world) : option world :=
  match pos with
  | None => Some w
  | Some s =>
      match fuel with
      | O => None
      | S fuel' =>
          let n := list_next s (queue (expiry_base w q)) in
          '(c, w') ← clean_session s w;
          match c with
          | Break => Some w'
          | Continue => clean_loop fuel' q n w'
          end
      end
  end.

(** [clean_expired_sessions(&expiry_base[q].queue)]. *)
Definition clean_expired_sessions (fuel : nat) (q : expiry_type) (w : world)
  : option world :=
  clean_loop fuel q (head (queue (expiry_base w q))) w.

(** [clean_expired_sessions_tcp] differs from [clean_expired_sessions]
    in the slab caches it frees to, which are one store here. *)
Definition clean_expired_sessions_tcp := clean_expired_sessions.

(** [session_create]; [mem] is the answer of [kmem_cache_zalloc]. The
    outer [None] is a fault, the inner one the C [NULL]. The deadline
    is computed as in [session_renew]. *)
Definition session_create (mem : option ptr) (bib : ptr)
    (in6_daddr : in6_addr) (addr : Z) (port : Z) (ty : expiry_type)
    (w : world) : option (option ptr * world) :=
  match mem with
  | None => Some (None, w)
  | Some s =>
      b ← bib_cache w !! bib;
      let se :=
        mk_st bib (remote6_addr b) in6_daddr
              (ulong (jiffies w + sint (timeout (expiry_base w ty) * HZ)))
              CLOSED (local4_addr b) addr (remote6_port b) port port
              (local4_port b) in
      Some (Some s,
            with_expiry_base (enqueue_tail s ty (expiry_base w))
              (with_bib_cache
                 (<[bib := set_sessions (s :: sessions b) b]> (bib_cache w))
                 (with_st_cache (<[s := se]> (st_cache w)) w)))
  end.

Definition session_create_tcp := session_create.

(** [bib_create]; [mem] is the answer of [kmem_cache_zalloc]. *)
Definition bib_create (mem : option ptr) (remote6 : in6_addr)
    (remote6_port' : Z) (local4_addr' : Z) (local4_port' : Z) (ty : Z)
    (w : world) : option ptr * world :=
  match mem with
  | None => (None, w)
  | Some b =>
      (Some b,
       with_bib_cache
         (<[b := mk_bib ty remote6 local4_addr' remote6_port' local4_port' []]>
            (bib_cache w))
         w)
  end.

Definition bib_create_tcp := bib_create.

(** [get_tranport_addr] is declared in [nf_nat64_ipv4_pool.h], outside
    the sources at hand: it answers with the transport address it takes
    from the list, if any, and the list it leaves. *)
Variable get_tranport_addr :
  list transport_addr_struct →
  option transport_addr_struct * list transport_addr_struct.

Variable little_endian : bool.

(** [bib_session_create]; [bib_mem] and [st_mem] are the answers of
    [kmem_cache_zalloc] for the BIB and for the session. *)
Definition bib_session_create (bib_mem st_mem : option ptr)
    (saddr in6_daddr : in6_addr) (daddr sport dport : Z) (protocol : Z)
    (ty : expiry_type) (w : world) : option (option ptr * world) :=
  let '(transport_addr, free') :=
    get_tranport_addr (free_udp_transport_addr w) in
  let w0 := with_free_udp free' w in
  let '(local4_port', local4_addr') :=
    match transport_addr with
    | None => (u16 (-1), u32 (-1))
    | Some ta => (u16 (ntohs little_endian (port ta)), address ta)
    end in
  if local4_port' <? 0 then Some (None, w0)
  else
    let '(bib, w1) :=
      bib_create bib_mem saddr sport local4_addr' local4_port' protocol w0 in
    match bib with
    | None => Some (None, w1)
    | Some b =>
        let w2 :=
          with_hash6 (hlist_add_head b (nat64_hash6 saddr sport) (hash6 w1)) w1 in
        let w3 := with_hash4 (hlist_add_head b local4_port' (hash4 w2)) w2 in
        '(session, w4) ← session_create st_mem b in6_daddr daddr dport ty w3;
        match session with
        | None =>
            (* kmem_cache_free(bib_cache, bib) *)
            Some (None, with_bib_cache (delete b (bib_cache w4)) w4)
        | Some _ => Some (Some b, w4)
        end
    end.

(** [bib_session_create_tcp] differs in the slab caches and the log
    lines only. *)
Definition bib_session_create_tcp := bib_session_create.

(** [bib_ipv4_lookup] and [bib_ipv6_lookup]: the first entry of the
    chain that matches; a chain entry that is not allocated is a
    fault. *)
Fixpoint bib_chain_find (test : nat64_bib_entry → bool) (chain : list ptr)
    (w : world) : option (option ptr) :=
  match chain with
  | [] => Some None
  | b :: chain' =>
      e ← bib_cache w !! b;
      if test e then Some (Some b) else bib_chain_find test chain' w
  end.

Definition bib_ipv4_lookup (local_addr local_port : Z) (ty : Z) (w : world)
  : option (option ptr) :=
  let h := nat64_hash4 local_addr local_port in
  bib_chain_find
    (λ e, (type e =? ty) && (local4_addr e =? local_addr)
          && (local4_port e =? local_port))
    (hash4 w h) w.

(** [memcmp(a, b, sizeof(struct in6_addr)) == 0]. *)
Definition in6_addr_equal (a b : in6_addr) : bool :=
  (s6_addr32_0 a =? s6_addr32_0 b) && (s6_addr32_1 a =? s6_addr32_1 b)
  && (s6_addr32_2 a =? s6_addr32_2 b) && (s6_addr32_3 a =? s6_addr32_3 b).

Definition bib_ipv6_lookup (remote_addr : in6_addr) (remote_port : Z) (ty : Z)
    (w : world) : option (option ptr) :=
  let h := nat64_hash6 remote_addr remote_port in
  bib_chain_find
    (λ e, (type e =? ty) && (remote6_port e =? remote_port)
          && in6_addr_equal (remote6_addr e) remote_addr)
    (hash6 w h) w.

(** [session_ipv4_lookup]: the first session of the ring of [bib] with
    the given remote IPv4 transport address. *)
Fixpoint session_ring_find (remote4_addr' remote4_port' : Z) (l : list ptr)
    (w : world) : option (option ptr) :=
  match l with
  | [] => Some None
  | s :: l' =>
      se ← st_cache w !! s;
      if (remote4_addr se =? remote4_addr') && (remote4_port se =? remote4_port')
      then Some (Some s)
      else session_ring_find remote4_addr' remote4_port' l' w
  end.

Definition session_ipv4_lookup (bib : ptr) (remote4_addr' remote4_port' : Z)
    (w : world) : option (option ptr) :=
  b ← bib_cache w !! bib;
  session_ring_find remote4_addr' remote4_port' (sessions b) w.

(** The inner walk of [bib_allocate_local4_port] over a chain of
    [hash4]: whether [flag] is set, that is, whether some entry of the
    chain has the type. *)
Fixpoint chain_has_type (ty : Z) (chain : list ptr) (w : world)
  : option bool :=
  match chain with
  | [] => Some false
  | b :: chain' =>
      e ← bib_cache w !! b;
      if type e =? ty then Some true else chain_has_type ty chain' w
  end.

(** The first loop of [bib_allocate_local4_port],
    [for (i = port; i <= max; i += 2, flag = 0)], from [i] on. The
    counter is a [__be16]: [i += 2] wraps at 16 bits. The inner [Some]
    is the port the loop returns, the inner [None] the end of the loop;
    the outer [None] is a fault, or [fuel] iterations done with the
    loop still running. *)
Fixpoint allocate_upwards (fuel : nat) (ty : Z) (max i : Z) (w : world)
  : option (option Z) :=
  match fuel with
  | O => None
  | S fuel' =>
      if i <=? max then
        flag ← chain_has_type ty (hash4 w (htons little_endian i)) w;
        if (flag : bool) then allocate_upwards fuel' ty max (u16 (i + 2)) w
        else Some (Some (htons little_endian i))
      else Some None
  end.

(** The second loop, [for (i = port - 2; i >= min; i -= 2, flag = 0)],
    from [i] on. *)
Fixpoint allocate_downwards (fuel : nat) (ty : Z) (min i : Z) (w : world)
  : option (option Z) :=
  match fuel with
  | O => None
  | S fuel' =>
      if i >=? min then
        flag ← chain_has_type ty (hash4 w (htons little_endian i)) w;
        if (flag : bool) then allocate_downwards fuel' ty min (u16 (i - 2)) w
        else Some (Some (htons little_endian i))
      else Some None
  end.

(** [bib_allocate_local4_port]; [fuel] bounds the iterations of each
    loop. The closing [return -1] is converted to the [__be16]
    result. *)
Definition bib_allocate_local4_port (fuel : nat) (port : Z) (ty : Z)
    (w : world) : option Z :=
  let port := ntohs little_endian port in
  let min := if port <? 1024 then 0 else 1024 in
  let max := if port <? 1024 then 1023 else 65535 in
  r ← allocate_upwards fuel ty max port w;
  match r with
  | Some p => Some p
  | None =>
      r' ← allocate_downwards fuel ty min (u16 (port - 2)) w;
      match r' with
      | Some p => Some p
      | None => Some (u16 (-1))
      end
  end.

End WithKernel.

(** *** Sessions and their queues *)

(** How many times the session [s] is linked on the queues of
    [expiry_base]. *)
Definition times_queued (e : expiry_type → expiry_q) (s : ptr) : nat :=
  (count_occ Pos.eq_dec (queue (e UDP_DEFAULT)) s
   + count_occ Pos.eq_dec (queue (e TCP_TRANS)) s
   + count_occ Pos.eq_dec (queue (e TCP_EST)) s
   + count_occ Pos.eq_dec (queue (e TCP_INCOMING_SYN)) s
   + count_occ Pos.eq_dec (queue (e ICMP_DEFAULT)) s)%nat.

(** Every allocated session is linked once, on one queue, and no other
    object is linked on a queue. *)
Definition sessions_queued_once (w : world) : Prop :=
  ∀ s, times_queued (expiry_base w) s
       = match st_cache w !! s with Some _ => 1%nat | None => 0%nat end.

(** A port, in host order, whose chain of [hash4] holds no entry of the
    type. *)
Definition port_is_free (little_endian : bool) (ty : Z) (w : world) (i : Z)
  : Prop :=
  chain_has_type ty (hash4 w (htons little_endian i)) w = Some false.

(** *** Well-formed queues

    A session is in order when it is allocated and linked into the ring
    of an allocated BIB entry. *)
Definition session_ok (w : world) (s : ptr) : Prop :=
  ∃ se b, st_cache w !! s = Some se ∧
          bib_cache w !! ring se = Some b ∧
          s ∈ sessions b.

(** A queue is in order when no session is on it twice and its sessions
    are in order. *)
Definition queue_wf (q : expiry_type) (w : world) : Prop :=
  NoDup (queue (expiry_base w q)) ∧
  ∀ s, s ∈ queue (expiry_base w q) → session_ok w s.

Definition is_established (m : gmap ptr nat64_st_entry) (s : ptr) : Prop :=
  ∃ se, m !! s = Some se ∧ state se = ESTABLISHED.

#[global] Instance is_established_dec m s : Decision (is_established m s).
Proof.
  unfold is_established. destruct (m !! s) as [se|].
  - destruct (decide (state se = ESTABLISHED)) as [H|H].
    + left. exists se. split; [reflexivity | exact H].
    + right. intros (se' & [= <-] & H'). contradiction.
  - right. intros (se' & H' & _). discriminate.
Defined.

(** What the walk of the reaper still has to do from the entries [l]:
    one visit each, and one more for each that will be renewed. *)
Definition reaper_measure (m : gmap ptr nat64_st_entry) (l : list ptr) : nat :=
  (length l + length (filter (is_established m) l))%nat.

(** *** The transition table of the specification *)

Inductive direction := FromV6 | FromV4.

(** The table of the specification, read row by row: the state the
    session moves to and the queue it is renewed on, if any. The
    conditions of a cell are tried in the order the cell lists them. *)
Definition spec_transition (d : direction) (x : state_type) (h : tcphdr)
  : state_type * option expiry_type :=
  match x, d with
  | CLOSED, FromV6 =>
      if syn h then (V6_SYN_RCV, Some TCP_TRANS) else (CLOSED, None)
  | CLOSED, FromV4 => (CLOSED, None)
  | V6_SYN_RCV, FromV6 =>
      if syn h then (V6_SYN_RCV, Some TCP_TRANS) else (V6_SYN_RCV, None)
  | V6_SYN_RCV, FromV4 =>
      if syn h then (ESTABLISHED, Some TCP_EST) else (V6_SYN_RCV, None)
  | V4_SYN_RCV, FromV6 =>
      if syn h then (ESTABLISHED, Some TCP_EST) else (V4_SYN_RCV, None)
  | V4_SYN_RCV, FromV4 => (V4_SYN_RCV, None)
  | FOUR_MIN, _ =>
      if rst h then (FOUR_MIN, None) else (ESTABLISHED, Some TCP_EST)
  | ESTABLISHED, FromV6 =>
      if fin h then (V6_FIN_RCV, None)
      else if rst h then (FOUR_MIN, Some TCP_TRANS)
      else (ESTABLISHED, Some TCP_EST)
  | ESTABLISHED, FromV4 =>
      if fin h then (V4_FIN_RCV, None)
      else if rst h then (FOUR_MIN, Some TCP_TRANS)
      else (ESTABLISHED, Some TCP_EST)
  | V6_FIN_RCV, FromV6 => (V6_FIN_RCV, Some TCP_EST)
  | V6_FIN_RCV, FromV4 =>
      if fin h then (V6_FIN_V4_FIN, Some TCP_TRANS)
      else (V6_FIN_RCV, Some TCP_EST)
  | V4_FIN_RCV, FromV6 =>
      if fin h then (V6_FIN_V4_FIN, Some TCP_TRANS)
      else (V4_FIN_RCV, Some TCP_EST)
  | V4_FIN_RCV, FromV4 => (V4_FIN_RCV, Some TCP_EST)
  | V6_FIN_V4_FIN, _ => (V6_FIN_V4_FIN, None)
  end.

(** The session [s] as a transition leaves it: linked at the tail of
    the queue it is renewed on, with the deadline [jiffies] plus the
    [int] product of the timeout of that queue and [HZ], or left where
    it is with the deadline it has; and in the new state. *)
Definition after_transition (HZ : Z) (s : ptr) (se : nat64_st_entry)
    (tr : state_type * option expiry_type) (w : world) : world :=
  let se1 :=
    match tr.2 with
    | Some q =>
        set_expires
          (ulong (jiffies w + sint (timeout (expiry_base w q) * HZ))) se
    | None => se
    end in
  let e1 :=
    match tr.2 with
    | Some q => enqueue_tail s q (dequeue s (expiry_base w))
    | None => expiry_base w
    end in
  with_expiry_base e1
    (with_st_cache (<[s := set_state tr.1 se1]> (st_cache w)) w).

(** The code's state machine for a direction. *)
Definition tcp_fsm (HZ : Z) (d : direction) :=
  match d with
  | FromV6 => tcp6_fsm HZ
  | FromV4 => tcp4_fsm HZ
  end.

Definition with_jiffies (j : Z) (w : world) : world :=
  mk_world j (expiry_base w) (st_cache w) (bib_cache w) (hash6 w) (hash4 w)
           (free_udp_transport_addr w) (pool4 w).

(** *** Sample worlds *)

Definition sample_HZ : Z := 250.

Definition sample_timeout (t : expiry_type) : Z :=
  match t with
  | UDP_DEFAULT => 5 * 60
  | ICMP_DEFAULT => 1 * 60
  | TCP_TRANS => 4 * 60
  | TCP_EST => 2 * 60 * 60
  | TCP_INCOMING_SYN => 6
  end.

(** Modelled from the spec: [get_tranport_addr] is absent from the
    sources at hand; the pool-drawn transport address is the first one
    of the free list, and the draw takes it off the list. *)
Definition take_first_transport_addr (l : list transport_addr_struct)
  : option transport_addr_struct * list transport_addr_struct :=
  match l with
  | [] => (None, [])
  | ta :: l' => (Some ta, l')
  end.

(** 2001:db8::1 and 64:ff9b::c633:6402 (198.51.100.2 embedded). *)
Definition host6 : in6_addr := mk_in6 0x20010db8 0 0 1.
Definition dest6 : in6_addr := mk_in6 0x0064ff9b 0 0 0xc6336402.

(** After start-up: 198.51.100.1 is registered in pool4 and its port
    1024 has been drawn for UDP; the legacy list offers that transport
    address (port in network order, little-endian host). *)
Definition w_boot : world :=
  mk_world 0 (λ t, mk_expiry_q [] (sample_timeout t)) ∅ ∅ (λ _, []) (λ _, [])
    [mk_transport_addr Pool4.addr_1 0x0004]
    (Pool4.pool4_get_any true Pool4.IPPROTO_UDP 0x409c Pool4.st_registered).2.

Definition world_of (r : option (option ptr * world)) (w : world) : world :=
  match r with
  | Some (_, w') => w'
  | None => w
  end.

(** A UDP flow from [host6], port 40000, to [dest6], port 53: BIB entry
    at address 1, session at address 2. *)
Definition w_udp_flow : world :=
  world_of
    (bib_session_create sample_HZ take_first_transport_addr true
       (Some 1%positive) (Some 2%positive) host6 dest6 0xc6336402 40000 53
       17 UDP_DEFAULT w_boot)
    w_boot.

(** The same, idle for one tick more than the UDP timeout. *)
Definition w_udp_idle : world :=
  with_jiffies (sample_timeout UDP_DEFAULT * sample_HZ + 1) w_udp_flow.

(** A TCP connection: the BIB and the session are created on a SYN
    from the IPv6 side, the SYN of the IPv4 side follows. *)
Definition SYN : tcphdr := mk_tcphdr true false false.

Definition w_tcp_new : world :=
  world_of
    (bib_session_create_tcp sample_HZ take_first_transport_addr true
       (Some 1%positive) (Some 2%positive) host6 dest6 0xc6336402 40000 80
       6 TCP_TRANS w_boot)
    w_boot.

Definition w_tcp_syn6 : world :=
  default w_tcp_new (tcp6_fsm sample_HZ 2%positive SYN w_tcp_new).

(** The session of [w_tcp_syn6]. *)
Definition se_tcp_syn6 : nat64_st_entry :=
  mk_st 1%positive host6 dest6 60000 V6_SYN_RCV Pool4.addr_1 0xc6336402
        40000 80 80 1024.

Definition w_tcp_established : world :=
  default w_tcp_syn6 (tcp4_fsm sample_HZ 2%positive SYN w_tcp_syn6).

(** The session of [w_tcp_established], and the session and the BIB
    entry of [w_udp_flow]. *)
Definition se_tcp_est : nat64_st_entry :=
  mk_st 1%positive host6 dest6 1800000 ESTABLISHED Pool4.addr_1 0xc6336402
        40000 80 80 1024.

Definition se_udp : nat64_st_entry :=
  mk_st 1%positive host6 dest6 75000 CLOSED Pool4.addr_1 0xc6336402
        40000 53 53 1024.

Definition bib_udp : nat64_bib_entry :=
  mk_bib 17 host6 Pool4.addr_1 40000 1024 [2%positive].

(** The connection, idle for one tick more than the TCP_EST timeout. *)
Definition w_tcp_idle : world :=
  with_jiffies (sample_timeout TCP_EST * sample_HZ + 1) w_tcp_established.

End Filtering.

(* ===================================================================== *)
(** ** include/nf_nat64_auxiliary_functions.h *)
(* ===================================================================== *)

Module Auxiliary.
Import Machine Filtering.

(** [checksum_adjust]: [*sum] goes in and comes out. [*sum + old - new]
    is computed on [int] and stored to the [uint32_t s]; the folded
    value is stored to the [uint16_t *sum]. *)
Definition checksum_adjust (sum old new : Z) (udp : bool) : Z :=
  if udp && (sum =? 0) then sum
  else
    let s := u32 (sum + old - new) in
    let sum' := u16 (Z.land s 0xffff + Z.shiftr s 16) in
    if udp && (sum' =? 0) then 0xffff else sum'.

(** [checksum_remove] and [checksum_add] over the 16-bit words from
    [begin] up to [end]. *)
Definition checksum_remove (sum : Z) (words : list Z) (udp : bool) : Z :=
  fold_left (λ acc word, checksum_adjust acc word 0 udp) words sum.

Definition checksum_add (sum : Z) (words : list Z) (udp : bool) : Z :=
  fold_left (λ acc word, checksum_adjust acc 0 word udp) words sum.

(** [checksum_change]: the new [*sum] and the new [*x]. *)
Definition checksum_change (sum x new : Z) (udp : bool) : Z * Z :=
  (checksum_adjust sum x new udp, new).

(** The two addresses that close [struct iphdr] and
    [struct ipv6hdr]. *)
Record iphdr := mk_iphdr {
  saddr : Z;
  daddr : Z
}.

Record ipv6hdr := mk_ipv6hdr {
  saddr6 : in6_addr;
  daddr6 : in6_addr
}.

(** The two [uint16_t] a 32-bit word is read as, in memory order. *)
Definition halves (little_endian : bool) (x : Z) : list Z :=
  let lo := Z.land x 0xffff in
  let hi := Z.land (Z.shiftr x 16) 0xffff in
  if little_endian then [lo; hi] else [hi; lo].

Definition in6_words (little_endian : bool) (a : in6_addr) : list Z :=
  halves little_endian (s6_addr32_0 a) ++ halves little_endian (s6_addr32_1 a)
  ++ halves little_endian (s6_addr32_2 a) ++ halves little_endian (s6_addr32_3 a).

(** The words from [&ip4->saddr] up to [&ip4->saddr + 2], and from
    [&ip6->saddr] up to [&ip6->saddr + 2]: the source and the
    destination address. *)
Definition ip4_words (little_endian : bool) (ip4 : iphdr) : list Z :=
  halves little_endian (saddr ip4) ++ halves little_endian (daddr ip4).

Definition ip6_words (little_endian : bool) (ip6 : ipv6hdr) : list Z :=
  in6_words little_endian (saddr6 ip6) ++ in6_words little_endian (daddr6 ip6).

Definition adjust_checksum_ipv6_to_ipv4 (little_endian : bool) (sum : Z)
    (ip6 : ipv6hdr) (ip4 : iphdr) (udp : bool) : Z :=
  checksum_add (checksum_remove sum (ip6_words little_endian ip6) udp)
    (ip4_words little_endian ip4) udp.

(** [adjust_checksum_ipv4_to_ipv6] takes [udp] as an [int] and hands it
    on as a [bool]. *)
Definition adjust_checksum_ipv4_to_ipv6 (little_endian : bool) (sum : Z)
    (ip4 : iphdr) (ip6 : ipv6hdr) (udp : Z) : Z :=
  checksum_add
    (checksum_remove sum (ip4_words little_endian ip4) (int_to_bool udp))
    (ip6_words little_endian ip6) (int_to_bool udp).

(** A value a [uint16_t] holds. *)
Definition is_word (x : Z) : Prop := 0 ≤ x < 65536.

(** The sum of a list of words. *)
Definition word_sum (words : list Z) : Z := fold_right Z.add 0 words.

(** Two checksums that stand for the same one's complement sum. *)
Definition same_sum (a b : Z) : Prop := a mod 0xffff = b mod 0xffff.

(** *** Sample headers: 2001:db8::1 to 64:ff9b::c633:6402, translated
    to 198.51.100.1 to 198.51.100.2. *)
Definition sample_ip6 : ipv6hdr := mk_ipv6hdr host6 dest6.
Definition sample_ip4 : iphdr := mk_iphdr 0xc6336401 0xc6336402.

End Auxiliary.

(* ===================================================================== *)
(** ** Properties of mod/pool4.c *)
(* ===================================================================== *)

Module Pool4Facts.
Import Machine Pool4.

Ltac zmod := Z.div_mod_to_equations; lia.

Lemma u16_small x : 0 ≤ x < 65536 → u16 x = x.
Proof. intros H. unfold u16, wrap. apply Z.mod_small. lia. Qed.

Lemma u32_small x : 0 ≤ x < 4294967296 → u32 x = x.
Proof. intros H. unfold u32, wrap. apply Z.mod_small. lia. Qed.

(** [get_section] picks the section of the port's parity and range. *)
Lemma get_section_kind p :
  section_odd (get_section p) = port_odd p ∧
  section_low (get_section p) = port_low p.
Proof.
  unfold get_section, port_odd, port_low.
  destruct (p <? 1024); destruct (p mod 2 =? 0); auto.
Qed.

Lemma section_ref_kind r r' :
  section_odd r = section_odd r' → section_low r = section_low r' → r = r'.
Proof. destruct r, r'; simpl; congruence. Qed.

Lemma get_section_next r s :
  section_ok r s → next_port s ≤ max_port s → get_section (next_port s) = r.
Proof.
  intros [Hn Hm Hp Hr _] Hle.
  destruct (get_section_kind (next_port s)) as [Ho Hl].
  apply section_ref_kind; [rewrite Ho | rewrite Hl];
    unfold port_odd, port_low; destruct r; simpl in *;
    repeat match goal with
           | |- context [?a =? ?b] => destruct (Z.eqb_spec a b)
           | |- context [?a <? ?b] => destruct (Z.ltb_spec a b)
           end; simpl; try reflexivity; try lia.
Qed.

Lemma new_node_ok a : node_ok (new_node a).
Proof.
  intros r; destruct r; simpl; unfold init_section;
    constructor; simpl; try lia; try reflexivity; constructor.
Qed.

Lemma node_ok_section_set r s n :
  node_ok n → section_ok r s → node_ok (section_set r s n).
Proof.
  intros Hn Hs r'. specialize (Hn r').
  destruct r, r'; simpl in *; assumption.
Qed.

Lemma pools_ok_set r l p :
  pools_ok p → Forall node_ok l → pools_ok (pool_set r l p).
Proof.
  intros Hp Hl r'. specialize (Hp r').
  destruct r, r'; simpl in *; assumption.
Qed.

(** [extract_any_port] keeps a section well formed and only hands out
    ports of the section's own parity and range. *)
Lemma extract_any_port_ok r s m o s' m' :
  section_ok r s →
  extract_any_port s m = (o, s', m') →
  section_ok r s' ∧ (∀ p, o = Some p → get_section p = r).
Proof.
  intros Hok. unfold extract_any_port.
  destruct (free_ports s) as [|q rest] eqn:Hfree.
  - destruct (Z.gtb_spec (next_port s) (max_port s)) as [Hgt|Hle].
    + intros [= <- <- <-]. split; [assumption | discriminate].
    + intros [= <- <- <-].
      pose proof (get_section_next r s Hok Hle) as Hsec.
      destruct Hok as [Hn Hm Hp Hr Hf].
      rewrite u32_small by lia. split.
      * constructor; simpl; try lia.
        -- destruct (section_odd r); zmod.
        -- destruct (section_low r); lia.
        -- constructor.
      * intros p [= <-]. rewrite u16_small by lia. exact Hsec.
  - intros [= <- <- <-]. destruct Hok as [Hn Hm Hp Hr Hf].
    rewrite Hfree in Hf. apply Forall_cons in Hf as [Hq Hrest].
    split.
    + constructor; simpl; assumption.
    + intros p [= <-]. exact Hq.
Qed.

Lemma get_any_loop_ok host_port nodes m result nodes' m' :
  Forall node_ok nodes →
  get_any_loop host_port nodes m = Some (result, nodes', m') →
  Forall node_ok nodes' ∧ get_section (l4_id result) = get_section host_port.
Proof.
  revert nodes' m'. induction nodes as [|node rest IH]; intros nodes' m' Hok.
  - discriminate.
  - simpl. apply Forall_cons in Hok as [Hnode Hrest].
    destruct (extract_any_port (section_get (get_section host_port) node) m)
      as [[o s'] m1] eqn:Hex.
    destruct (extract_any_port_ok _ _ _ _ _ _ (Hnode _) Hex) as [Hs' Hp].
    destruct o as [p|].
    + intros [= <- <- <-]. split.
      * constructor; [apply node_ok_section_set|]; assumption.
      * simpl. apply Hp. reflexivity.
    + destruct (get_any_loop host_port rest m) as [[[r rest'] m2]|] eqn:Hrec;
        [|discriminate].
      intros [= <- <- <-].
      destruct (IH _ _ Hrest eq_refl) as [Hrest' Hsec].
      split; [constructor|]; assumption.
Qed.

Lemma get_pool_node_lookup pool a i node :
  get_pool_node pool a = Some (i, node) →
  pool !! i = Some node ∧ address node = a.
Proof.
  unfold get_pool_node. intros H. apply list_find_Some in H.
  destruct H as (Hl & Heq & _). split; [assumption|].
  unfold ipv4_addr_equals in Heq. lia.
Qed.

Lemma Forall_node_ok_insert (l : list pool_node) i n :
  Forall node_ok l → node_ok n → Forall node_ok (<[i := n]> l).
Proof. intros Hl Hn. apply Forall_insert; assumption. Qed.

Lemma Forall_node_ok_delete (l : list pool_node) i :
  Forall node_ok l → Forall node_ok (delete i l).
Proof. intros Hl. apply Forall_delete. assumption. Qed.

Lemma link_nodes_ok a p : pools_ok p → pools_ok (link_nodes a p).
Proof.
  intros Hp r. specialize (Hp r).
  destruct r; simpl in *; apply Forall_app;
    (split; [assumption | repeat constructor; apply new_node_ok]).
Qed.

Lemma remove_loop_ok a rs st deleted :
  pools_ok (pools st) → pools_ok (pools (remove_loop a rs st deleted).1).
Proof.
  revert st deleted. induction rs as [|r rs IH]; intros st deleted Hok.
  - exact Hok.
  - simpl. destruct (get_pool_node (pool_get r (pools st)) a) as [[i node]|].
    + simpl. apply IH. simpl. apply pools_ok_set; [assumption|].
      apply Forall_node_ok_delete, Hok.
    + apply IH, Hok.
Qed.

Lemma pool4_register_ok kmalloc_ok a st :
  pools_ok (pools st) → pools_ok (pools (pool4_register kmalloc_ok a st).2).
Proof.
  intros IH. unfold pool4_register. destruct a as [a|]; [|exact IH].
  destruct (alloc_nodes kmalloc_ok _ 0 (mem st)) as [[] m1]; simpl;
    [apply link_nodes_ok|]; assumption.
Qed.

Lemma pool4_destroy_ok st : pools_ok (pools (pool4_destroy st)).
Proof. intros r; destruct r; constructor. Qed.

Lemma load_defaults_from_ok kmalloc_ok defaults st :
  pools_ok (pools st) →
  pools_ok (pools (load_defaults_from kmalloc_ok defaults st).2).
Proof.
  revert st. induction defaults as [|[a|] rest IH]; intros st Hok;
    cbn [load_defaults_from].
  - exact Hok.
  - pose proof (pool4_register_ok kmalloc_ok (Some a) st Hok) as Hreg.
    destruct (pool4_register kmalloc_ok (Some a) st) as [rc st1].
    simpl in Hreg. destruct rc; first [apply IH, Hreg | apply pool4_destroy_ok].
  - apply pool4_destroy_ok.
Qed.

(** Every reachable state keeps each section within its own parity and
    range. *)
Lemma reachable_pools_ok kmalloc_ok POOL4_DEF little_endian st :
  reachable kmalloc_ok POOL4_DEF little_endian st → pools_ok (pools st).
Proof.
  induction 1 as [defaults m | st _ IH | a st _ IH | a st _ IH
                 | proto port st _ IH | proto a st _ IH | proto a st _ IH
                 | st _ IH].
  - assert (H0 : pools_ok (pools (mk_state (mk_pools [] [] []) m)))
      by (intros r; destruct r; constructor).
    unfold pool4_init, load_defaults. destruct defaults; [|exact H0].
    pose proof (load_defaults_from_ok kmalloc_ok POOL4_DEF _ H0) as Hl.
    destruct (load_defaults_from kmalloc_ok POOL4_DEF _) as [ok st1].
    destruct ok; exact Hl.
  - apply pool4_destroy_ok.
  - apply pool4_register_ok, IH.
  - unfold pool4_remove. destruct a as [a|]; [|exact IH].
    pose proof (remove_loop_ok a pool_array st 0 IH) as Hrm.
    destruct (remove_loop a pool_array st 0) as [st1 deleted].
    destruct (negb _ && negb _); exact Hrm.
  - unfold pool4_get_any. destruct (get_pool proto) as [r|]; [|exact IH].
    destruct (pool_get r (pools st)) as [|n0 l0] eqn:Hl; [exact IH|].
    destruct (get_any_loop _ (n0 :: l0) (mem st)) as [[[res nodes'] m']|] eqn:Hg;
      [|exact IH].
    simpl. apply pools_ok_set; [assumption|].
    eapply get_any_loop_ok; [|exact Hg]. rewrite <- Hl. apply IH.
  - unfold pool4_get_similar. destruct a as [a|]; [|exact IH].
    destruct (get_pool proto) as [r|]; [|exact IH].
    destruct (get_pool_node _ _) as [[i node]|] eqn:Hn; [|exact IH].
    destruct (extract_any_port _ (mem st)) as [[o s'] m'] eqn:Hex.
    apply get_pool_node_lookup in Hn as [Hl _].
    assert (Hnode : node_ok node).
    { eapply Forall_lookup_1; [apply (IH r)|exact Hl]. }
    destruct (extract_any_port_ok _ _ _ _ _ _ (Hnode _) Hex) as [Hs' _].
    destruct o; [|exact IH]. simpl.
    apply pools_ok_set; [assumption|].
    apply Forall_node_ok_insert; [apply IH|].
    apply node_ok_section_set; assumption.
  - unfold pool4_return. destruct a as [a|]; [|exact IH].
    destruct (get_pool proto) as [r|]; [|exact IH].
    destruct (get_pool_node _ _) as [[i node]|] eqn:Hn; [|exact IH].
    apply get_pool_node_lookup in Hn as [Hl _].
    assert (Hnode : node_ok node).
    { eapply Forall_lookup_1; [apply (IH r)|exact Hl]. }
    destruct (kmalloc kmalloc_ok (mem st)) as [[] m1]; [|exact IH]. simpl.
    apply pools_ok_set; [assumption|].
    apply Forall_node_ok_insert; [apply IH|].
    apply node_ok_section_set; [assumption|].
    destruct (Hnode (get_section (l4_id a))) as [Hn' Hm Hp Hr Hf].
    constructor; simpl; try assumption.
    apply Forall_app. split; [assumption|]. repeat constructor.
  - unfold pool4_to_array.
    destruct (kmalloc kmalloc_ok (mem st)) as [[] m1]; exact IH.
Qed.

(** C2. Whenever [pool4_get_any] succeeds in a reachable state of the
    pools, the port of the transport address it returns is odd exactly
    when the requested port (read in host byte order) is odd, and lies
    below 1024 exactly when the requested port does. *)
Theorem pool4_get_any_preserves_parity_range
    kmalloc_ok POOL4_DEF little_endian st l4protocol port result st' :
  reachable kmalloc_ok POOL4_DEF little_endian st →
  pool4_get_any little_endian l4protocol port st = (Some result, st') →
  port_odd (l4_id result) = port_odd (be16_to_cpu little_endian port) ∧
  port_low (l4_id result) = port_low (be16_to_cpu little_endian port).
Proof.
  intros Hreach Hget.
  pose proof (reachable_pools_ok _ _ _ _ Hreach) as Hok.
  unfold pool4_get_any in Hget.
  destruct (get_pool l4protocol) as [r|]; [|discriminate].
  destruct (pool_get r (pools st)) as [|n0 l0] eqn:Hl; [discriminate|].
  destruct (get_any_loop _ (n0 :: l0) (mem st)) as [[[res nodes'] m']|] eqn:Hg;
    [|discriminate].
  injection Hget as <- <-.
  assert (Hnodes : Forall node_ok (n0 :: l0)) by (rewrite <- Hl; apply Hok).
  destruct (get_any_loop_ok _ _ _ _ _ _ Hnodes Hg) as [_ Hsec].
  destruct (get_section_kind (l4_id res)) as [<- <-].
  destruct (get_section_kind (be16_to_cpu little_endian port)) as [<- <-].
  rewrite Hsec. split; reflexivity.
Qed.

(** C2, at 198.51.100.1 freshly registered: a request for port 40000
    (network order 0x409c on a little-endian host) is served with port
    1024, the first even port of the high range. *)
Lemma pool4_get_any_preserves_parity_range_witness :
  port_odd 1024 = port_odd (be16_to_cpu true 0x409c) ∧
  port_low 1024 = port_low (be16_to_cpu true 0x409c).
Proof.
  apply (pool4_get_any_preserves_parity_range always_ok [] true st_registered
           IPPROTO_UDP 0x409c (mk_tuple_addr addr_1 1024)
           (pool4_get_any true IPPROTO_UDP 0x409c st_registered).2).
  - apply reach_register, (reach_init always_ok [] true false).
  - vm_compute. reflexivity.
Defined.

(** The pool at work on 198.51.100.1: the first two requests for an
    even high port are served with 1024 and 1026; once 1024 has been
    returned, it is the next one handed out. *)
Example pool4_two_flows_then_reuse :
  let get st := pool4_get_any true IPPROTO_UDP 0x409c st in
  let st1 := (get st_registered).2 in
  let st2 := (get st1).2 in
  let st3 :=
    (pool4_return always_ok IPPROTO_UDP (Some (mk_tuple_addr addr_1 1024)) st2).2 in
  (get st_registered).1 = Some (mk_tuple_addr addr_1 1024) ∧
  (get st1).1 = Some (mk_tuple_addr addr_1 1026) ∧
  (get st3).1 = Some (mk_tuple_addr addr_1 1024) ∧
  section_at (get st3).2 PoolUdp 0 EvenHigh = Some (mk_section 1028 65534 []).
Proof. vm_compute. repeat split. Qed.

Lemma list_lookup_insert_same (l : list pool_node) i n n0 :
  l !! i = Some n0 → <[i := n]> l !! i = Some n.
Proof.
  intros H. apply list_lookup_insert_eq. eapply lookup_lt_Some, H.
Qed.

Lemma pool_get_set_eq r l p : pool_get r (pool_set r l p) = l.
Proof. destruct r; reflexivity. Qed.

Lemma pool_get_set_ne r r' l p :
  r' ≠ r → pool_get r' (pool_set r l p) = pool_get r' p.
Proof. destruct r, r'; simpl; congruence. Qed.

Lemma section_get_set_eq sr s n : section_get sr (section_set sr s n) = s.
Proof. destruct sr; reflexivity. Qed.

Lemma section_get_set_ne sr sr' s n :
  sr' ≠ sr → section_get sr' (section_set sr s n) = section_get sr' n.
Proof. destruct sr, sr'; simpl; congruence. Qed.

Lemma address_section_set sr s n : address (section_set sr s n) = address n.
Proof. destruct sr; reflexivity. Qed.

(** [pool4_return] leaves every [next_port] (and [max_port]) alone. *)
Lemma pool4_return_next_port kmalloc_ok proto a st r j sr :
  next_port <$> section_at (pool4_return kmalloc_ok proto a st).2 r j sr
  = next_port <$> section_at st r j sr.
Proof.
  unfold pool4_return. destruct a as [a|]; [|reflexivity].
  destruct (get_pool proto) as [r0|]; [|reflexivity].
  destruct (get_pool_node _ _) as [[i node]|] eqn:Hn; [|reflexivity].
  apply get_pool_node_lookup in Hn as [Hl _].
  destruct (kmalloc kmalloc_ok (mem st)) as [[] m1]; [|reflexivity].
  unfold section_at. simpl.
  destruct (decide (r = r0)) as [->|Hr].
  - rewrite pool_get_set_eq. destruct (decide (j = i)) as [->|Hj].
    + rewrite (list_lookup_insert_same _ _ _ _ Hl), Hl. simpl.
      destruct (decide (sr = get_section (l4_id a))) as [->|Hs].
      * rewrite section_get_set_eq. reflexivity.
      * rewrite section_get_set_ne by assumption. reflexivity.
    + rewrite list_lookup_insert_ne by congruence. reflexivity.
  - rewrite pool_get_set_ne by assumption. reflexivity.
Qed.

(** C5. [extract_any_port] takes the head of a non-empty [free_ports];
    with no free port it hands out [next_port] and moves it on by 2 as
    long as [next_port] has not passed [max_port], and fails after that.
    A successful [pool4_return] puts the port at the tail of
    [free_ports] of the section of the port's parity and range, in the
    first node of the protocol's pool that holds the address, and
    changes nothing else; it succeeds when the protocol has a pool, the
    pool has a node for the address and memory is found for the record,
    and otherwise leaves the pools as they are; no call of
    [pool4_return] changes a [next_port]. *)
Theorem port_extraction_and_recycling kmalloc_ok :
  (∀ s m p rest,
     free_ports s = p :: rest →
     extract_any_port s m
     = (Some p, mk_section (next_port s) (max_port s) rest, kfree m)) ∧
  (∀ s m,
     free_ports s = [] → 0 ≤ next_port s ≤ max_port s → max_port s ≤ 65535 →
     extract_any_port s m
     = (Some (next_port s), mk_section (next_port s + 2) (max_port s) [], m)) ∧
  (∀ s m,
     free_ports s = [] → max_port s < next_port s →
     extract_any_port s m = (None, s, m)) ∧
  (∀ proto a st st',
     pool4_return kmalloc_ok proto (Some a) st = (true, st') →
     ∃ r i node node',
       let sr := get_section (l4_id a) in
       get_pool proto = Some r ∧
       get_pool_node (pool_get r (pools st)) (ta_address a) = Some (i, node) ∧
       section_odd sr = port_odd (l4_id a) ∧
       section_low sr = port_low (l4_id a) ∧
       pool_get r (pools st') !! i = Some node' ∧
       address node' = address node ∧
       free_ports (section_get sr node')
       = free_ports (section_get sr node) ++ [l4_id a] ∧
       (∀ sr', sr' ≠ sr → section_get sr' node' = section_get sr' node) ∧
       (∀ j, j ≠ i → pool_get r (pools st') !! j = pool_get r (pools st) !! j) ∧
       (∀ r', r' ≠ r → pool_get r' (pools st') = pool_get r' (pools st))) ∧
  (∀ proto a st,
     (pool4_return kmalloc_ok proto (Some a) st).1
     = match get_pool proto with
       | Some r =>
           match get_pool_node (pool_get r (pools st)) (ta_address a) with
           | Some _ => kmalloc_ok (km_calls (mem st))
           | None => false
           end
       | None => false
       end) ∧
  (∀ proto a st st',
     pool4_return kmalloc_ok proto a st = (false, st') → pools st' = pools st) ∧
  (∀ proto a st r j sr,
     next_port <$> section_at (pool4_return kmalloc_ok proto a st).2 r j sr
     = next_port <$> section_at st r j sr).
Proof.
  repeat split.
  - intros s m p rest H. unfold extract_any_port. rewrite H. reflexivity.
  - intros s m H Hle Hmax. unfold extract_any_port. rewrite H.
    destruct (Z.gtb_spec (next_port s) (max_port s)); [lia|].
    rewrite u16_small, u32_small by lia. reflexivity.
  - intros s m H Hlt. unfold extract_any_port. rewrite H.
    destruct (Z.gtb_spec (next_port s) (max_port s)); [reflexivity|lia].
  - intros proto a st st'. unfold pool4_return.
    destruct (get_pool proto) as [r|]; [|discriminate].
    destruct (get_pool_node _ _) as [[i node]|] eqn:Hn; [|discriminate].
    destruct (kmalloc kmalloc_ok (mem st)) as [[] m1]; [|discriminate].
    intros [= <-]. simpl.
    destruct (get_pool_node_lookup _ _ _ _ Hn) as [Hl _].
    destruct (get_section_kind (l4_id a)) as [Ho Hlow].
    eexists r, i, node, _. rewrite pool_get_set_eq.
    split; [reflexivity|]. split; [exact Hn|].
    split; [exact Ho|]. split; [exact Hlow|].
    split; [apply (list_lookup_insert_same _ _ _ _ Hl)|].
    split; [apply address_section_set|].
    split; [rewrite section_get_set_eq; reflexivity|].
    split; [intros sr' Hsr; apply section_get_set_ne, Hsr|].
    split; [intros j Hj; apply list_lookup_insert_ne; congruence|].
    intros r' Hr'. apply pool_get_set_ne, Hr'.
  - intros proto a st. unfold pool4_return, kmalloc.
    destruct (get_pool proto) as [r|]; [|reflexivity].
    destruct (get_pool_node _ _) as [[i node]|]; [|reflexivity].
    destruct (kmalloc_ok (km_calls (mem st))); reflexivity.
  - intros proto a st st'. unfold pool4_return.
    destruct a as [a|]; [|intros [= <-]; reflexivity].
    destruct (get_pool proto) as [r|]; [|intros [= <-]; reflexivity].
    destruct (get_pool_node _ _) as [[i node]|]; [|intros [= <-]; reflexivity].
    destruct (kmalloc kmalloc_ok (mem st)) as [[] m1]; [discriminate|].
    intros [= <-]. reflexivity.
  - apply pool4_return_next_port.
Qed.

(** C5, on a section with two returned ports, on a fresh high even
    section and on an exhausted low odd one. *)
Lemma port_extraction_and_recycling_witness :
  extract_any_port (mk_section 1030 65534 [1026; 1024]) (mk_kmem 9 5)
  = (Some 1026, mk_section 1030 65534 [1024], kfree (mk_kmem 9 5)) ∧
  extract_any_port (mk_section 1024 65534 []) (mk_kmem 3 3)
  = (Some 1024, mk_section (1024 + 2) 65534 [], mk_kmem 3 3) ∧
  extract_any_port (mk_section 1025 1023 []) (mk_kmem 3 3)
  = (None, mk_section 1025 1023 [], mk_kmem 3 3).
Proof.
  destruct (port_extraction_and_recycling always_ok) as (H1 & H2 & H3 & _).
  split; [|split].
  - apply H1. reflexivity.
  - apply H2; simpl; [reflexivity | lia | lia].
  - apply H3; simpl; [reflexivity | lia].
Defined.

(** C6. [pool4_register] of an address either finds memory for all
    three nodes, and then appends a node with the four initial sections
    to the TCP, UDP and ICMP lists and reports success, or meets a
    failing [kmalloc], and then reports [RESPONSE_ALLOC_FAILED] with the
    three lists as they were and every node it had allocated freed. *)
Theorem pool4_register_all_or_nothing kmalloc_ok a st :
  let k := km_calls (mem st) in
  let out := pool4_register kmalloc_ok (Some a) st in
  if kmalloc_ok k && kmalloc_ok (S k) && kmalloc_ok (S (S k))
  then out.1 = RESPONSE_SUCCESS ∧
       (∀ r, pool_get r (pools out.2)
             = pool_get r (pools st)
               ++ [mk_node a (mk_section 1 1023 []) (mk_section 0 1022 [])
                     (mk_section 1025 65535 []) (mk_section 1024 65534 [])]) ∧
       km_live (mem out.2) = km_live (mem st) + 3
  else out.1 = RESPONSE_ALLOC_FAILED ∧
       pools out.2 = pools st ∧
       km_live (mem out.2) = km_live (mem st).
Proof.
  unfold pool4_register, pool_array. simpl. unfold kmalloc. simpl.
  destruct (kmalloc_ok (km_calls (mem st))); simpl;
    [destruct (kmalloc_ok (S (km_calls (mem st)))); simpl;
     [destruct (kmalloc_ok (S (S (km_calls (mem st))))); simpl|]|].
  - split; [reflexivity|]. split; [|lia].
    intros r; destruct r; reflexivity.
  - repeat split; lia.
  - repeat split; lia.
  - repeat split.
Qed.

Lemma holds_node_cases a (l : list pool_node) :
  (get_pool_node l a = None ∧ holds_node a l = 0 ∧ without_node a l = l) ∨
  (∃ i n, get_pool_node l a = Some (i, n) ∧ holds_node a l = 1 ∧
          without_node a l = delete i l).
Proof.
  unfold holds_node, without_node.
  destruct (get_pool_node l a) as [[i n]|]; [right|left]; eauto.
Qed.

(** C8 as the code has it. [pool4_remove] unlinks, in each of the three
    pools, the first node that holds the address, when there is one. It
    answers [RESPONSE_NOT_FOUND] exactly when the address was in one or
    two of the pools, and [RESPONSE_SUCCESS] when it was in all three or
    in none. *)
Theorem pool4_remove_result a st :
  let out := pool4_remove (Some a) st in
  let n := pools_holding a (pools st) in
  out.1 = (if (0 <? n) && (n <? 3) then RESPONSE_NOT_FOUND
           else RESPONSE_SUCCESS) ∧
  ∀ r, pool_get r (pools out.2) = without_node a (pool_get r (pools st)).
Proof.
  unfold pool4_remove, pool_array, pools_holding. simpl.
  destruct st as [[u t c] m]. simpl.
  destruct (holds_node_cases a t)
    as [(Ht & Hht & Hwt)|(it & nt & Ht & Hht & Hwt)];
    destruct (holds_node_cases a u)
      as [(Hu & Hhu & Hwu)|(iu & nu & Hu & Hhu & Hwu)];
    destruct (holds_node_cases a c)
      as [(Hc & Hhc & Hwc)|(ic & nc & Hc & Hhc & Hwc)];
    rewrite Hht, Hhu, Hhc, Ht; simpl; rewrite Hu; simpl; rewrite Hc; simpl;
    (split; [reflexivity | intros r; destruct r; simpl; congruence]).
Qed.

(** C8 as stated fails: 198.51.100.2 is in none of the three pools of
    the state that holds only 198.51.100.1, and its removal is answered
    with [RESPONSE_SUCCESS], not [RESPONSE_NOT_FOUND]. *)
Lemma pool4_remove_absent_address_succeeds :
  (∀ r, get_pool_node (pool_get r (pools st_registered)) addr_2 = None) ∧
  (pool4_remove (Some addr_2) st_registered).1 = RESPONSE_SUCCESS ∧
  (pool4_remove (Some addr_2) st_registered).1 ≠ RESPONSE_NOT_FOUND.
Proof.
  split; [intros r; destruct r; reflexivity|].
  split; [reflexivity | discriminate].
Qed.

(** C10. [pool4_contains] answers [true] exactly when the UDP list has a
    node for the address; the TCP and ICMP lists have no part in the
    answer, so an address that only they hold is reported absent. *)
Theorem pool4_contains_reads_udp_only a st :
  (pool4_contains a st = true ↔ ∃ node, node ∈ udp (pools st) ∧ address node = a) ∧
  (∀ tcp' icmp' m',
     pool4_contains a (mk_state (mk_pools (udp (pools st)) tcp' icmp') m')
     = pool4_contains a st) ∧
  ((∀ node, node ∈ udp (pools st) → address node ≠ a) →
   pool4_contains a st = false).
Proof.
  assert (Hiff : pool4_contains a st = true
                 ↔ ∃ node, node ∈ udp (pools st) ∧ address node = a).
  { unfold pool4_contains.
    destruct (get_pool_node (udp (pools st)) a) as [[i n]|] eqn:Hn.
    - apply get_pool_node_lookup in Hn as [Hl Ha]. split; [|reflexivity].
      intros _. exists n. split; [|assumption].
      eapply list_elem_of_lookup_2, Hl.
    - split; [discriminate|]. intros (n & Hin & Ha).
      unfold get_pool_node in Hn. rewrite list_find_None in Hn.
      rewrite Forall_forall in Hn. specialize (Hn n Hin).
      unfold ipv4_addr_equals in Hn. lia. }
  split; [exact Hiff|]. split; [reflexivity|].
  intros Hno. apply not_true_is_false. intros Hc.
  apply Hiff in Hc as (n & Hin & Ha). destruct (Hno n Hin Ha).
Qed.

(** C10, on a state whose TCP and ICMP lists hold 198.51.100.1 and
    whose UDP list is empty. *)
Lemma pool4_contains_reads_udp_only_witness :
  get_pool_node (tcp (pools st_no_udp)) addr_1 ≠ None ∧
  get_pool_node (icmp (pools st_no_udp)) addr_1 ≠ None ∧
  pool4_contains addr_1 st_no_udp = false.
Proof.
  split; [discriminate|]. split; [discriminate|].
  apply (proj2 (proj2 (pool4_contains_reads_udp_only addr_1 st_no_udp))).
  intros node Hin. simpl in Hin. apply elem_of_nil in Hin. destruct Hin.
Defined.

End Pool4Facts.

(* ===================================================================== *)
(** ** Properties of include/nf_nat64_filtering_and_updating.h *)
(* ===================================================================== *)

Module FilteringFacts.
Import Machine Filtering.

Lemma world_eta w :
  mk_world (jiffies w) (expiry_base w) (st_cache w) (bib_cache w) (hash6 w)
           (hash4 w) (free_udp_transport_addr w) (pool4 w) = w.
Proof. destruct w; reflexivity. Qed.

Lemma sint_small x : - 2 ^ 31 ≤ x < 2 ^ 31 → sint x = x.
Proof.
  intros Hx. unfold sint, u32, wrap. cbv zeta.
  destruct (Z.ltb_spec (x mod 2 ^ 32) (2 ^ 31));
    Z.div_mod_to_equations; lia.
Qed.

Lemma set_state_id se : set_state (state se) se = se.
Proof. destruct se; reflexivity. Qed.

Lemma session_renew_eq HZ s se ty w :
  st_cache w !! s = Some se →
  session_renew HZ s ty w
  = Some (with_expiry_base (enqueue_tail s ty (dequeue s (expiry_base w)))
            (with_st_cache
               (<[s := set_expires
                         (ulong (jiffies w
                                 + sint (timeout (expiry_base w ty) * HZ)))
                         se]> (st_cache w)) w)).
Proof. intros H. unfold session_renew. rewrite H. reflexivity. Qed.

Lemma store_state_eq s se x w :
  st_cache w !! s = Some se →
  store_state s x w
  = Some (with_st_cache (<[s := set_state x se]> (st_cache w)) w).
Proof. intros H. unfold store_state. rewrite H. reflexivity. Qed.

Lemma renew_then_store HZ s se ty x w :
  st_cache w !! s = Some se →
  (session_renew HZ s ty w ≫= store_state s x)
  = Some (after_transition HZ s se (x, Some ty) w).
Proof.
  intros H. rewrite (session_renew_eq _ _ _ _ _ H). simpl.
  erewrite store_state_eq by (simpl; apply lookup_insert_eq).
  unfold after_transition, with_expiry_base, with_st_cache. simpl.
  rewrite insert_insert_eq. reflexivity.
Qed.

Lemma renew_only HZ s se ty w :
  st_cache w !! s = Some se →
  session_renew HZ s ty w
  = Some (after_transition HZ s se (state se, Some ty) w).
Proof.
  intros H. rewrite (session_renew_eq _ _ _ _ _ H).
  unfold after_transition. simpl. destruct se; reflexivity.
Qed.

Lemma store_only HZ s se x w :
  st_cache w !! s = Some se →
  store_state s x w = Some (after_transition HZ s se (x, None) w).
Proof.
  intros H. rewrite (store_state_eq _ _ _ _ H).
  unfold after_transition, with_expiry_base, with_st_cache. simpl.
  reflexivity.
Qed.

Lemma nothing_done HZ s se w :
  st_cache w !! s = Some se →
  Some w = Some (after_transition HZ s se (state se, None) w).
Proof.
  intros H. unfold after_transition, with_expiry_base, with_st_cache. simpl.
  rewrite set_state_id, (insert_id _ _ _ H), world_eta. reflexivity.
Qed.

(** C1. For a session in any of the eight states and a segment with any
    SYN, FIN and RST flags, [tcp6_fsm] (segments from the IPv6 side) and
    [tcp4_fsm] (segments from the IPv4 side) leave the session in the
    state the transition table gives, renewed on the queue the table
    gives when it gives one (at its tail, with the deadline [jiffies]
    plus the [int] product of that queue's timeout and [HZ]) and
    otherwise left in its queue with its deadline. *)
Theorem tcp_fsm_realizes_transition_table HZ d s se h w :
  st_cache w !! s = Some se →
  tcp_fsm HZ d s h w
  = Some (after_transition HZ s se (spec_transition d (state se) h) w).
Proof.
  intros H.
  destruct d; unfold tcp_fsm, tcp6_fsm, tcp4_fsm; rewrite H; simpl;
    destruct (state se) eqn:Hst; destruct h as [[] [] []]; simpl;
    rewrite <- ?Hst;
    first [ apply (renew_then_store _ _ _ _ _ _ H)
          | apply (store_only _ _ _ _ _ H)
          | apply (nothing_done _ _ _ _ H)
          | rewrite Hst; rewrite <- Hst at 2; apply (renew_only _ _ _ _ _ H)
          | apply (renew_only _ _ _ _ _ H) ].
Qed.

(** C1, on the sample connection: the SYN of the IPv4 side finds the
    session in V6_SYN_RCV. *)
Lemma tcp_fsm_realizes_transition_table_witness :
  st_cache w_tcp_syn6 !! 2%positive = Some se_tcp_syn6 ∧
  tcp_fsm sample_HZ FromV4 2%positive SYN w_tcp_syn6
  = Some (after_transition sample_HZ 2%positive se_tcp_syn6
            (spec_transition FromV4 (state se_tcp_syn6) SYN) w_tcp_syn6).
Proof.
  assert (H : st_cache w_tcp_syn6 !! 2%positive = Some se_tcp_syn6)
    by (vm_compute; reflexivity).
  split; [exact H|].
  apply (tcp_fsm_realizes_transition_table sample_HZ FromV4 2%positive
           se_tcp_syn6 SYN w_tcp_syn6 H).
Defined.

Lemma unlink_not_in x l : x ∉ unlink x l.
Proof.
  unfold unlink. rewrite list_elem_of_filter. intros [H _]. congruence.
Qed.

Lemma unlink_single x : unlink x [x] = [].
Proof.
  unfold unlink. rewrite filter_cons_False by congruence. reflexivity.
Qed.

Lemma tcp_timeout_fsm_no_grace HZ s se w :
  st_cache w !! s = Some se → state se ≠ ESTABLISHED →
  tcp_timeout_fsm HZ s w = Some (0, w).
Proof.
  intros H Hst. unfold tcp_timeout_fsm. rewrite H. simpl.
  destruct (decide (state se = ESTABLISHED)); [contradiction|reflexivity].
Qed.

Lemma tcp_timeout_fsm_grace HZ s se w :
  st_cache w !! s = Some se → state se = ESTABLISHED →
  tcp_timeout_fsm HZ s w
  = Some (1, after_transition HZ s se (FOUR_MIN, Some TCP_TRANS) w).
Proof.
  intros H Hst. unfold tcp_timeout_fsm. rewrite H. simpl.
  destruct (decide (state se = ESTABLISHED)); [|contradiction].
  pose proof (renew_then_store HZ s se TCP_TRANS FOUR_MIN w H) as Hr.
  destruct (session_renew HZ s TCP_TRANS w) as [w1|]; simpl in *;
    [|discriminate].
  rewrite Hr. reflexivity.
Qed.

(** The world the reaper leaves when it frees the session [s] of the
    BIB entry [b]. *)
Lemma clean_session_frees HZ s se b w :
  st_cache w !! s = Some se →
  time_after (jiffies w) (expires se) = true →
  state se ≠ ESTABLISHED →
  bib_cache w !! ring se = Some b →
  ∃ w', clean_session HZ s w = Some (Continue, w') ∧
        st_cache w' = delete s (st_cache w) ∧
        (∀ q, queue (expiry_base w' q) = unlink s (queue (expiry_base w q))) ∧
        bib_cache w'
        = match unlink s (sessions b) with
          | [] => delete (ring se) (bib_cache w)
          | _ :: _ =>
              <[ring se := set_sessions (unlink s (sessions b)) b]> (bib_cache w)
          end.
Proof.
  intros H Hexp Hst Hb. unfold clean_session. rewrite H. simpl.
  rewrite Hexp, (tcp_timeout_fsm_no_grace _ _ _ _ H Hst). simpl.
  rewrite Hb. simpl. eexists. split; [reflexivity|].
  destruct (unlink s (sessions b)); simpl; repeat split.
Qed.






(** C7 as the code has it. When the BIB entry has been allocated and
    linked into both hash tables and the allocation of the session
    fails, [bib_session_create] and [bib_session_create_tcp] free the
    entry and answer [NULL]; the allocated sessions, the allocated BIB
    entries and the expiry queues are as before the call; the list of
    free transport addresses stays as the draw left it and pool4 as it
    was: the drawn transport address is not given back. *)
Theorem bib_session_create_session_failure
    HZ get_tranport_addr little_endian b saddr in6_daddr daddr sport dport
    protocol ty w :
  bib_cache w !! b = None →
  ∃ w', bib_session_create HZ get_tranport_addr little_endian (Some b) None
          saddr in6_daddr daddr sport dport protocol ty w = Some (None, w') ∧
        bib_session_create_tcp HZ get_tranport_addr little_endian (Some b) None
          saddr in6_daddr daddr sport dport protocol ty w = Some (None, w') ∧
        bib_cache w' = bib_cache w ∧
        st_cache w' = st_cache w ∧
        (∀ q, expiry_base w' q = expiry_base w q) ∧
        free_udp_transport_addr w'
        = (get_tranport_addr (free_udp_transport_addr w)).2 ∧
        pool4 w' = pool4 w.
Proof.
  intros Hfresh. unfold bib_session_create_tcp, bib_session_create.
  destruct (get_tranport_addr (free_udp_transport_addr w)) as [ta free'].
  set (lp := match ta with
             | Some ta0 => (u16 (ntohs little_endian (port ta0)), address ta0)
             | None => (u16 (-1), u32 (-1))
             end).
  destruct lp as [local4_port' local4_addr'] eqn:Hlp.
  assert (Hnn : (local4_port' <? 0) = false).
  { apply Z.ltb_ge. unfold lp in Hlp.
    destruct ta; injection Hlp as <- _; unfold u16, wrap;
      apply Z.mod_pos_bound; reflexivity. }
  rewrite Hnn. simpl.
  eexists. split; [reflexivity|]. split; [reflexivity|]. simpl.
  split; [apply delete_insert_id, Hfresh|]. repeat split.
Qed.

(** C7, for a UDP packet in the sample start-up world: no BIB entry is
    allocated at address 1 there. *)
Lemma bib_session_create_session_failure_witness :
  ∃ w', bib_session_create sample_HZ take_first_transport_addr true
          (Some 1%positive) None host6 dest6 0xc6336402 40000 53 17
          UDP_DEFAULT w_boot = Some (None, w') ∧
        bib_session_create_tcp sample_HZ take_first_transport_addr true
          (Some 1%positive) None host6 dest6 0xc6336402 40000 53 17
          UDP_DEFAULT w_boot = Some (None, w') ∧
        bib_cache w' = bib_cache w_boot ∧
        st_cache w' = st_cache w_boot ∧
        (∀ q, expiry_base w' q = expiry_base w_boot q) ∧
        free_udp_transport_addr w'
        = (take_first_transport_addr (free_udp_transport_addr w_boot)).2 ∧
        pool4 w' = pool4 w_boot.
Proof.
  apply (bib_session_create_session_failure sample_HZ
           take_first_transport_addr true 1%positive host6 dest6 0xc6336402
           40000 53 17 UDP_DEFAULT w_boot).
  reflexivity.
Defined.

(** C7 as stated fails. In the sample start-up world, with memory for
    the BIB entry at address 1 and none for the session, the call
    answers [NULL] and frees the entry, but the chains of [hash6] and
    [hash4] that were empty now hold the freed entry (the next lookup
    on that chain reads freed memory), and the transport address taken
    from the free list is not on it again. *)
Lemma bib_session_create_leaves_freed_bib_linked :
  ∃ w', bib_session_create sample_HZ take_first_transport_addr true
          (Some 1%positive) None host6 dest6 0xc6336402 40000 53 17
          UDP_DEFAULT w_boot = Some (None, w') ∧
        bib_cache w' !! 1%positive = None ∧
        hash6 w_boot (nat64_hash6 host6 40000) = [] ∧
        hash6 w' (nat64_hash6 host6 40000) = [1%positive] ∧
        hash4 w_boot 1024 = [] ∧
        hash4 w' 1024 = [1%positive] ∧
        bib_ipv4_lookup Pool4.addr_1 1024 17 w' = None ∧
        free_udp_transport_addr w_boot = [mk_transport_addr Pool4.addr_1 4] ∧
        free_udp_transport_addr w' = [].
Proof.
  eexists. split; [vm_compute; reflexivity|].
  repeat split; vm_compute; reflexivity.
Qed.

(** *** The sample connection, step by step *)

(** The SYN of the IPv6 side puts the new session in V6_SYN_RCV on the
    TCP_TRANS queue; the SYN of the IPv4 side puts it in ESTABLISHED on
    the TCP_EST queue. *)
Example three_way_handshake :
  state <$> (st_cache w_tcp_syn6 !! 2%positive) = Some V6_SYN_RCV ∧
  queue (expiry_base w_tcp_syn6 TCP_TRANS) = [2%positive] ∧
  state <$> (st_cache w_tcp_established !! 2%positive) = Some ESTABLISHED ∧
  queue (expiry_base w_tcp_established TCP_TRANS) = [] ∧
  queue (expiry_base w_tcp_established TCP_EST) = [2%positive].
Proof. vm_compute. repeat split. Qed.

(** The idle connection meets the reaper twice: the first walk, over
    the TCP_EST queue, moves the session to FOUR_MIN on the TCP_TRANS
    queue; the second, over the TCP_TRANS queue once that timeout has
    passed too, frees the session and the BIB entry. *)
Example reaper_grace_then_free :
  ∃ w1 w2,
    clean_expired_sessions sample_HZ 2 TCP_EST w_tcp_idle = Some w1 ∧
    state <$> (st_cache w1 !! 2%positive) = Some FOUR_MIN ∧
    queue (expiry_base w1 TCP_EST) = [] ∧
    queue (expiry_base w1 TCP_TRANS) = [2%positive] ∧
    clean_expired_sessions_tcp sample_HZ 2 TCP_TRANS
      (with_jiffies (jiffies w1 + sample_timeout TCP_TRANS * sample_HZ + 1) w1)
    = Some w2 ∧
    st_cache w2 = ∅ ∧
    bib_cache w2 = ∅ ∧
    queue (expiry_base w2 TCP_TRANS) = [].
Proof.
  eexists _, _. split; [vm_compute; reflexivity|].
  repeat split; vm_compute; reflexivity.
Qed.

(** *** The walk of the reaper ends *)

Lemma unlink_notin x l : x ∉ l → unlink x l = l.
Proof.
  unfold unlink. induction l as [|y l IH]; intros Hx; [reflexivity|].
  apply not_elem_of_cons in Hx as [Hxy Hl].
  rewrite filter_cons_True by congruence. rewrite IH by assumption.
  reflexivity.
Qed.

Lemma unlink_middle s pre rest :
  NoDup (pre ++ s :: rest) → unlink s (pre ++ s :: rest) = pre ++ rest.
Proof.
  intros Hnd. apply NoDup_app in Hnd as (_ & Hpre & Hrest).
  apply NoDup_cons in Hrest as [Hs _].
  unfold unlink. rewrite filter_app, filter_cons_False by congruence.
  fold (unlink s pre) (unlink s rest).
  rewrite !unlink_notin; [reflexivity|assumption|].
  intros Hin. apply (Hpre s Hin). left.
Qed.

Lemma list_next_middle s pre rest :
  s ∉ pre → list_next s (pre ++ s :: rest) = head rest.
Proof.
  induction pre as [|y pre IH]; intros Hs; simpl.
  - destruct (decide (s = s)); [reflexivity|congruence].
  - apply not_elem_of_cons in Hs as [Hsy Hpre].
    destruct (decide (y = s)); [congruence|]. apply IH, Hpre.
Qed.

Lemma NoDup_drop_middle (s : ptr) pre rest :
  NoDup (pre ++ s :: rest) → NoDup (pre ++ rest).
Proof.
  intros Hnd. apply NoDup_app in Hnd as (Hpre & Hdisj & Hrest).
  apply NoDup_cons in Hrest as [_ Hrest].
  apply NoDup_app. split; [assumption|]. split; [|assumption].
  intros x Hx Hin. apply (Hdisj x Hx). right. exact Hin.
Qed.

Lemma NoDup_move_to_tail (s : ptr) pre rest :
  NoDup (pre ++ s :: rest) → NoDup (pre ++ rest ++ [s]).
Proof.
  intros Hnd. apply NoDup_app in Hnd as (Hpre & Hdisj & Hrest).
  apply NoDup_cons in Hrest as [Hs Hrest].
  apply NoDup_app. split; [assumption|]. split.
  - intros x Hx Hin. apply (Hdisj x Hx).
    apply elem_of_app in Hin as [Hin|Hin]; [right; exact Hin|].
    apply list_elem_of_singleton in Hin as ->. left.
  - apply NoDup_app. split; [assumption|]. split; [|apply NoDup_singleton].
    intros x Hx Hin. apply list_elem_of_singleton in Hin as ->. contradiction.
Qed.

Lemma clean_loop_at_head HZ fuel q w : clean_loop HZ fuel q None w = Some w.
Proof. destruct fuel; reflexivity. Qed.

(** Elsewhere than at [s], the count of sessions yet to be renewed only
    looks at the sessions themselves. *)
Lemma established_count_ext (m m' : gmap ptr nat64_st_entry) l :
  (∀ x, x ∈ l → m' !! x = m !! x) →
  length (filter (is_established m') l) = length (filter (is_established m) l).
Proof.
  induction l as [|y l IH]; intros Hext; [reflexivity|].
  assert (Hy : m' !! y = m !! y) by (apply Hext; left).
  assert (Hl : ∀ x, x ∈ l → m' !! x = m !! x)
    by (intros x Hx; apply Hext; right; exact Hx).
  rewrite !filter_cons.
  destruct (decide (is_established m' y)) as [He'|He'];
    destruct (decide (is_established m y)) as [He|He]; simpl;
    rewrite ?(IH Hl); try reflexivity; exfalso.
  - apply He. unfold is_established in *. rewrite <- Hy. exact He'.
  - apply He'. unfold is_established in *. rewrite Hy. exact He.
Qed.

(** A renewed session stays in order, and so does every other one. *)
Lemma session_ok_after_grace HZ s se tr w s' :
  st_cache w !! s = Some se →
  session_ok w s' →
  session_ok (after_transition HZ s se tr w) s'.
Proof.
  intros H (se' & b & Hse' & Hb & Hin). unfold session_ok, after_transition.
  simpl. destruct (decide (s' = s)) as [->|Hne].
  - rewrite lookup_insert_eq. rewrite H in Hse'. injection Hse' as <-.
    eexists _, b. split; [reflexivity|]. split; [|exact Hin].
    destruct (tr.2); simpl; exact Hb.
  - rewrite lookup_insert_ne by congruence. exists se', b. auto.
Qed.

Lemma session_ok_after_free s se b w w' s' :
  st_cache w !! s = Some se →
  bib_cache w !! ring se = Some b →
  st_cache w' = delete s (st_cache w) →
  bib_cache w'
  = match unlink s (sessions b) with
    | [] => delete (ring se) (bib_cache w)
    | _ :: _ =>
        <[ring se := set_sessions (unlink s (sessions b)) b]> (bib_cache w)
    end →
  s' ≠ s → session_ok w s' → session_ok w' s'.
Proof.
  intros H Hb Hst Hbib Hne (se' & b' & Hse' & Hb' & Hin).
  unfold session_ok. rewrite Hst, Hbib, lookup_delete_ne by congruence.
  exists se'.
  assert (Hkeep : ring se' = ring se → s' ∈ unlink s (sessions b)).
  { intros Heq. rewrite Heq, Hb in Hb'. injection Hb' as <-.
    unfold unlink. apply list_elem_of_filter. split; assumption. }
  destruct (decide (ring se' = ring se)) as [Heq|Hr].
  - specialize (Hkeep Heq). rewrite Heq.
    destruct (unlink s (sessions b)) as [|x l] eqn:Hrest.
    + apply elem_of_nil in Hkeep. destruct Hkeep.
    + rewrite lookup_insert_eq. eexists. split; [exact Hse'|].
      split; [reflexivity|]. exact Hkeep.
  - exists b'. split; [exact Hse'|]. split; [|exact Hin].
    destruct (unlink s (sessions b));
      [rewrite lookup_delete_ne | rewrite lookup_insert_ne]; congruence.
Qed.

Lemma clean_loop_returns HZ q fuel :
  ∀ w pre rem,
    queue (expiry_base w q) = pre ++ rem →
    NoDup (pre ++ rem) →
    (∀ s, s ∈ rem → session_ok w s) →
    (reaper_measure (st_cache w) rem ≤ fuel)%nat →
    is_Some (clean_loop HZ fuel q (head rem) w).
Proof.
  unfold reaper_measure.
  induction fuel as [|fuel IH]; intros w pre rem Hq Hnd Hok Hfuel.
  - destruct rem; [eexists; reflexivity | simpl in Hfuel; lia].
  - destruct rem as [|s rest]; [eexists; reflexivity|].
    assert (Hspre : s ∉ pre).
    { apply NoDup_app in Hnd as (_ & Hd & _). intros Hin.
      apply (Hd s Hin). left. }
    assert (Hsrest : s ∉ rest).
    { apply NoDup_app in Hnd as (_ & _ & Hr).
      apply NoDup_cons in Hr as [Hr _]. exact Hr. }
    destruct (Hok s) as (se & b & Hse & Hb & Hin); [left|].
    cbn [head clean_loop]. rewrite Hq, (list_next_middle _ _ _ Hspre).
    assert (Hrest_ok : ∀ x, x ∈ rest → session_ok w x)
      by (intros x Hx; apply Hok; right; exact Hx).
    assert (Hne : ∀ x, x ∈ rest → x ≠ s) by (intros x Hx ->; contradiction).
    destruct (time_after (jiffies w) (expires se)) eqn:Hexp.
    + destruct (decide (state se = ESTABLISHED)) as [Hst|Hst].
      * (* a grace period *)
        unfold clean_session. rewrite Hse. simpl. rewrite Hexp.
        rewrite (tcp_timeout_fsm_grace _ _ _ _ Hse Hst). simpl.
        set (w1 := after_transition HZ s se (FOUR_MIN, Some TCP_TRANS) w).
        assert (Hst1 : st_cache w1
                       = <[s := set_state FOUR_MIN
                                  (set_expires
                                     (ulong (jiffies w
                                             + sint
                                                 (timeout
                                                    (expiry_base w TCP_TRANS)
                                                  * HZ))) se)]> (st_cache w))
          by reflexivity.
        assert (Hcount : ∀ l, s ∉ l →
                  length (filter (is_established (st_cache w1)) l)
                  = length (filter (is_established (st_cache w)) l)).
        { intros l Hl. apply established_count_ext. intros x Hx.
          rewrite Hst1, lookup_insert_ne; [reflexivity|].
          intros ->. contradiction. }
        assert (Hfilter : length (filter (is_established (st_cache w)) (s :: rest))
                          = S (length (filter (is_established (st_cache w)) rest))).
        { rewrite filter_cons_True; [reflexivity|]. exists se. auto. }
        rewrite Hfilter in Hfuel. simpl in Hfuel.
        destruct (decide (q = TCP_TRANS)) as [->|Hq'].
        -- destruct rest as [|r rest']; [rewrite clean_loop_at_head; eexists; reflexivity|].
           change (head (r :: rest')) with (head ((r :: rest') ++ [s])).
           remember (r :: rest') as rest2 eqn:Hrest2. clear Hrest2.
           apply (IH w1 pre).
           ++ unfold w1, after_transition, enqueue_tail, dequeue. simpl.
              destruct (decide (TCP_TRANS = TCP_TRANS)); [|congruence]. simpl.
              rewrite Hq, (unlink_middle _ _ _ Hnd), <- app_assoc. reflexivity.
           ++ apply NoDup_move_to_tail, Hnd.
           ++ intros x Hx. apply session_ok_after_grace; [exact Hse|].
              apply Hok. apply elem_of_app in Hx as [Hx|Hx]; [right; exact Hx|].
              apply list_elem_of_singleton in Hx as ->. left.
           ++ rewrite filter_app, !length_app, (Hcount _ Hsrest).
              rewrite filter_cons_False.
              ** rewrite filter_nil. simpl. lia.
              ** intros (se1 & Hl & Hs1). rewrite Hst1, lookup_insert_eq in Hl.
                 injection Hl as <-. discriminate.
        -- apply (IH w1 pre rest).
           ++ unfold w1, after_transition, enqueue_tail, dequeue. simpl.
              destruct (decide (q = TCP_TRANS)); [contradiction|]. simpl.
              rewrite Hq. apply unlink_middle, Hnd.
           ++ eapply NoDup_drop_middle, Hnd.
           ++ intros x Hx. apply session_ok_after_grace; [exact Hse|].
              apply Hrest_ok, Hx.
           ++ rewrite (Hcount _ Hsrest). lia.
      * (* the session is freed *)
        destruct (clean_session_frees HZ _ _ _ _ Hse Hexp Hst Hb)
          as (w' & -> & Hst' & Hq' & Hbib'). simpl.
        apply (IH w' pre rest).
        -- rewrite Hq', Hq. apply unlink_middle, Hnd.
        -- eapply NoDup_drop_middle, Hnd.
        -- intros x Hx.
           apply (session_ok_after_free s se b w w' x Hse Hb Hst' Hbib');
             [apply Hne, Hx | apply Hrest_ok, Hx].
        -- rewrite Hst'.
           rewrite (established_count_ext (st_cache w)).
           ++ simpl in Hfuel.
              pose proof (length_filter (is_established (st_cache w)) rest).
              rewrite filter_cons in Hfuel.
              destruct (decide (is_established (st_cache w) s));
                simpl in Hfuel; lia.
           ++ intros x Hx. apply lookup_delete_ne. intros ->. contradiction.
    + unfold clean_session. rewrite Hse. simpl. rewrite Hexp. simpl.
      eexists; reflexivity.
Qed.

(** On a queue that is in order, two iterations per session are enough
    for [clean_expired_sessions] to return. *)
Lemma clean_expired_sessions_returns HZ q w :
  queue_wf q w →
  is_Some (clean_expired_sessions HZ (2 * length (queue (expiry_base w q))) q w).
Proof.
  intros [Hnd Hok]. unfold clean_expired_sessions.
  apply (clean_loop_returns HZ q _ w [] (queue (expiry_base w q)));
    try assumption; try reflexivity.
  unfold reaper_measure.
  pose proof (length_filter (is_established (st_cache w))
                (queue (expiry_base w q))).
  lia.
Qed.

(** More iterations than needed change nothing. *)
Lemma clean_loop_fuel_mono HZ q fuel :
  ∀ fuel' pos w w',
    (fuel ≤ fuel')%nat →
    clean_loop HZ fuel q pos w = Some w' →
    clean_loop HZ fuel' q pos w = Some w'.
Proof.
  induction fuel as [|fuel IH]; intros fuel' pos w w' Hle Hrun.
  - destruct pos; [discriminate|]. rewrite clean_loop_at_head. exact Hrun.
  - destruct pos as [s|]; [|rewrite clean_loop_at_head; exact Hrun].
    destruct fuel' as [|fuel']; [lia|]. cbn [clean_loop] in *.
    destruct (clean_session HZ s w) as [[[] w1]|]; simpl in *;
      [|exact Hrun|discriminate].
    apply IH; [lia|exact Hrun].
Qed.

End FilteringFacts.

(* ===================================================================== *)
(** ** Properties of mod/stateful/pool4/db.c *)
(* ===================================================================== *)

Module Pool4dbFacts.
Import Machine Pool4db.

Section WithTables.

Context {table_body : Type}.
Variable pool4table_contains :
  @pool4_table table_body → ipv4_transport_addr → bool.
Variable hash_32 : Z → Z → Z.

(** A mark that no table of the slot it hashes to carries is not
    found. *)
Lemma find_table_unknown_mark (st : @db_state table_body) m :
  (∀ t, t ∈ db st (hash_32 m (power st)) → mark t ≠ m) →
  find_table hash_32 st m = None.
Proof.
  intros Hno. unfold find_table.
  destruct (List.find _ _) as [t|] eqn:Hf; [|reflexivity].
  apply find_some in Hf as [Hin Hm].
  apply list_elem_of_In, Hno in Hin. lia.
Qed.

(** C9. For a mark that [find_table] does not find, [pool4db_contains]
    answers [true] for every address: the same answer as for a mark
    whose table holds the address. *)
Theorem pool4db_contains_unknown_mark (st : @db_state table_body) m :
  find_table hash_32 st m = None →
  ∀ addr,
    pool4db_contains pool4table_contains hash_32 st m addr = true ∧
    ∀ m' t, find_table hash_32 st m' = Some t →
            pool4table_contains t addr = true →
            pool4db_contains pool4table_contains hash_32 st m' addr
            = pool4db_contains pool4table_contains hash_32 st m addr.
Proof.
  intros Hnone addr. unfold pool4db_contains. rewrite Hnone. simpl.
  split; [reflexivity|].
  intros m' t Ht Hc. rewrite Ht, Hc. reflexivity.
Qed.

End WithTables.

(** C9, on the sample database: no table has mark 2, and the database
    is said to contain 10.0.0.1, port 80, for it. *)
Lemma pool4db_contains_unknown_mark_witness :
  pool4db_contains sample_contains hash_32_linux sample_db 2
    (mk_taddr 0x0a000001 80) = true ∧
  ∀ m' t, find_table hash_32_linux sample_db m' = Some t →
          sample_contains t (mk_taddr 0x0a000001 80) = true →
          pool4db_contains sample_contains hash_32_linux sample_db m'
            (mk_taddr 0x0a000001 80)
          = pool4db_contains sample_contains hash_32_linux sample_db 2
              (mk_taddr 0x0a000001 80).
Proof.
  apply (pool4db_contains_unknown_mark sample_contains hash_32_linux
           sample_db 2).
  vm_compute. reflexivity.
Defined.

End Pool4dbFacts.

(* ===================================================================== *)
(** ** More on mod/pool4.c *)
(* ===================================================================== *)

Module Pool4Coverage.
Import Machine Pool4 Pool4Facts.

(** *** The three pools move in step *)

Lemma get_pool_node_index (l : list pool_node) a :
  fst <$> get_pool_node l a
  = fst <$> list_find (λ x, ipv4_addr_equals x a = true) (addresses l).
Proof.
  unfold get_pool_node, addresses. rewrite list_find_fmap.
  destruct (list_find _ l) as [[i n]|]; reflexivity.
Qed.

Lemma get_pool_node_in (l : list pool_node) a :
  is_Some (get_pool_node l a) ↔ a ∈ addresses l.
Proof.
  unfold addresses. split.
  - intros [[i n] H]. apply get_pool_node_lookup in H as [Hl <-].
    apply list_elem_of_fmap. exists n. split; [reflexivity|].
    eapply list_elem_of_lookup_2, Hl.
  - intros Hin. apply list_elem_of_fmap in Hin as (n & -> & Hin).
    unfold get_pool_node. eapply list_find_elem_of; [exact Hin|].
    unfold ipv4_addr_equals. apply Z.eqb_refl.
Qed.

Lemma pool4_contains_in a st :
  pool4_contains a st = true ↔ a ∈ addresses (udp (pools st)).
Proof.
  rewrite <- get_pool_node_in. unfold pool4_contains.
  destruct (get_pool_node (udp (pools st)) a); split; intros H;
    try reflexivity; try discriminate; eauto.
  destruct H as [x H]. discriminate.
Qed.

Lemma addresses_without_node a (l l' : list pool_node) :
  addresses l = addresses l' →
  addresses (without_node a l) = addresses (without_node a l').
Proof.
  intros Heq. unfold without_node.
  pose proof (get_pool_node_index l a) as H1.
  pose proof (get_pool_node_index l' a) as H2.
  rewrite Heq, <- H2 in H1.
  destruct (get_pool_node l a) as [[i n]|], (get_pool_node l' a) as [[i' n']|];
    simpl in H1; try discriminate; [|exact Heq].
  injection H1 as ->. unfold addresses in *.
  rewrite !list_fmap_delete, Heq. reflexivity.
Qed.

Lemma holds_node_addresses a (l l' : list pool_node) :
  addresses l = addresses l' → holds_node a l = holds_node a l'.
Proof.
  intros Heq. unfold holds_node.
  pose proof (get_pool_node_index l a) as H1.
  pose proof (get_pool_node_index l' a) as H2.
  rewrite Heq, <- H2 in H1.
  destruct (get_pool_node l a) as [[i n]|], (get_pool_node l' a) as [[i' n']|];
    simpl in H1; try discriminate; reflexivity.
Qed.

(** What [pool4_remove] answers and leaves, pool by pool. *)
Lemma pool4_remove_effect a st :
  (pool4_remove (Some a) st).1
  = (if (0 <? pools_holding a (pools st)) && (pools_holding a (pools st) <? 3)
     then RESPONSE_NOT_FOUND else RESPONSE_SUCCESS) ∧
  ∀ r, pool_get r (pools (pool4_remove (Some a) st).2)
       = without_node a (pool_get r (pools st)).
Proof.
  unfold pool4_remove, pool_array, pools_holding. simpl.
  destruct st as [[u t c] m]. simpl.
  destruct (holds_node_cases a t)
    as [(Ht & Hht & Hwt)|(it & nt & Ht & Hht & Hwt)];
    destruct (holds_node_cases a u)
      as [(Hu & Hhu & Hwu)|(iu & nu & Hu & Hhu & Hwu)];
    destruct (holds_node_cases a c)
      as [(Hc & Hhc & Hwc)|(ic & nc & Hc & Hhc & Hwc)];
    rewrite Hht, Hhu, Hhc, Ht; simpl; rewrite Hu; simpl; rewrite Hc; simpl;
    (split; [reflexivity | intros r; destruct r; simpl; congruence]).
Qed.

Lemma addresses_section_set sr s n (l : list pool_node) i :
  l !! i = Some n →
  addresses (<[i := section_set sr s n]> l) = addresses l.
Proof.
  intros Hl. unfold addresses.
  rewrite list_fmap_insert, address_section_set.
  apply list_insert_id. rewrite list_lookup_fmap, Hl. reflexivity.
Qed.

Lemma get_any_loop_addresses host_port nodes m result nodes' m' :
  get_any_loop host_port nodes m = Some (result, nodes', m') →
  addresses nodes' = addresses nodes.
Proof.
  revert nodes' m'. induction nodes as [|node rest IH]; intros nodes' m';
    [discriminate|]. simpl.
  destruct (extract_any_port _ m) as [[[p|] s'] m1].
  - intros [= <- <- <-]. unfold addresses. rewrite !fmap_cons.
    rewrite address_section_set. reflexivity.
  - destruct (get_any_loop host_port rest m) as [[[r rest'] m2]|];
      [|discriminate].
    intros [= <- <- <-]. unfold addresses in *. rewrite !fmap_cons.
    rewrite (IH _ _ eq_refl). reflexivity.
Qed.

Lemma pools_in_step_set r (l : list pool_node) p :
  addresses l = addresses (pool_get r p) →
  pools_in_step p → pools_in_step (pool_set r l p).
Proof.
  intros Hl [Ht Hi]. destruct r; unfold pools_in_step in *; simpl in *;
    split; congruence.
Qed.

Lemma pool4_register_in_step kmalloc_ok a st :
  pools_in_step (pools st) →
  pools_in_step (pools (pool4_register kmalloc_ok a st).2).
Proof.
  intros [Ht Hi]. unfold pool4_register. destruct a as [a|]; [|split; assumption].
  destruct (alloc_nodes kmalloc_ok _ 0 (mem st)) as [[] m1]; simpl;
    [|split; assumption].
  unfold pools_in_step, addresses in *. simpl.
  rewrite !fmap_app, Ht, Hi. split; reflexivity.
Qed.

Lemma load_defaults_from_in_step kmalloc_ok defaults st :
  pools_in_step (pools st) →
  pools_in_step (pools (load_defaults_from kmalloc_ok defaults st).2).
Proof.
  revert st. induction defaults as [|[a|] rest IH]; intros st Hok;
    cbn [load_defaults_from].
  - exact Hok.
  - pose proof (pool4_register_in_step kmalloc_ok (Some a) st Hok) as Hreg.
    destruct (pool4_register kmalloc_ok (Some a) st) as [rc st1].
    simpl in Hreg. destruct rc; first [apply IH, Hreg | split; reflexivity].
  - split; reflexivity.
Qed.

Lemma reachable_in_step kmalloc_ok POOL4_DEF little_endian st :
  reachable kmalloc_ok POOL4_DEF little_endian st → pools_in_step (pools st).
Proof.
  induction 1 as [defaults m | st _ IH | a st _ IH | a st _ IH
                 | proto port st _ IH | proto a st _ IH | proto a st _ IH
                 | st _ IH].
  - assert (H0 : pools_in_step (pools (mk_state (mk_pools [] [] []) m)))
      by (split; reflexivity).
    unfold pool4_init, load_defaults. destruct defaults; [|exact H0].
    pose proof (load_defaults_from_in_step kmalloc_ok POOL4_DEF _ H0) as Hl.
    destruct (load_defaults_from kmalloc_ok POOL4_DEF _) as [ok st1].
    destruct ok; exact Hl.
  - split; reflexivity.
  - apply pool4_register_in_step, IH.
  - destruct a as [a|]; [|exact IH].
    destruct (pool4_remove_effect a st) as [_ Hp]. destruct IH as [Ht Hi].
    pose proof (Hp PoolTcp) as HpT. pose proof (Hp PoolUdp) as HpU.
    pose proof (Hp PoolIcmp) as HpI. cbn [pool_get] in HpT, HpU, HpI.
    split.
    + rewrite HpT, HpU. apply addresses_without_node, Ht.
    + rewrite HpI, HpU. apply addresses_without_node, Hi.
  - unfold pool4_get_any. destruct (get_pool proto) as [r|]; [|exact IH].
    destruct (pool_get r (pools st)) as [|n0 l0] eqn:Hl; [exact IH|].
    destruct (get_any_loop _ (n0 :: l0) (mem st)) as [[[res nodes'] m']|] eqn:Hg;
      [|exact IH].
    simpl. apply pools_in_step_set; [|exact IH].
    rewrite Hl. eapply get_any_loop_addresses, Hg.
  - unfold pool4_get_similar. destruct a as [a|]; [|exact IH].
    destruct (get_pool proto) as [r|]; [|exact IH].
    destruct (get_pool_node _ _) as [[i node]|] eqn:Hn; [|exact IH].
    destruct (extract_any_port _ (mem st)) as [[[p|] s'] m']; [|exact IH].
    apply get_pool_node_lookup in Hn as [Hl _]. simpl.
    apply pools_in_step_set; [|exact IH].
    apply addresses_section_set, Hl.
  - unfold pool4_return. destruct a as [a|]; [|exact IH].
    destruct (get_pool proto) as [r|]; [|exact IH].
    destruct (get_pool_node _ _) as [[i node]|] eqn:Hn; [|exact IH].
    apply get_pool_node_lookup in Hn as [Hl _].
    destruct (kmalloc kmalloc_ok (mem st)) as [[] m1]; [|exact IH]. simpl.
    apply pools_in_step_set; [|exact IH].
    apply addresses_section_set, Hl.
  - unfold pool4_to_array.
    destruct (kmalloc kmalloc_ok (mem st)) as [[] m1]; exact IH.
Qed.

(** X1. In every state the module can reach, the UDP, TCP and ICMP
    lists hold the same addresses in the same order; so the answer of
    [pool4_contains], which reads the UDP list, holds for the TCP and
    ICMP lists too. *)
Theorem pools_move_in_step kmalloc_ok POOL4_DEF little_endian st :
  reachable kmalloc_ok POOL4_DEF little_endian st →
  addresses (tcp (pools st)) = addresses (udp (pools st)) ∧
  addresses (icmp (pools st)) = addresses (udp (pools st)) ∧
  ∀ a r, pool4_contains a st = true
         ↔ is_Some (get_pool_node (pool_get r (pools st)) a).
Proof.
  intros Hreach. destruct (reachable_in_step _ _ _ _ Hreach) as [Ht Hi].
  split; [exact Ht|]. split; [exact Hi|].
  intros a r. rewrite pool4_contains_in, get_pool_node_in.
  destruct r; simpl; rewrite ?Ht, ?Hi; reflexivity.
Qed.

(** X1, on the state that holds 198.51.100.1 after two requests. *)
Lemma pools_move_in_step_witness :
  let st := (pool4_get_any true IPPROTO_UDP 0x409c st_registered).2 in
  addresses (tcp (pools st)) = addresses (udp (pools st)) ∧
  addresses (icmp (pools st)) = addresses (udp (pools st)) ∧
  ∀ a r, pool4_contains a st = true
         ↔ is_Some (get_pool_node (pool_get r (pools st)) a).
Proof.
  apply (pools_move_in_step always_ok [] true).
  apply reach_get_any, reach_register, (reach_init always_ok [] true false).
Defined.

(** X2. In every state the module can reach, [pool4_remove] finds the
    address in all three lists or in none, and answers
    [RESPONSE_SUCCESS]: the answer [RESPONSE_NOT_FOUND] is out of
    reach. *)
Theorem pool4_remove_never_partial kmalloc_ok POOL4_DEF little_endian st a :
  reachable kmalloc_ok POOL4_DEF little_endian st →
  (pool4_remove (Some a) st).1 = RESPONSE_SUCCESS ∧
  (pools_holding a (pools st) = 0 ∨ pools_holding a (pools st) = 3).
Proof.
  intros Hreach. destruct (reachable_in_step _ _ _ _ Hreach) as [Ht Hi].
  assert (Hcount : pools_holding a (pools st) = 0
                   ∨ pools_holding a (pools st) = 3).
  { unfold pools_holding.
    rewrite (holds_node_addresses a _ _ Ht), (holds_node_addresses a _ _ Hi).
    unfold holds_node. destruct (get_pool_node (udp (pools st)) a); auto. }
  split; [|exact Hcount].
  destruct (pool4_remove_effect a st) as [-> _].
  destruct Hcount as [-> | ->]; reflexivity.
Qed.

(** X2, on the state that holds 198.51.100.1. *)
Lemma pool4_remove_never_partial_witness :
  (pool4_remove (Some addr_1) st_registered).1 = RESPONSE_SUCCESS ∧
  (pools_holding addr_1 (pools st_registered) = 0
   ∨ pools_holding addr_1 (pools st_registered) = 3).
Proof.
  apply (pool4_remove_never_partial always_ok [] true).
  apply reach_register, (reach_init always_ok [] true false).
Defined.

(** *** Registering, finding, removing *)

Lemma alloc_nodes_three kmalloc_ok m :
  alloc_nodes kmalloc_ok 3 0 m
  = if kmalloc_ok (km_calls m) && kmalloc_ok (S (km_calls m))
       && kmalloc_ok (S (S (km_calls m)))
    then (true, mk_kmem (S (S (S (km_calls m)))) (km_live m + 3))
    else (false,
          mk_kmem (if kmalloc_ok (km_calls m)
                   then (if kmalloc_ok (S (km_calls m))
                         then S (S (S (km_calls m))) else S (S (km_calls m)))
                   else S (km_calls m))
                  (km_live m)).
Proof.
  simpl. unfold kmalloc, kfree. simpl.
  destruct (kmalloc_ok (km_calls m)); simpl;
    [destruct (kmalloc_ok (S (km_calls m))); simpl;
     [destruct (kmalloc_ok (S (S (km_calls m)))); simpl|]|];
    f_equal; f_equal; lia.
Qed.

(** The pools after a registration that succeeded, and after one that
    did not. *)
Lemma pool4_register_pools kmalloc_ok a st :
  ((pool4_register kmalloc_ok (Some a) st).1 = RESPONSE_SUCCESS ∧
   ∀ r, pool_get r (pools (pool4_register kmalloc_ok (Some a) st).2)
        = pool_get r (pools st) ++ [new_node a]) ∨
  ((pool4_register kmalloc_ok (Some a) st).1 = RESPONSE_ALLOC_FAILED ∧
   pools (pool4_register kmalloc_ok (Some a) st).2 = pools st).
Proof.
  unfold pool4_register.
  destruct (alloc_nodes kmalloc_ok _ 0 (mem st)) as [[] m1]; simpl.
  - left. split; [reflexivity|]. intros r; destruct r; reflexivity.
  - right. split; reflexivity.
Qed.

(** X3. After a successful [pool4_register] of an address,
    [pool4_contains] answers [true] for it, and its answer for every
    other address is what it was; a registration that fails changes no
    answer. *)
Theorem pool4_register_then_contains kmalloc_ok a st :
  let out := pool4_register kmalloc_ok (Some a) st in
  (out.1 = RESPONSE_SUCCESS → pool4_contains a out.2 = true) ∧
  (∀ a', a' ≠ a → pool4_contains a' out.2 = pool4_contains a' st) ∧
  (out.1 ≠ RESPONSE_SUCCESS →
   ∀ a', pool4_contains a' out.2 = pool4_contains a' st).
Proof.
  cbv zeta.
  assert (Hbool : ∀ b1 b2 : bool, (b1 = true ↔ b2 = true) → b1 = b2).
  { intros b1 b2 [H1 H2]. destruct b1, b2; try reflexivity.
    - symmetry. apply H1. reflexivity.
    - apply H2. reflexivity. }
  destruct (pool4_register_pools kmalloc_ok a st) as [[Hrc Hp]|[Hrc Hp]].
  - pose proof (Hp PoolUdp) as Hu. cbn [pool_get] in Hu.
    split; [|split].
    + intros _. apply pool4_contains_in. unfold addresses.
      rewrite Hu, fmap_app. apply elem_of_app. right. left.
    + intros a' Hne. apply Hbool. rewrite !pool4_contains_in. unfold addresses.
      rewrite Hu, fmap_app, elem_of_app. simpl.
      rewrite list_elem_of_singleton. tauto.
    + intros Hfail. contradiction.
  - split; [|split].
    + intros Hs. rewrite Hs in Hrc. discriminate.
    + intros a' _. unfold pool4_contains. rewrite Hp. reflexivity.
    + intros _ a'. unfold pool4_contains. rewrite Hp. reflexivity.
Qed.

Lemma get_pool_node_appended (l : list pool_node) a :
  a ∉ addresses l →
  get_pool_node (l ++ [new_node a]) a = Some (length l, new_node a).
Proof.
  intros Hno. unfold get_pool_node. apply list_find_Some.
  split; [|split].
  - rewrite lookup_app_r by lia. rewrite Nat.sub_diag. reflexivity.
  - unfold ipv4_addr_equals. simpl. apply Z.eqb_refl.
  - intros j y Hj Hlt Heq. apply Hno. unfold addresses.
    rewrite lookup_app_l in Hj by lia.
    apply list_elem_of_fmap. exists y. split.
    + unfold ipv4_addr_equals in Heq. lia.
    + eapply list_elem_of_lookup_2, Hj.
Qed.

Lemma delete_appended (l : list pool_node) n : delete (length l) (l ++ [n]) = l.
Proof.
  induction l as [|x l IH]; [reflexivity|]. simpl. f_equal. exact IH.
Qed.

(** X4. Registering an address that is in none of the three lists and
    then removing it gives the three lists back as they were, answers
    [RESPONSE_SUCCESS], and leaves as many slab objects allocated as
    before. *)
Theorem pool4_register_then_remove kmalloc_ok a st :
  (∀ r, a ∉ addresses (pool_get r (pools st))) →
  (pool4_register kmalloc_ok (Some a) st).1 = RESPONSE_SUCCESS →
  let out := pool4_remove (Some a) (pool4_register kmalloc_ok (Some a) st).2 in
  out.1 = RESPONSE_SUCCESS ∧
  pools out.2 = pools st ∧
  km_live (mem out.2) = km_live (mem st).
Proof.
  intros Hno Hok. cbv zeta.
  unfold pool4_register in *. rewrite alloc_nodes_three in *.
  destruct (kmalloc_ok (km_calls (mem st)) && _ && _); [|discriminate].
  destruct st as [[u t c] m]. cbn -[get_pool_node].
  pose proof (Hno PoolUdp) as Hu. pose proof (Hno PoolTcp) as Ht.
  pose proof (Hno PoolIcmp) as Hc. cbn [pool_get pools udp tcp icmp] in Hu, Ht, Hc.
  rewrite (get_pool_node_appended _ _ Ht). cbn -[get_pool_node].
  rewrite (get_pool_node_appended _ _ Hu). cbn -[get_pool_node].
  rewrite (get_pool_node_appended _ _ Hc). cbn -[get_pool_node].
  rewrite !delete_appended. unfold kfree. simpl.
  split; [reflexivity|]. split; [reflexivity|]. lia.
Qed.

(** X4, on the module started without addresses. *)
Lemma pool4_register_then_remove_witness :
  let out := pool4_remove (Some addr_1)
               (pool4_register always_ok (Some addr_1) st_empty).2 in
  out.1 = RESPONSE_SUCCESS ∧
  pools out.2 = pools st_empty ∧
  km_live (mem out.2) = km_live (mem st_empty).
Proof.
  apply (pool4_register_then_remove always_ok addr_1 st_empty).
  - intros r; destruct r; apply not_elem_of_nil.
  - reflexivity.
Defined.

(** X5. [pool4_register] does not look for the address in the pool: an
    address that is already there is registered once more, and then one
    [pool4_remove] is not enough for [pool4_contains] to answer
    [false]. *)
Theorem pool4_register_twice_remove_once kmalloc_ok a st :
  pool4_contains a st = true →
  (pool4_register kmalloc_ok (Some a) st).1 = RESPONSE_SUCCESS →
  pool4_contains a
    (pool4_remove (Some a) (pool4_register kmalloc_ok (Some a) st).2).2 = true.
Proof.
  intros Hin Hok. apply pool4_contains_in.
  destruct (pool4_remove_effect a (pool4_register kmalloc_ok (Some a) st).2)
    as [_ Hp].
  pose proof (Hp PoolUdp) as Hu. cbn [pool_get] in Hu. rewrite Hu. clear Hp Hu.
  destruct (pool4_register_pools kmalloc_ok a st) as [[_ Hp]|[Hrc _]];
    [|rewrite Hok in Hrc; discriminate].
  pose proof (Hp PoolUdp) as Hu. cbn [pool_get] in Hu. rewrite Hu. clear Hp Hu.
  unfold pool4_contains in Hin.
  destruct (get_pool_node (udp (pools st)) a) as [[i n]|] eqn:Hn; [|discriminate].
  unfold without_node.
  rewrite (list_find_app_l _ _ _ _ _ Hn : get_pool_node (_ ++ _) a = _).
  apply get_pool_node_lookup in Hn as [Hl _].
  unfold addresses. rewrite list_fmap_delete, fmap_app.
  assert (Hi : (i < length (address <$> udp (pools st)))%nat).
  { rewrite length_fmap. eapply lookup_lt_Some, Hl. }
  apply list_elem_of_lookup.
  exists (length (address <$> udp (pools st)) - 1)%nat.
  rewrite list_lookup_delete_ge by lia.
  rewrite lookup_app_r by lia.
  replace (S (length (address <$> udp (pools st)) - 1)
           - length (address <$> udp (pools st)))%nat with 0%nat by lia.
  reflexivity.
Qed.

(** X5, on the state that holds 198.51.100.1. *)
Lemma pool4_register_twice_remove_once_witness :
  pool4_contains addr_1
    (pool4_remove (Some addr_1)
       (pool4_register always_ok (Some addr_1) st_registered).2).2 = true.
Proof.
  apply (pool4_register_twice_remove_once always_ok addr_1 st_registered);
    reflexivity.
Defined.

(** *** Drawing and giving back *)

Lemma extract_any_port_available hp node m :
  (extract_any_port (section_get (get_section hp) node) m).1.1 = None
  ↔ ¬ available hp node.
Proof.
  unfold available, extract_any_port.
  destruct (free_ports (section_get (get_section hp) node)) as [|p rest].
  - destruct (Z.gtb_spec (next_port (section_get (get_section hp) node))
                         (max_port (section_get (get_section hp) node)))
      as [Hgt|Hle];
      simpl; split; try discriminate; try reflexivity.
    + intros _ [H|H]; [congruence|lia].
    + intros H. exfalso. apply H. right. lia.
  - simpl. split; [discriminate|]. intros H. exfalso. apply H. left.
    discriminate.
Qed.

Lemma get_any_loop_first_available hp nodes m :
  (λ x, ta_address x.1.1) <$> get_any_loop hp nodes m
  = (λ x, address x.2) <$> list_find (available hp) nodes.
Proof.
  induction nodes as [|node rest IH]; [reflexivity|].
  cbn [get_any_loop list_find].
  pose proof (extract_any_port_available hp node m) as Hav.
  destruct (extract_any_port (section_get (get_section hp) node) m)
    as [[[p|] s'] m1]; simpl in Hav.
  - destruct (decide (available hp node)) as [_|Hno]; [reflexivity|].
    apply Hav in Hno. discriminate.
  - destruct (decide (available hp node)) as [Hyes|_].
    + destruct (proj1 Hav eq_refl Hyes).
    + destruct (get_any_loop hp rest m) as [[[r rest'] m2]|];
        destruct (list_find (available hp) rest) as [[i n]|];
        simpl in *; congruence.
Qed.

(** X6. [pool4_get_any] answers with the address of the first node of
    the protocol's list whose section for the requested port still has
    a port (a returned one or a never-used one), and fails exactly when
    the protocol has no list or no node has such a section; when it
    fails it leaves the state as it was. *)
Theorem pool4_get_any_first_available little_endian l4protocol port st :
  ta_address <$> (pool4_get_any little_endian l4protocol port st).1
  = (get_pool l4protocol ≫= λ r,
       (λ x, address x.2)
         <$> list_find (available (be16_to_cpu little_endian port))
               (pool_get r (pools st))) ∧
  ((pool4_get_any little_endian l4protocol port st).1 = None →
   (pool4_get_any little_endian l4protocol port st).2 = st).
Proof.
  unfold pool4_get_any. destruct (get_pool l4protocol) as [r|];
    [|split; reflexivity].
  cbn [mbind option_bind].
  pose proof (get_any_loop_first_available
                (be16_to_cpu little_endian port) (pool_get r (pools st))
                (mem st)) as Hf.
  destruct (pool_get r (pools st)) as [|n0 l0] eqn:Hl; [split; reflexivity|].
  remember (n0 :: l0) as nodes eqn:Hnodes. clear Hnodes.
  destruct (get_any_loop _ nodes (mem st)) as [[[res nodes'] m']|].
  - split; [exact Hf | discriminate].
  - split; [exact Hf | reflexivity].
Qed.

(** X8. In every state the module can reach, a [pool4_get_similar] that
    succeeds answers with the address it was asked about, which the
    protocol's list holds, and with a port of the parity and range of
    the port it was asked about. *)
Theorem pool4_get_similar_keeps_address_and_kind
    kmalloc_ok POOL4_DEF little_endian st l4protocol a result st' :
  reachable kmalloc_ok POOL4_DEF little_endian st →
  pool4_get_similar l4protocol (Some a) st = (Some result, st') →
  ta_address result = ta_address a ∧
  port_odd (l4_id result) = port_odd (l4_id a) ∧
  port_low (l4_id result) = port_low (l4_id a) ∧
  ∃ r, get_pool l4protocol = Some r ∧
       ta_address a ∈ addresses (pool_get r (pools st)).
Proof.
  intros Hreach Hget.
  pose proof (reachable_pools_ok _ _ _ _ Hreach) as Hok.
  unfold pool4_get_similar in Hget.
  destruct (get_pool l4protocol) as [r|]; [|discriminate].
  destruct (get_pool_node _ _) as [[i node]|] eqn:Hn; [|discriminate].
  destruct (extract_any_port _ (mem st)) as [[[p|] s'] m'] eqn:Hex;
    [|discriminate].
  injection Hget as <- <-. simpl.
  assert (Hin : is_Some (get_pool_node (pool_get r (pools st)) (ta_address a)))
    by (rewrite Hn; eauto).
  apply get_pool_node_lookup in Hn as [Hl _].
  assert (Hnode : node_ok node).
  { eapply Forall_lookup_1; [apply (Hok r)|exact Hl]. }
  destruct (extract_any_port_ok _ _ _ _ _ _ (Hnode _) Hex) as [_ Hp].
  specialize (Hp p eq_refl).
  destruct (get_section_kind p) as [Ho Hlow].
  destruct (get_section_kind (l4_id a)) as [Ho' Hlow'].
  rewrite Hp in Ho, Hlow.
  split; [reflexivity|]. split; [congruence|]. split; [congruence|].
  exists r. split; [reflexivity|]. apply get_pool_node_in, Hin.
Qed.

(** X8, on the state that holds 198.51.100.1: a port like 80 is asked
    for. *)
Lemma pool4_get_similar_keeps_address_and_kind_witness :
  ta_address (mk_tuple_addr addr_1 0) = ta_address (mk_tuple_addr addr_1 80) ∧
  port_odd (l4_id (mk_tuple_addr addr_1 0))
  = port_odd (l4_id (mk_tuple_addr addr_1 80)) ∧
  port_low (l4_id (mk_tuple_addr addr_1 0))
  = port_low (l4_id (mk_tuple_addr addr_1 80)) ∧
  ∃ r, get_pool IPPROTO_TCP = Some r ∧
       ta_address (mk_tuple_addr addr_1 80)
       ∈ addresses (pool_get r (pools st_registered)).
Proof.
  apply (pool4_get_similar_keeps_address_and_kind always_ok [] true
           st_registered IPPROTO_TCP (mk_tuple_addr addr_1 80)
           (mk_tuple_addr addr_1 0)
           (pool4_get_similar IPPROTO_TCP (Some (mk_tuple_addr addr_1 80))
              st_registered).2).
  - apply reach_register, (reach_init always_ok [] true false).
  - vm_compute. reflexivity.
Defined.

Lemma get_pool_node_insert (l : list pool_node) a i n n' :
  get_pool_node l a = Some (i, n) →
  address n' = address n →
  get_pool_node (<[i := n']> l) a = Some (i, n').
Proof.
  unfold get_pool_node. intros Hf Ha.
  apply list_find_Some in Hf as (Hl & Hp & Hleast).
  apply list_find_Some. split; [|split].
  - apply list_lookup_insert_eq. eapply lookup_lt_Some, Hl.
  - rewrite Ha. exact Hp.
  - intros j y Hj Hlt. rewrite list_lookup_insert_ne in Hj by lia.
    eapply Hleast; eassumption.
Qed.

(** X9. A port that [pool4_return] has taken back is the answer of the
    next [pool4_get_similar] for that address and kind of port when no
    port returned earlier is waiting, and otherwise waits behind those:
    never-used ports come last. *)
Theorem pool4_return_then_get_similar kmalloc_ok l4protocol a st r i node :
  get_pool l4protocol = Some r →
  get_pool_node (pool_get r (pools st)) (ta_address a) = Some (i, node) →
  kmalloc_ok (km_calls (mem st)) = true →
  (pool4_return kmalloc_ok l4protocol (Some a) st).1 = true ∧
  (pool4_get_similar l4protocol (Some a)
     (pool4_return kmalloc_ok l4protocol (Some a) st).2).1
  = Some (mk_tuple_addr (ta_address a)
            (hd (l4_id a)
                (free_ports (section_get (get_section (l4_id a)) node)))).
Proof.
  intros Hpool Hn Hmem. unfold pool4_return, kmalloc.
  rewrite Hpool, Hn, Hmem. simpl. split; [reflexivity|].
  unfold pool4_get_similar. rewrite Hpool. simpl. rewrite pool_get_set_eq.
  erewrite get_pool_node_insert;
    [|exact Hn|apply address_section_set].
  rewrite section_get_set_eq. unfold extract_any_port. simpl.
  destruct (free_ports (section_get (get_section (l4_id a)) node));
    reflexivity.
Qed.

(** X9, on the state that holds 198.51.100.1: port 1024 comes back and
    goes out again. *)
Lemma pool4_return_then_get_similar_witness :
  (pool4_return always_ok IPPROTO_UDP (Some (mk_tuple_addr addr_1 1024))
     st_registered).1 = true ∧
  (pool4_get_similar IPPROTO_UDP (Some (mk_tuple_addr addr_1 1024))
     (pool4_return always_ok IPPROTO_UDP (Some (mk_tuple_addr addr_1 1024))
        st_registered).2).1
  = Some (mk_tuple_addr (ta_address (mk_tuple_addr addr_1 1024))
            (hd (l4_id (mk_tuple_addr addr_1 1024))
                (free_ports
                   (section_get (get_section (l4_id (mk_tuple_addr addr_1 1024)))
                      (new_node addr_1))))).
Proof.
  apply (pool4_return_then_get_similar always_ok IPPROTO_UDP
           (mk_tuple_addr addr_1 1024) st_registered PoolUdp 0
           (new_node addr_1)); reflexivity.
Defined.

Lemma extract_many_step k s m :
  extract_many (S k) s m
  = let '(o, s1, m1) := extract_any_port s m in
    let '(os, s2, m2) := extract_many k s1 m1 in
    (o :: os, s2, m2).
Proof. reflexivity. Qed.

Lemma extract_any_port_fresh next max m :
  0 ≤ next ≤ max → max ≤ 65535 →
  extract_any_port (mk_section next max []) m
  = (Some next, mk_section (next + 2) max [], m).
Proof.
  intros Hn Hm. unfold extract_any_port. simpl.
  destruct (Z.gtb_spec next max); [lia|].
  rewrite u16_small, u32_small by lia. reflexivity.
Qed.

(** X10. A section with no returned port hands out [next_port],
    [next_port + 2], ... in this order, each once, up to the last one
    that does not pass [max_port], and then fails. *)
Theorem section_hands_out_every_other_port k next max m :
  0 ≤ next →
  max ≤ 65535 →
  next + 2 * (Z.of_nat k - 1) ≤ max < next + 2 * Z.of_nat k →
  extract_many (S k) (mk_section next max []) m
  = ((Some <$> every_other k next) ++ [None],
     mk_section (next + 2 * Z.of_nat k) max [], m).
Proof.
  revert next. induction k as [|k IH]; intros next Hn Hm Hk.
  - cbn [extract_many]. unfold extract_any_port. simpl.
    destruct (Z.gtb_spec next max); [|lia].
    replace (next + 2 * Z.of_nat 0) with next by lia. reflexivity.
  - rewrite extract_many_step, extract_any_port_fresh by lia.
    rewrite IH by lia. cbn [every_other]. rewrite fmap_cons. simpl.
    do 2 f_equal. f_equal. lia.
Qed.

(** X10, on the two low sections of a new node: 512 odd ports, 1 to
    1023, and 512 even ports, 0 to 1022. *)
Lemma section_hands_out_every_other_port_witness :
  extract_many 513 (mk_section 1 1023 []) (mk_kmem 0 0)
  = ((Some <$> every_other 512 1) ++ [None],
     mk_section (1 + 2 * Z.of_nat 512) 1023 [], mk_kmem 0 0) ∧
  extract_many 513 (mk_section 0 1022 []) (mk_kmem 0 0)
  = ((Some <$> every_other 512 0) ++ [None],
     mk_section (0 + 2 * Z.of_nat 512) 1022 [], mk_kmem 0 0).
Proof.
  split.
  - apply (section_hands_out_every_other_port 512 1 1023); lia.
  - apply (section_hands_out_every_other_port 512 0 1022); lia.
Defined.

(** *** Every slab object is accounted for *)

Lemma destroy_section_live s m :
  km_live (destroy_section s m) = km_live m - Z.of_nat (length (free_ports s)).
Proof.
  unfold destroy_section. revert m.
  induction (free_ports s) as [|p l IH]; intros m; simpl; [lia|].
  rewrite IH. unfold kfree. simpl. lia.
Qed.

Lemma destroy_pool_node_live i node (pool : list pool_node) m :
  km_live (destroy_pool_node i node pool m).2 = km_live m - node_objects node.
Proof.
  unfold destroy_pool_node, node_objects, kfree. simpl.
  rewrite !destroy_section_live. lia.
Qed.

Lemma list_objects_app (l1 l2 : list pool_node) :
  list_objects (l1 ++ l2) = list_objects l1 + list_objects l2.
Proof. induction l1 as [|n l1 IH]; simpl; lia. Qed.

Lemma list_objects_delete (l : list pool_node) i n :
  l !! i = Some n → list_objects (delete i l) = list_objects l - node_objects n.
Proof.
  revert i. induction l as [|x l IH]; intros [|i] H; try discriminate.
  - injection H as ->. simpl. lia.
  - simpl in *. rewrite (IH _ H). lia.
Qed.

Lemma list_objects_insert (l : list pool_node) i n n' :
  l !! i = Some n →
  list_objects (<[i := n']> l) = list_objects l - node_objects n + node_objects n'.
Proof.
  revert i. induction l as [|x l IH]; intros [|i] H; try discriminate.
  - injection H as ->. simpl. lia.
  - simpl in *. rewrite (IH _ H). lia.
Qed.

Lemma objects_pool_set r (l : list pool_node) p :
  objects (pool_set r l p)
  = objects p - list_objects (pool_get r p) + list_objects l.
Proof. destruct r; unfold objects; simpl; lia. Qed.

Lemma node_objects_section_set sr s n :
  node_objects (section_set sr s n)
  = node_objects n - Z.of_nat (length (free_ports (section_get sr n)))
    + Z.of_nat (length (free_ports s)).
Proof. destruct sr; unfold node_objects; simpl; lia. Qed.

Lemma extract_any_port_live s m :
  km_live (extract_any_port s m).2
  - Z.of_nat (length (free_ports (extract_any_port s m).1.2))
  = km_live m - Z.of_nat (length (free_ports s)).
Proof.
  unfold extract_any_port. destruct (free_ports s) as [|p rest] eqn:Hf.
  - destruct (next_port s >? max_port s); simpl; rewrite ?Hf; simpl; lia.
  - unfold kfree. simpl. lia.
Qed.

Lemma get_any_loop_live hp nodes m result nodes' m' :
  get_any_loop hp nodes m = Some (result, nodes', m') →
  km_live m' - list_objects nodes' = km_live m - list_objects nodes.
Proof.
  revert nodes' m'. induction nodes as [|node rest IH]; intros nodes' m';
    [discriminate|]. cbn [get_any_loop].
  pose proof (extract_any_port_live (section_get (get_section hp) node) m) as He.
  destruct (extract_any_port _ m) as [[[p|] s'] m1]; simpl in He.
  - intros [= <- <- <-]. simpl. rewrite node_objects_section_set. lia.
  - destruct (get_any_loop hp rest m) as [[[r rest'] m2]|]; [|discriminate].
    intros [= <- <- <-]. specialize (IH _ _ eq_refl). simpl. lia.
Qed.

Lemma destroy_nodes_live (l : list pool_node) m :
  km_live (destroy_nodes l m) = km_live m - list_objects l.
Proof.
  revert m. induction l as [|n l IH]; intros m; cbn [destroy_nodes list_objects];
    [lia|].
  rewrite IH, destroy_pool_node_live. lia.
Qed.

Lemma remove_loop_live a rs st deleted :
  km_live (mem (remove_loop a rs st deleted).1)
  - objects (pools (remove_loop a rs st deleted).1)
  = km_live (mem st) - objects (pools st).
Proof.
  revert st deleted. induction rs as [|r rs IH]; intros st deleted;
    [reflexivity|]. cbn [remove_loop].
  destruct (get_pool_node (pool_get r (pools st)) a) as [[i node]|] eqn:Hn;
    [|apply IH].
  apply get_pool_node_lookup in Hn as [Hl _].
  pose proof (destroy_pool_node_live i node (pool_get r (pools st)) (mem st))
    as Hd.
  destruct (destroy_pool_node i node (pool_get r (pools st)) (mem st))
    as [l m1] eqn:Hdp.
  assert (l = delete i (pool_get r (pools st)))
    by (unfold destroy_pool_node in Hdp; congruence).
  subst l. rewrite IH. simpl in *.
  rewrite objects_pool_set, (list_objects_delete _ _ _ Hl). lia.
Qed.

(** X11. Registering, removing, drawing and giving back ports, and
    destroying the pool keep the count of allocated slab objects equal
    to the count of nodes and free-port records in the three lists, up
    to what it was off by before: nothing the module links is leaked,
    nothing it keeps is freed. *)
Theorem pool4_accounts_for_every_object kmalloc_ok little_endian st :
  let balance st := km_live (mem st) - objects (pools st) in
  (∀ a, balance (pool4_register kmalloc_ok a st).2 = balance st) ∧
  (∀ a, balance (pool4_remove a st).2 = balance st) ∧
  (∀ proto port,
     balance (pool4_get_any little_endian proto port st).2 = balance st) ∧
  (∀ proto a, balance (pool4_get_similar proto a st).2 = balance st) ∧
  (∀ proto a, balance (pool4_return kmalloc_ok proto a st).2 = balance st) ∧
  balance (pool4_destroy st) = balance st ∧
  objects (pools (pool4_destroy st)) = 0.
Proof.
  cbv zeta. repeat split.
  - intros [a|]; [|reflexivity]. unfold pool4_register.
    change (length pool_array) with 3%nat. rewrite alloc_nodes_three.
    destruct (kmalloc_ok (km_calls (mem st)) && _ && _); simpl; [|lia].
    unfold objects, link_nodes. simpl. rewrite !list_objects_app. simpl.
    unfold node_objects. simpl. lia.
  - intros [a|]; [|reflexivity]. unfold pool4_remove.
    pose proof (remove_loop_live a pool_array st 0) as Hr.
    destruct (remove_loop a pool_array st 0) as [st1 deleted].
    destruct (negb _ && negb _); exact Hr.
  - intros proto port. unfold pool4_get_any.
    destruct (get_pool proto) as [r|]; [|reflexivity].
    destruct (pool_get r (pools st)) as [|n0 l0] eqn:Hl; [reflexivity|].
    remember (n0 :: l0) as nodes eqn:Hnodes. clear Hnodes.
    destruct (get_any_loop _ nodes (mem st)) as [[[res nodes'] m']|] eqn:Hg;
      [|reflexivity].
    apply get_any_loop_live in Hg. simpl.
    rewrite objects_pool_set, Hl. lia.
  - intros proto [a|]; [|reflexivity]. unfold pool4_get_similar.
    destruct (get_pool proto) as [r|]; [|reflexivity].
    destruct (get_pool_node _ _) as [[i node]|] eqn:Hn; [|reflexivity].
    apply get_pool_node_lookup in Hn as [Hl _].
    pose proof (extract_any_port_live
                  (section_get (get_section (l4_id a)) node) (mem st)) as He.
    destruct (extract_any_port _ (mem st)) as [[[p|] s'] m']; [|reflexivity].
    simpl in *.
    rewrite objects_pool_set, (list_objects_insert _ _ _ _ Hl),
      node_objects_section_set. lia.
  - intros proto [a|]; [|reflexivity]. unfold pool4_return, kmalloc.
    destruct (get_pool proto) as [r|]; [|reflexivity].
    destruct (get_pool_node _ _) as [[i node]|] eqn:Hn; [|reflexivity].
    apply get_pool_node_lookup in Hn as [Hl _].
    destruct (kmalloc_ok (km_calls (mem st))); [|reflexivity]. simpl.
    rewrite objects_pool_set, (list_objects_insert _ _ _ _ Hl),
      node_objects_section_set. simpl. rewrite length_app. simpl. lia.
  - unfold pool4_destroy, objects. simpl. rewrite !destroy_nodes_live. lia.
Qed.

(** *** Start-up and listing *)

Lemma load_defaults_from_outcome kmalloc_ok defaults st :
  let out := load_defaults_from kmalloc_ok defaults st in
  if out.1
  then Forall is_Some defaults ∧
       ∀ r, addresses (pool_get r (pools out.2))
            = addresses (pool_get r (pools st)) ++ omap id defaults
  else pools out.2 = mk_pools [] [] [].
Proof.
  cbv zeta. revert st. induction defaults as [|[a|] rest IH]; intros st;
    cbn [load_defaults_from].
  - simpl. split; [constructor|]. intros r. rewrite app_nil_r. reflexivity.
  - destruct (pool4_register_pools kmalloc_ok a st) as [[Hrc Hp]|[Hrc Hp]];
      destruct (pool4_register kmalloc_ok (Some a) st) as [rc st1];
      simpl in Hrc, Hp; subst rc; [|reflexivity].
    specialize (IH st1).
    destruct (load_defaults_from kmalloc_ok rest st1) as [[] st2]; simpl in *;
      [|exact IH].
    destruct IH as [Hall Haddr]. split; [constructor; eauto|].
    intros r. rewrite Haddr, Hp. unfold addresses.
    rewrite fmap_app, <- app_assoc. reflexivity.
  - reflexivity.
Qed.

(** X12. [pool4_init] with the default addresses is all or nothing:
    when it answers [true], every default address was well formed and
    each of the three lists holds exactly the default addresses, in
    their order; when it answers [false], the three lists are empty. *)
Theorem pool4_init_with_defaults kmalloc_ok POOL4_DEF m :
  let out := pool4_init kmalloc_ok POOL4_DEF true m in
  if out.1
  then Forall is_Some POOL4_DEF ∧
       ∀ r, addresses (pool_get r (pools out.2)) = omap id POOL4_DEF
  else pools out.2 = mk_pools [] [] [].
Proof.
  cbv zeta. unfold pool4_init, load_defaults.
  pose proof (load_defaults_from_outcome kmalloc_ok POOL4_DEF
                (mk_state (mk_pools [] [] []) m)) as H.
  cbv zeta in H.
  destruct (load_defaults_from kmalloc_ok POOL4_DEF _) as [[] st1];
    simpl in *; [|exact H].
  destruct H as [Hall Haddr]. split; [exact Hall|].
  intros r. rewrite Haddr. destruct r; reflexivity.
Qed.

(** X13. When [pool4_to_array] finds memory, the array it hands over
    lists, in the order of the UDP list, exactly the addresses for
    which [pool4_contains] answers [true]; it never changes the
    pools. *)
Theorem pool4_to_array_lists_contained kmalloc_ok st :
  pools (pool4_to_array kmalloc_ok st).2 = pools st ∧
  ∀ array,
    (pool4_to_array kmalloc_ok st).1 = (RESPONSE_SUCCESS, Some array) →
    array = addresses (udp (pools st)) ∧
    ∀ a, a ∈ array ↔ pool4_contains a st = true.
Proof.
  unfold pool4_to_array.
  destruct (kmalloc kmalloc_ok (mem st)) as [[] m1]; simpl.
  - split; [reflexivity|]. intros array [= <-]. split; [reflexivity|].
    intros a. rewrite pool4_contains_in. reflexivity.
  - split; [reflexivity|]. intros array H. discriminate.
Qed.

End Pool4Coverage.

(* ===================================================================== *)
(** ** More on mod/stateful/pool4/db.c *)
(* ===================================================================== *)

Module Pool4dbCoverage.
Import Machine Pool4db.

Section WithTables.

Context {table_body pool4_sample : Type}.
Variable pool4table_contains :
  @pool4_table table_body → ipv4_transport_addr → bool.
Variable hash_32 : Z → Z → Z.
Variable pool4table_create : Z → option (@pool4_table table_body).
Variable pool4table_add :
  @pool4_table table_body → pool4_sample → Z * @pool4_table table_body.
Variable pool4table_rm :
  @pool4_table table_body → pool4_sample → Z * @pool4_table table_body.
Variable pool4table_flush : @pool4_table table_body → @pool4_table table_body.
Variable pool4table_is_empty : @pool4_table table_body → bool.

Lemma int_to_bool_of_bool b : int_to_bool (bool_to_int b) = b.
Proof. destruct b; reflexivity. Qed.

(** X14. Right after a successful [pool4db_init] no mark has a table
    and [pool4db_contains_all] finds no address, and yet
    [pool4db_contains] answers [true] for every mark and address;
    [pool4db_is_empty] answers [true]. When the slots cannot be
    allocated the answer is [-ENOMEM]. *)
Theorem pool4db_fresh_database :
  ∃ st : @db_state table_body,
    pool4db_init true = (0, Some st) ∧
    pool4db_init (table_body := table_body) false = (- ENOMEM, None) ∧
    ∀ m addr,
      find_table hash_32 st m = None ∧
      pool4db_contains_all pool4table_contains st addr = false ∧
      pool4db_contains pool4table_contains hash_32 st m addr = true ∧
      pool4db_is_empty pool4table_is_empty st = true.
Proof.
  eexists. split; [reflexivity|]. split; [reflexivity|].
  intros m addr. split; [reflexivity|]. split; [|split; [reflexivity|]].
  - unfold pool4db_contains_all. apply not_true_iff_false. intros H.
    apply existsb_exists in H as (i & _ & H). discriminate H.
  - unfold pool4db_is_empty. apply negb_true_iff, not_true_iff_false.
    intros H. apply existsb_exists in H as (i & _ & H). discriminate H.
Qed.

Lemma find_table_set_slot_other (st : @db_state table_body) h chain m values' :
  hash_32 m (power st) ≠ h →
  find_table hash_32 (mk_db (set_slot h chain (db st)) (power st) values') m
  = find_table hash_32 st m.
Proof.
  intros Hne. unfold find_table, set_slot. simpl.
  destruct (Z.eqb_spec (hash_32 m (power st)) h); [contradiction|reflexivity].
Qed.

Lemma find_table_set_slot_same (st : @db_state table_body) chain m values' :
  find_table hash_32
    (mk_db (set_slot (hash_32 m (power st)) chain (db st)) (power st) values') m
  = List.find (λ table, mark table =? m) chain.
Proof.
  unfold find_table, set_slot. simpl. rewrite Z.eqb_refl. reflexivity.
Qed.

(** X15. [pool4db_add] for a mark that has no table yet: when the new
    table is created and takes the sample, it is linked so that
    [find_table] finds it for the mark, [pool4db_contains] for the mark
    is the answer of the new table, one more table is counted, and the
    tables of all other marks are found as before. When the table cannot
    be created, or does not take the sample, the database is left as it
    was and the error is the answer. *)
Theorem pool4db_add_new_mark (st : @db_state table_body) m sample :
  find_table hash_32 st m = None →
  match pool4table_create m with
  | None =>
      pool4db_add hash_32 pool4table_create pool4table_add st m sample
      = (- ENOMEM, st)
  | Some t =>
      if (pool4table_add t sample).1 =? 0 then
        mark (pool4table_add t sample).2 = m →
        let out :=
          pool4db_add hash_32 pool4table_create pool4table_add st m sample in
        out.1 = 0 ∧
        find_table hash_32 out.2 m = Some (pool4table_add t sample).2 ∧
        values out.2 = u32 (values st + 1) ∧
        (∀ addr, pool4db_contains pool4table_contains hash_32 out.2 m addr
                 = pool4table_contains (pool4table_add t sample).2 addr) ∧
        (∀ m', m' ≠ m → find_table hash_32 out.2 m' = find_table hash_32 st m')
      else
        pool4db_add hash_32 pool4table_create pool4table_add st m sample
        = ((pool4table_add t sample).1, st)
  end.
Proof.
  intros Hnone. unfold pool4db_add, create_table. rewrite Hnone.
  destruct (pool4table_create m) as [t|]; [|reflexivity].
  destruct (pool4table_add t sample) as [error t'] eqn:Hadd. simpl.
  destruct (Z.eqb_spec error 0) as [->|Hne]; simpl; [|reflexivity].
  intros Hmark.
  assert (Hfound :
    find_table hash_32
      (mk_db (set_slot (hash_32 m (power st)) (t' :: db st (hash_32 m (power st)))
                (db st)) (power st) (u32 (values st + 1))) m = Some t').
  { rewrite find_table_set_slot_same. simpl. rewrite Hmark, Z.eqb_refl.
    reflexivity. }
  split; [reflexivity|]. split; [exact Hfound|]. split; [reflexivity|]. split.
  - intros addr. unfold pool4db_contains. rewrite Hfound.
    apply int_to_bool_of_bool.
  - intros m' Hm'.
    destruct (Z.eq_dec (hash_32 m' (power st)) (hash_32 m (power st)))
      as [Heq|Hneq].
    + unfold find_table at 1. unfold set_slot. simpl.
      rewrite Heq, Z.eqb_refl. simpl. rewrite Hmark.
      destruct (Z.eqb_spec m m'); [congruence|].
      unfold find_table. rewrite Heq. reflexivity.
    + apply find_table_set_slot_other, Hneq.
Qed.

Lemma find_replace_table m (t' : @pool4_table table_body) chain t :
  List.find (λ table, mark table =? m) chain = Some t →
  mark t' = m →
  List.find (λ table, mark table =? m) (replace_table m t' chain) = Some t'.
Proof.
  intros Hf Hm. induction chain as [|x chain IH]; [discriminate|].
  simpl in *. destruct (Z.eqb_spec (mark x) m) as [Hx|Hx].
  - simpl. rewrite Hm, Z.eqb_refl. reflexivity.
  - simpl. destruct (Z.eqb_spec (mark x) m); [contradiction|]. apply IH, Hf.
Qed.

Lemma find_replace_table_other m m' (t' : @pool4_table table_body) chain :
  m' ≠ m → mark t' = m →
  List.find (λ table, mark table =? m') (replace_table m t' chain)
  = List.find (λ table, mark table =? m') chain.
Proof.
  intros Hne Hm. induction chain as [|x chain IH]; [reflexivity|].
  simpl. destruct (Z.eqb_spec (mark x) m) as [Hx|Hx].
  - simpl. rewrite Hm, Hx. destruct (Z.eqb_spec m m'); [congruence|reflexivity].
  - simpl. destruct (mark x =? m'); [reflexivity|]. exact IH.
Qed.

(** X16. [pool4db_add] for a mark that has a table hands the sample to
    that table and answers what the table answers; as long as the table
    keeps its mark, it is the table [find_table] finds for the mark
    afterwards, the tables of all other marks are found as before, and
    no table is counted twice. *)
Theorem pool4db_add_known_mark (st : @db_state table_body) m sample t :
  find_table hash_32 st m = Some t →
  mark (pool4table_add t sample).2 = m →
  let out := pool4db_add hash_32 pool4table_create pool4table_add st m sample in
  out.1 = (pool4table_add t sample).1 ∧
  find_table hash_32 out.2 m = Some (pool4table_add t sample).2 ∧
  values out.2 = values st ∧
  (∀ m', m' ≠ m → find_table hash_32 out.2 m' = find_table hash_32 st m').
Proof.
  intros Hfound Hmark. cbv zeta. unfold pool4db_add. rewrite Hfound.
  destruct (pool4table_add t sample) as [error t'] eqn:Hadd. simpl in *.
  split; [reflexivity|]. split; [|split; [reflexivity|]].
  - rewrite find_table_set_slot_same. eapply find_replace_table; eassumption.
  - intros m' Hm'.
    destruct (Z.eq_dec (hash_32 m' (power st)) (hash_32 m (power st)))
      as [Heq|Hneq].
    + unfold find_table at 1. unfold set_slot. simpl.
      rewrite Heq, Z.eqb_refl.
      rewrite (find_replace_table_other m m' t' _ Hm' Hmark).
      unfold find_table. rewrite Heq. reflexivity.
    + apply find_table_set_slot_other, Hneq.
Qed.

Lemma existsb_slot (st : @db_state table_body) (f : Z → bool) h :
  0 ≤ h < slots st → f h = true → existsb f (slot_indices st) = true.
Proof.
  intros Hh Hf. apply existsb_exists. exists h. split; [|exact Hf].
  apply list_elem_of_In. unfold slot_indices. apply list_elem_of_fmap.
  exists (Z.to_nat h). split; [lia|].
  apply list_elem_of_In, in_seq. lia.
Qed.

(** X17. When [find_table] finds the table of a mark in one of the
    slots the database has, an address that [pool4db_contains] reports
    for the mark is reported by [pool4db_contains_all] as well, and
    [pool4db_contains] is the answer of that table. *)
Theorem pool4db_contains_implies_contains_all
    (st : @db_state table_body) m t addr :
  find_table hash_32 st m = Some t →
  0 ≤ hash_32 m (power st) < slots st →
  pool4db_contains pool4table_contains hash_32 st m addr
  = pool4table_contains t addr ∧
  (pool4db_contains pool4table_contains hash_32 st m addr = true →
   pool4db_contains_all pool4table_contains st addr = true).
Proof.
  intros Hfound Hslot.
  assert (Hc : pool4db_contains pool4table_contains hash_32 st m addr
               = pool4table_contains t addr).
  { unfold pool4db_contains. rewrite Hfound. apply int_to_bool_of_bool. }
  split; [exact Hc|]. rewrite Hc. intros Ht.
  unfold pool4db_contains_all.
  apply (existsb_slot st _ (hash_32 m (power st)) Hslot).
  apply existsb_exists. exists t. split; [|exact Ht].
  unfold find_table in Hfound. apply find_some in Hfound as [Hin _]. exact Hin.
Qed.

(** X18. [pool4db_is_empty] answers [false] exactly when some table of
    the database is empty, and so [true] for a database whose tables
    all hold samples as well as for one that has no table. *)
Theorem pool4db_is_empty_means_no_empty_table (st : @db_state table_body) :
  (pool4db_is_empty pool4table_is_empty st = false
   ↔ ∃ i t, 0 ≤ i < slots st ∧ t ∈ db st i ∧ pool4table_is_empty t = true) ∧
  ((∀ i t, 0 ≤ i < slots st → t ∈ db st i → pool4table_is_empty t = false) →
   pool4db_is_empty pool4table_is_empty st = true).
Proof.
  assert (Hiff : pool4db_is_empty pool4table_is_empty st = false
     ↔ ∃ i t, 0 ≤ i < slots st ∧ t ∈ db st i ∧ pool4table_is_empty t = true).
  { unfold pool4db_is_empty. rewrite negb_false_iff, existsb_exists. split.
    - intros (i & Hi & He). apply existsb_exists in He as (t & Ht & Hempty).
      exists i, t. split; [|split; [apply list_elem_of_In, Ht|exact Hempty]].
      apply list_elem_of_In in Hi. unfold slot_indices in Hi.
      apply list_elem_of_fmap in Hi as (n & -> & Hn).
      apply list_elem_of_In, in_seq in Hn. lia.
    - intros (i & t & Hi & Ht & Hempty). exists i. split.
      + apply list_elem_of_In. unfold slot_indices. apply list_elem_of_fmap.
        exists (Z.to_nat i). split; [lia|]. apply list_elem_of_In, in_seq. lia.
      + apply existsb_exists. exists t. split; [apply list_elem_of_In, Ht|].
        exact Hempty. }
  split; [exact Hiff|]. intros Hall.
  apply not_false_iff_true. intros Hf. apply Hiff in Hf as (i & t & Hi & Ht & He).
  rewrite (Hall i t Hi Ht) in He. discriminate.
Qed.

Lemma find_table_replaced (st : @db_state table_body) m t t' m' :
  find_table hash_32 st m = Some t →
  mark t' = m →
  find_table hash_32
    (mk_db (set_slot (hash_32 m (power st))
              (replace_table m t' (db st (hash_32 m (power st)))) (db st))
       (power st) (values st)) m'
  = if m' =? m then Some t' else find_table hash_32 st m'.
Proof.
  intros Hfound Hmark. destruct (Z.eqb_spec m' m) as [->|Hne].
  - rewrite find_table_set_slot_same. eapply find_replace_table; eassumption.
  - destruct (Z.eq_dec (hash_32 m' (power st)) (hash_32 m (power st)))
      as [Heq|Hneq].
    + unfold find_table at 1. unfold set_slot. simpl.
      rewrite Heq, Z.eqb_refl.
      rewrite (find_replace_table_other m m' t' _ Hne Hmark).
      unfold find_table. rewrite Heq. reflexivity.
    + apply find_table_set_slot_other, Hneq.
Qed.

Lemma find_table_mark (st : @db_state table_body) m t :
  find_table hash_32 st m = Some t → mark t = m.
Proof.
  unfold find_table. intros H. apply find_some in H as [_ H].
  apply Z.eqb_eq, H.
Qed.

(** X19. [pool4db_rm] and [pool4db_flush] never unlink a table: as
    long as the tables keep their marks, the same marks have a table
    afterwards and as many tables are counted, whatever the table
    answers and also when it is left without samples. For a mark that
    has no table both answer [-ESRCH] and leave the database as it
    is. *)
Theorem pool4db_rm_and_flush_keep_tables (st : @db_state table_body) m sample :
  (∀ t, mark (pool4table_rm t sample).2 = mark t) →
  (∀ t, mark (pool4table_flush t) = mark t) →
  let gone := pool4db_rm hash_32 pool4table_rm st m sample in
  let flushed := pool4db_flush hash_32 pool4table_flush st m in
  values gone.2 = values st ∧ values flushed.2 = values st ∧
  (∀ m', is_Some (find_table hash_32 gone.2 m')
         ↔ is_Some (find_table hash_32 st m')) ∧
  (∀ m', is_Some (find_table hash_32 flushed.2 m')
         ↔ is_Some (find_table hash_32 st m')) ∧
  (∀ t, find_table hash_32 st m = Some t →
        gone.1 = (pool4table_rm t sample).1 ∧
        find_table hash_32 gone.2 m = Some (pool4table_rm t sample).2 ∧
        flushed.1 = 0 ∧
        find_table hash_32 flushed.2 m = Some (pool4table_flush t)) ∧
  (find_table hash_32 st m = None →
   gone = (- ESRCH, st) ∧ flushed = (- ESRCH, st)).
Proof.
  intros Hrm Hflush. cbv zeta. unfold pool4db_rm, pool4db_flush.
  destruct (find_table hash_32 st m) as [t|] eqn:Hfound.
  - pose proof (find_table_mark _ _ _ Hfound) as Hmark.
    pose proof (Hrm t) as Hrm'. rewrite Hmark in Hrm'.
    pose proof (Hflush t) as Hflush'. rewrite Hmark in Hflush'.
    destruct (pool4table_rm t sample) as [error t'] eqn:Hout. simpl in *.
    split; [reflexivity|]. split; [reflexivity|].
    split; [|split; [|split; [|discriminate]]].
    + intros m'. rewrite (find_table_replaced st m t t' m' Hfound Hrm').
      destruct (Z.eqb_spec m' m) as [->|]; [|reflexivity].
      rewrite Hfound. split; intros _; eexists; reflexivity.
    + intros m'.
      rewrite (find_table_replaced st m t _ m' Hfound Hflush').
      destruct (Z.eqb_spec m' m) as [->|]; [|reflexivity].
      rewrite Hfound. split; intros _; eexists; reflexivity.
    + intros t0 [= <-]. rewrite Hout. simpl. split; [reflexivity|].
      rewrite (find_table_replaced st m t t' m Hfound Hrm'), Z.eqb_refl.
      split; [reflexivity|]. split; [reflexivity|].
      rewrite (find_table_replaced st m t _ m Hfound Hflush'), Z.eqb_refl.
      reflexivity.
  - simpl. split; [reflexivity|]. split; [reflexivity|].
    split; [reflexivity|]. split; [reflexivity|].
    split; [discriminate|]. intros _. split; reflexivity.
Qed.

End WithTables.

(** X15, on the sample database: mark 2 gets its table. *)
Lemma pool4db_add_new_mark_witness :
  (pool4db_add hash_32_linux sample_create sample_add sample_db 2
     (0xc6336401, 80)).1 = 0 ∧
  find_table hash_32_linux
    (pool4db_add hash_32_linux sample_create sample_add sample_db 2
       (0xc6336401, 80)).2 2
  = Some (sample_add (mk_table 2 []) (0xc6336401, 80)).2 ∧
  values (pool4db_add hash_32_linux sample_create sample_add sample_db 2
            (0xc6336401, 80)).2 = u32 (values sample_db + 1) ∧
  (∀ addr,
     pool4db_contains sample_contains hash_32_linux
       (pool4db_add hash_32_linux sample_create sample_add sample_db 2
          (0xc6336401, 80)).2 2 addr
     = sample_contains (sample_add (mk_table 2 []) (0xc6336401, 80)).2 addr) ∧
  (∀ m', m' ≠ 2 →
     find_table hash_32_linux
       (pool4db_add hash_32_linux sample_create sample_add sample_db 2
          (0xc6336401, 80)).2 m'
     = find_table hash_32_linux sample_db m').
Proof.
  exact (pool4db_add_new_mark sample_contains hash_32_linux sample_create
           sample_add sample_db 2 (0xc6336401, 80) eq_refl eq_refl).
Defined.

(** X16, on the sample database: the table of mark 1 takes another
    address. *)
Lemma pool4db_add_known_mark_witness :
  (pool4db_add hash_32_linux sample_create sample_add sample_db 1
     (0xc6336401, 80)).1
  = (sample_add (mk_table 1 [(0xc6336401, 1024)]) (0xc6336401, 80)).1 ∧
  find_table hash_32_linux
    (pool4db_add hash_32_linux sample_create sample_add sample_db 1
       (0xc6336401, 80)).2 1
  = Some (sample_add (mk_table 1 [(0xc6336401, 1024)]) (0xc6336401, 80)).2 ∧
  values (pool4db_add hash_32_linux sample_create sample_add sample_db 1
            (0xc6336401, 80)).2 = values sample_db ∧
  (∀ m', m' ≠ 1 →
     find_table hash_32_linux
       (pool4db_add hash_32_linux sample_create sample_add sample_db 1
          (0xc6336401, 80)).2 m'
     = find_table hash_32_linux sample_db m').
Proof.
  exact (pool4db_add_known_mark hash_32_linux sample_create sample_add
           sample_db 1 (0xc6336401, 80) (mk_table 1 [(0xc6336401, 1024)])
           eq_refl eq_refl).
Defined.

(** X17, on the sample database: 198.51.100.1, port 1024, under
    mark 1. *)
Lemma pool4db_contains_implies_contains_all_witness :
  pool4db_contains sample_contains hash_32_linux sample_db 1
    (mk_taddr 0xc6336401 1024)
  = sample_contains (mk_table 1 [(0xc6336401, 1024)])
      (mk_taddr 0xc6336401 1024) ∧
  (pool4db_contains sample_contains hash_32_linux sample_db 1
     (mk_taddr 0xc6336401 1024) = true →
   pool4db_contains_all sample_contains sample_db (mk_taddr 0xc6336401 1024)
   = true).
Proof.
  apply (pool4db_contains_implies_contains_all sample_contains hash_32_linux
           sample_db 1 (mk_table 1 [(0xc6336401, 1024)])
           (mk_taddr 0xc6336401 1024)).
  - reflexivity.
  - vm_compute. split; [intros H; discriminate H|reflexivity].
Defined.

(** X19, on the sample database: the only address of mark 1 is taken
    out, and the table is flushed. *)
Lemma pool4db_rm_and_flush_keep_tables_witness :
  values (pool4db_rm hash_32_linux sample_rm sample_db 1
            (0xc6336401, 1024)).2 = values sample_db ∧
  values (pool4db_flush hash_32_linux sample_flush sample_db 1).2
  = values sample_db ∧
  (∀ m', is_Some (find_table hash_32_linux
                    (pool4db_rm hash_32_linux sample_rm sample_db 1
                       (0xc6336401, 1024)).2 m')
         ↔ is_Some (find_table hash_32_linux sample_db m')) ∧
  (∀ m', is_Some (find_table hash_32_linux
                    (pool4db_flush hash_32_linux sample_flush sample_db 1).2 m')
         ↔ is_Some (find_table hash_32_linux sample_db m')) ∧
  (∀ t, find_table hash_32_linux sample_db 1 = Some t →
        (pool4db_rm hash_32_linux sample_rm sample_db 1 (0xc6336401, 1024)).1
        = (sample_rm t (0xc6336401, 1024)).1 ∧
        find_table hash_32_linux
          (pool4db_rm hash_32_linux sample_rm sample_db 1
             (0xc6336401, 1024)).2 1
        = Some (sample_rm t (0xc6336401, 1024)).2 ∧
        (pool4db_flush hash_32_linux sample_flush sample_db 1).1 = 0 ∧
        find_table hash_32_linux
          (pool4db_flush hash_32_linux sample_flush sample_db 1).2 1
        = Some (sample_flush t)) ∧
  (find_table hash_32_linux sample_db 1 = None →
   pool4db_rm hash_32_linux sample_rm sample_db 1 (0xc6336401, 1024)
   = (- ESRCH, sample_db) ∧
   pool4db_flush hash_32_linux sample_flush sample_db 1
   = (- ESRCH, sample_db)).
Proof.
  exact (pool4db_rm_and_flush_keep_tables hash_32_linux sample_rm sample_flush
           sample_db 1 (0xc6336401, 1024) (λ t, eq_refl) (λ t, eq_refl)).
Defined.

End Pool4dbCoverage.

(* ===================================================================== *)
(** ** More on include/nf_nat64_filtering_and_updating.h *)
(* ===================================================================== *)

Module FilteringCoverage.
Import Machine Filtering FilteringFacts.

Lemma u16_range x : 0 ≤ u16 x < 65536.
Proof. unfold u16, wrap. apply Z.mod_pos_bound. reflexivity. Qed.

Lemma in6_addr_equal_refl a : in6_addr_equal a a = true.
Proof. unfold in6_addr_equal. rewrite !Z.eqb_refl. reflexivity. Qed.

(** X7. With memory for both objects [bib_session_create] answers the
    new BIB entry, and the entry and its session are found at once:
    [bib_ipv6_lookup] finds the entry by the IPv6 source address and
    port, [bib_ipv4_lookup] by the IPv4 transport address drawn for it,
    and [session_ipv4_lookup] finds the session by the IPv4
    destination. This holds also when no transport address is left to
    draw: the entry then carries the port 65535 and the address
    255.255.255.255. *)
Theorem bib_session_create_then_lookups
    HZ get_tranport_addr little_endian b s saddr in6_daddr daddr sport dport
    protocol ty w :
  let drawn := (get_tranport_addr (free_udp_transport_addr w)).1 in
  let port4 :=
    match drawn with
    | Some ta => u16 (ntohs little_endian (port ta))
    | None => 65535
    end in
  let addr4 :=
    match drawn with
    | Some ta => address ta
    | None => 0xffffffff
    end in
  ∃ w',
    bib_session_create HZ get_tranport_addr little_endian (Some b) (Some s)
      saddr in6_daddr daddr sport dport protocol ty w = Some (Some b, w') ∧
    bib_cache w' !! b = Some (mk_bib protocol saddr addr4 sport port4 [s]) ∧
    bib_ipv6_lookup saddr sport protocol w' = Some (Some b) ∧
    bib_ipv4_lookup addr4 port4 protocol w' = Some (Some b) ∧
    session_ipv4_lookup b daddr dport w' = Some (Some s).
Proof.
  cbv zeta. unfold bib_session_create.
  destruct (get_tranport_addr (free_udp_transport_addr w)) as [drawn free'].
  cbn [fst].
  set (port4 := match drawn with
                | Some ta => u16 (ntohs little_endian (port ta))
                | None => 65535 end).
  set (addr4 := match drawn with
                | Some ta => address ta
                | None => 0xffffffff end).
  assert (Hpair :
    match drawn with
    | Some ta => (u16 (ntohs little_endian (port ta)), address ta)
    | None => (u16 (-1), u32 (-1))
    end = (port4, addr4)) by (destruct drawn; reflexivity).
  rewrite Hpair.
  assert (Hport : (port4 <? 0) = false).
  { apply Z.ltb_ge. subst port4. destruct drawn; [apply u16_range|lia]. }
  rewrite Hport. cbn [bib_create].
  unfold session_create. cbn. rewrite lookup_insert_eq. cbn.
  eexists. split; [reflexivity|]. cbn.
  split; [apply lookup_insert_eq|].
  unfold bib_ipv6_lookup, bib_ipv4_lookup, session_ipv4_lookup, nat64_hash4.
  cbn. unfold hlist_add_head. rewrite !Z.eqb_refl. cbn.
  rewrite !lookup_insert_eq. cbn.
  rewrite !Z.eqb_refl, in6_addr_equal_refl. cbn.
  split; [reflexivity|]. split; [reflexivity|].
  rewrite lookup_insert_eq. cbn. rewrite !Z.eqb_refl. reflexivity.
Qed.

(** X20. When the entries its list insertions write to are allocated
    (the first entry of each of the two chains the BIB entry is put
    on, and the last session of the queue), [bib_session_create]
    returns, and it answers [NULL] exactly when the allocator has no
    memory for the BIB entry or for the session: an empty list of
    transport addresses does not stop it. Whatever it answers, the
    transport address it drew stays off the free list, and the pools of
    [pool4.c] are not asked. Without memory for the BIB entry nothing
    else changes. *)
Theorem bib_session_create_fails_only_without_memory
    HZ get_tranport_addr little_endian bib_mem st_mem saddr in6_daddr daddr
    sport dport protocol ty w :
  let port4 :=
    match (get_tranport_addr (free_udp_transport_addr w)).1 with
    | Some ta => u16 (ntohs little_endian (port ta))
    | None => 65535
    end in
  (∀ first, head (hash6 w (nat64_hash6 saddr sport)) = Some first →
            is_Some (bib_cache w !! first)) →
  (∀ first, head (hash4 w port4) = Some first →
            is_Some (bib_cache w !! first)) →
  (∀ tail, last (queue (expiry_base w ty)) = Some tail →
           is_Some (st_cache w !! tail)) →
  ∃ r w',
    bib_session_create HZ get_tranport_addr little_endian bib_mem st_mem
      saddr in6_daddr daddr sport dport protocol ty w = Some (r, w') ∧
    (r = None ↔ bib_mem = None ∨ st_mem = None) ∧
    (r ≠ None → r = bib_mem) ∧
    free_udp_transport_addr w'
    = (get_tranport_addr (free_udp_transport_addr w)).2 ∧
    pool4 w' = pool4 w ∧
    (bib_mem = None →
     w' = with_free_udp (get_tranport_addr (free_udp_transport_addr w)).2 w).
Proof.
  intros port4' _ _ _. clear port4'.
  unfold bib_session_create.
  destruct (get_tranport_addr (free_udp_transport_addr w)) as [drawn free'].
  cbn [snd].
  set (port4 := match drawn with
                | Some ta => u16 (ntohs little_endian (port ta))
                | None => 65535 end).
  set (addr4 := match drawn with
                | Some ta => address ta
                | None => 0xffffffff end).
  assert (Hpair :
    match drawn with
    | Some ta => (u16 (ntohs little_endian (port ta)), address ta)
    | None => (u16 (-1), u32 (-1))
    end = (port4, addr4)) by (destruct drawn; reflexivity).
  rewrite Hpair.
  assert (Hport : (port4 <? 0) = false).
  { apply Z.ltb_ge. subst port4. destruct drawn; [apply u16_range|lia]. }
  rewrite Hport.
  destruct bib_mem as [b|]; cbn [bib_create].
  - destruct st_mem as [s|]; unfold session_create; cbn.
    + rewrite lookup_insert_eq. cbn. eexists _, _. split; [reflexivity|].
      cbn. split; [|repeat split; try reflexivity; discriminate].
      split; [discriminate|]. intros [H|H]; discriminate H.
    + eexists _, _. split; [reflexivity|]. cbn.
      split; [|repeat split; try reflexivity; try discriminate; congruence].
      split; [right; reflexivity|reflexivity].
  - eexists _, _. split; [reflexivity|]. cbn.
    split; [|repeat split; try reflexivity; congruence].
    split; [left; reflexivity|reflexivity].
Qed.

Lemma count_unlink s' s l :
  count_occ Pos.eq_dec (unlink s l) s'
  = if decide (s' = s) then 0%nat else count_occ Pos.eq_dec l s'.
Proof.
  unfold unlink. induction l as [|x l IH].
  - destruct (decide (s' = s)); reflexivity.
  - destruct (decide (x = s)) as [->|Hx].
    + rewrite filter_cons_False by (intros H; apply H; reflexivity).
      rewrite IH. destruct (decide (s' = s)) as [->|Hs]; [reflexivity|].
      simpl. destruct (Pos.eq_dec s s'); [congruence|reflexivity].
    + rewrite filter_cons_True by exact Hx. simpl. rewrite IH.
      destruct (Pos.eq_dec x s') as [->|Hxs].
      * destruct (decide (s' = s)); [contradiction|reflexivity].
      * reflexivity.
Qed.

Lemma times_queued_dequeue e s s' :
  times_queued (dequeue s e) s'
  = if decide (s' = s) then 0%nat else times_queued e s'.
Proof.
  unfold times_queued, dequeue. simpl. rewrite !count_unlink.
  destruct (decide (s' = s)); reflexivity.
Qed.

Lemma times_queued_enqueue e s ty s' :
  times_queued (enqueue_tail s ty e) s'
  = (times_queued e s' + if decide (s' = s) then 1 else 0)%nat.
Proof.
  unfold times_queued, enqueue_tail.
  destruct ty; simpl; rewrite count_occ_app; simpl;
    destruct (Pos.eq_dec s s'); destruct (decide (s' = s));
    try congruence; lia.
Qed.

Lemma session_renew_queued HZ s ty w w' :
  sessions_queued_once w →
  session_renew HZ s ty w = Some w' →
  sessions_queued_once w'.
Proof.
  intros Hinv. unfold session_renew.
  destruct (st_cache w !! s) as [se|] eqn:Hs; [|discriminate].
  simpl. intros [= <-] s'. simpl.
  rewrite times_queued_enqueue, times_queued_dequeue.
  destruct (decide (s' = s)) as [->|Hne].
  - rewrite lookup_insert_eq. reflexivity.
  - rewrite lookup_insert_ne by congruence. rewrite Hinv. lia.
Qed.

Lemma store_state_queued s x w w' :
  sessions_queued_once w →
  store_state s x w = Some w' →
  sessions_queued_once w'.
Proof.
  intros Hinv. unfold store_state.
  destruct (st_cache w !! s) as [se|] eqn:Hs; [|discriminate].
  simpl. intros [= <-] s'. simpl.
  destruct (decide (s' = s)) as [->|Hne].
  - rewrite lookup_insert_eq, Hinv, Hs. reflexivity.
  - rewrite lookup_insert_ne by congruence. apply Hinv.
Qed.

Lemma renew_store_queued HZ s ty x w w' :
  sessions_queued_once w →
  session_renew HZ s ty w ≫= store_state s x = Some w' →
  sessions_queued_once w'.
Proof.
  intros Hinv H.
  destruct (session_renew HZ s ty w) as [w1|] eqn:Hr; [|discriminate].
  simpl in H. eapply store_state_queued; [|exact H].
  eapply session_renew_queued; eassumption.
Qed.

Ltac queued_step :=
  match goal with
  | H : Some _ = Some _ |- _ => injection H as <-; assumption
  | H : session_renew _ _ _ _ = Some _ |- _ =>
      eapply session_renew_queued; [|exact H]; assumption
  | H : store_state _ _ _ = Some _ |- _ =>
      eapply store_state_queued; [|exact H]; assumption
  | H : session_renew _ _ _ _ ≫= _ = Some _ |- _ =>
      eapply renew_store_queued; [|exact H]; assumption
  end.

Lemma tcp_fsm_queued HZ d s h w w' :
  sessions_queued_once w →
  tcp_fsm HZ d s h w = Some w' →
  sessions_queued_once w'.
Proof.
  intros Hinv.
  destruct d; unfold tcp_fsm, tcp6_fsm, tcp4_fsm;
    (destruct (st_cache w !! s) as [se|]; [|discriminate]); simpl;
    destruct (state se); destruct h as [[] [] []]; simpl; intros H;
    queued_step.
Qed.

Lemma tcp_timeout_fsm_queued HZ s w g w' :
  sessions_queued_once w →
  tcp_timeout_fsm HZ s w = Some (g, w') →
  sessions_queued_once w'.
Proof.
  intros Hinv. unfold tcp_timeout_fsm.
  destruct (st_cache w !! s) as [se|]; [|discriminate]. simpl.
  destruct (decide (state se = ESTABLISHED)).
  - destruct (session_renew HZ s TCP_TRANS w) as [w1|] eqn:Hr; [|discriminate].
    simpl. destruct (store_state s FOUR_MIN w1) as [w2|] eqn:Hst;
      [|discriminate].
    simpl. intros [= _ <-].
    eapply store_state_queued; [|exact Hst].
    eapply session_renew_queued; eassumption.
  - intros [= _ <-]. exact Hinv.
Qed.

Lemma clean_session_queued HZ s w c w' :
  sessions_queued_once w →
  clean_session HZ s w = Some (c, w') →
  sessions_queued_once w'.
Proof.
  intros Hinv. unfold clean_session.
  destruct (st_cache w !! s) as [se|]; [|discriminate]. simpl.
  destruct (time_after (jiffies w) (expires se)).
  - destruct (tcp_timeout_fsm HZ s w) as [[g w1]|] eqn:Hg; [|discriminate].
    pose proof (tcp_timeout_fsm_queued _ _ _ _ _ Hinv Hg) as Hinv1.
    simpl. destruct (negb (g =? 0)).
    + intros [= _ <-]. exact Hinv1.
    + simpl. destruct (bib_cache w1 !! ring se) as [b|]; [|discriminate].
      simpl. intros [= _ <-] s'.
      destruct (unlink s (sessions b)); simpl;
        rewrite times_queued_dequeue;
        (destruct (decide (s' = s)) as [->|Hne];
         [rewrite lookup_delete_eq; reflexivity
         |rewrite lookup_delete_ne by congruence; apply Hinv1]).
  - intros [= _ <-]. exact Hinv.
Qed.

Lemma clean_loop_queued HZ q fuel :
  ∀ pos w w',
    sessions_queued_once w →
    clean_loop HZ fuel q pos w = Some w' →
    sessions_queued_once w'.
Proof.
  induction fuel as [|fuel IH]; intros pos w w' Hinv H.
  - destruct pos; [discriminate|]. injection H as <-. exact Hinv.
  - destruct pos as [s|]; [|injection H as <-; exact Hinv].
    cbn [clean_loop] in H.
    destruct (clean_session HZ s w) as [[c w1]|] eqn:Hc; [|discriminate].
    simpl in H. pose proof (clean_session_queued _ _ _ _ _ Hinv Hc) as Hinv1.
    destruct c; [eapply IH; eassumption|].
    injection H as <-. exact Hinv1.
Qed.

Lemma bib_session_create_queued
    HZ get_tranport_addr little_endian bib_mem st_mem saddr in6_daddr daddr
    sport dport protocol ty w r w' :
  sessions_queued_once w →
  (∀ s, st_mem = Some s → st_cache w !! s = None) →
  bib_session_create HZ get_tranport_addr little_endian bib_mem st_mem
    saddr in6_daddr daddr sport dport protocol ty w = Some (r, w') →
  sessions_queued_once w'.
Proof.
  intros Hinv Hfresh. unfold bib_session_create.
  destruct (get_tranport_addr (free_udp_transport_addr w)) as [drawn free'].
  destruct (match drawn with
            | Some ta => (u16 (ntohs little_endian (port ta)), address ta)
            | None => (u16 (-1), u32 (-1))
            end) as [port4 addr4].
  destruct (port4 <? 0); [intros [= _ <-]; exact Hinv|].
  destruct bib_mem as [b|]; cbn [bib_create]; [|intros [= _ <-]; exact Hinv].
  destruct st_mem as [s|]; unfold session_create; cbn.
  - rewrite lookup_insert_eq. cbn. intros [= _ <-] s'. cbn.
    rewrite times_queued_enqueue.
    destruct (decide (s' = s)) as [->|Hne].
    + rewrite lookup_insert_eq, Hinv, (Hfresh s eq_refl). reflexivity.
    + rewrite lookup_insert_ne by congruence. rewrite Hinv. lia.
  - intros [= _ <-]. exact Hinv.
Qed.

(** X21. Every allocated session is linked once, on one of the five
    expiry queues, and nothing else is linked on them: what holds
    before [session_renew], [tcp4_fsm], [tcp6_fsm], [tcp_timeout_fsm],
    a run of the reaper, or [bib_session_create] with a session object
    that was not in use, holds after it. *)
Theorem sessions_stay_queued_once HZ get_tranport_addr little_endian w :
  sessions_queued_once w →
  (∀ s ty w', session_renew HZ s ty w = Some w' → sessions_queued_once w') ∧
  (∀ s h w', tcp4_fsm HZ s h w = Some w' → sessions_queued_once w') ∧
  (∀ s h w', tcp6_fsm HZ s h w = Some w' → sessions_queued_once w') ∧
  (∀ s g w', tcp_timeout_fsm HZ s w = Some (g, w') → sessions_queued_once w') ∧
  (∀ fuel q w',
     clean_expired_sessions HZ fuel q w = Some w' → sessions_queued_once w') ∧
  (∀ bib_mem st_mem saddr in6_daddr daddr sport dport protocol ty r w',
     (∀ s, st_mem = Some s → st_cache w !! s = None) →
     bib_session_create HZ get_tranport_addr little_endian bib_mem st_mem
       saddr in6_daddr daddr sport dport protocol ty w = Some (r, w') →
     sessions_queued_once w').
Proof.
  intros Hinv. repeat split.
  - intros s ty w'. apply session_renew_queued, Hinv.
  - intros s h w'. apply (tcp_fsm_queued HZ FromV4), Hinv.
  - intros s h w'. apply (tcp_fsm_queued HZ FromV6), Hinv.
  - intros s g w'. apply tcp_timeout_fsm_queued, Hinv.
  - intros fuel q w' Hrun. unfold clean_expired_sessions in Hrun.
    exact (clean_loop_queued _ _ _ _ _ _ Hinv Hrun).
  - intros bib_mem st_mem saddr in6_daddr daddr sport dport protocol ty r w'.
    apply bib_session_create_queued, Hinv.
Qed.

Lemma unlink_twice s l : unlink s (unlink s l) = unlink s l.
Proof. apply unlink_notin, unlink_not_in. Qed.

Lemma unlink_app s l k : unlink s (l ++ k) = unlink s l ++ unlink s k.
Proof. apply filter_app. Qed.

Lemma set_expires_twice e e' se :
  set_expires e (set_expires e' se) = set_expires e se.
Proof. reflexivity. Qed.

Lemma NoDup_unlink s l : NoDup l → NoDup (unlink s l).
Proof. apply NoDup_filter. Qed.

(** X22. [session_renew] of an allocated session leaves the session at
    the tail of the queue asked for and on no other queue, with the
    deadline [jiffies] plus the [int] product of the timeout of that
    queue and [HZ] (the timeout in ticks, as long as that product is in
    the range of [int]), and keeps the other sessions of every queue in
    their order; a queue that held no session twice holds none twice
    afterwards. Renewing again at the same time changes nothing
    more. *)
Theorem session_renew_moves_to_tail HZ s se ty w :
  st_cache w !! s = Some se →
  ∃ w',
    session_renew HZ s ty w = Some w' ∧
    st_cache w'
    = <[s := set_expires
               (ulong (jiffies w + sint (timeout (expiry_base w ty) * HZ)))
               se]> (st_cache w) ∧
    (- 2 ^ 31 ≤ timeout (expiry_base w ty) * HZ < 2 ^ 31 →
     expires <$> st_cache w' !! s
     = Some (ulong (jiffies w + timeout (expiry_base w ty) * HZ))) ∧
    queue (expiry_base w' ty) = unlink s (queue (expiry_base w ty)) ++ [s] ∧
    (∀ q, q ≠ ty →
          queue (expiry_base w' q) = unlink s (queue (expiry_base w q))) ∧
    (∀ q, timeout (expiry_base w' q) = timeout (expiry_base w q)) ∧
    (∀ q, NoDup (queue (expiry_base w q)) → NoDup (queue (expiry_base w' q))) ∧
    ∃ w'',
      session_renew HZ s ty w' = Some w'' ∧
      st_cache w'' = st_cache w' ∧
      ∀ q, expiry_base w'' q = expiry_base w' q.
Proof.
  intros Hs. rewrite (session_renew_eq _ _ _ _ _ Hs).
  eexists. split; [reflexivity|]. cbn.
  assert (Hty : queue (enqueue_tail s ty (dequeue s (expiry_base w)) ty)
                = unlink s (queue (expiry_base w ty)) ++ [s]).
  { unfold enqueue_tail, dequeue.
    destruct (decide (ty = ty)); [reflexivity|congruence]. }
  assert (Hother : ∀ q, q ≠ ty →
            queue (enqueue_tail s ty (dequeue s (expiry_base w)) q)
            = unlink s (queue (expiry_base w q))).
  { intros q Hq. unfold enqueue_tail, dequeue.
    destruct (decide (q = ty)); [contradiction|reflexivity]. }
  assert (Htime : ∀ q,
            timeout (enqueue_tail s ty (dequeue s (expiry_base w)) q)
            = timeout (expiry_base w q)).
  { intros q. unfold enqueue_tail, dequeue.
    destruct (decide (q = ty)); reflexivity. }
  split; [reflexivity|]. split.
  { intros Hfit. rewrite lookup_insert_eq. simpl.
    rewrite (sint_small _ Hfit). reflexivity. }
  split; [exact Hty|]. split; [exact Hother|].
  split; [exact Htime|]. split.
  - intros q Hnd. destruct (decide (q = ty)) as [->|Hq].
    + rewrite Hty. apply NoDup_app. split; [apply NoDup_unlink, Hnd|].
      split; [|apply NoDup_singleton].
      intros x Hx Hx'. apply list_elem_of_singleton in Hx'. subst x.
      exact (unlink_not_in _ _ Hx).
    + rewrite (Hother q Hq). apply NoDup_unlink, Hnd.
  - erewrite session_renew_eq by (cbn; apply lookup_insert_eq).
    eexists. split; [reflexivity|]. cbn. split.
    + rewrite insert_insert_eq, Htime. reflexivity.
    + intros q. unfold enqueue_tail, dequeue. cbn.
      destruct (decide (q = ty)) as [->|Hq]; cbn.
      * change (filter (λ y : ptr, y ≠ s)
                  (unlink s (queue (expiry_base w ty)) ++ [s]))
          with (unlink s (unlink s (queue (expiry_base w ty)) ++ [s])).
        rewrite unlink_app, unlink_twice, unlink_single, app_nil_r.
        reflexivity.
      * change (filter (λ y : ptr, y ≠ s) (unlink s (queue (expiry_base w q))))
          with (unlink s (unlink s (queue (expiry_base w q)))).
        rewrite unlink_twice. reflexivity.
Qed.

(** The product of the timeout and [HZ] wraps as an [int]: with a
    timeout of 10000000 seconds and 250 ticks a second, a session
    renewed at tick 5000000000 gets a deadline in the past. *)
Example session_renew_deadline_wraps :
  expires
    <$> (session_renew 250 2%positive UDP_DEFAULT
           (with_expiry_base
              (λ t, mk_expiry_q (queue (expiry_base w_udp_flow t)) 10000000)
              (with_jiffies 5000000000 w_udp_flow))
         ≫= λ w', st_cache w' !! 2%positive)
  = Some 3205032704.
Proof. vm_compute. reflexivity. Qed.

(** X23. The reaper stops at the first session of the queue that has
    not expired: when that is the head of the queue, nothing is freed
    and nothing changes, whatever the age of the sessions behind
    it. *)
Theorem reaper_stops_at_first_unexpired HZ q s rest se fuel w :
  queue (expiry_base w q) = s :: rest →
  st_cache w !! s = Some se →
  time_after (jiffies w) (expires se) = false →
  clean_expired_sessions HZ (S fuel) q w = Some w ∧
  clean_expired_sessions_tcp HZ (S fuel) q w = Some w.
Proof.
  intros Hq Hs Hexp.
  assert (H : clean_expired_sessions HZ (S fuel) q w = Some w).
  { unfold clean_expired_sessions. rewrite Hq. cbn [head clean_loop].
    unfold clean_session. rewrite Hs. cbn. rewrite Hexp. reflexivity. }
  split; exact H.
Qed.

Lemma expiry_q_eta e : mk_expiry_q (queue e) (timeout e) = e.
Proof. destruct e; reflexivity. Qed.

Lemma unlink_head_absent (x : ptr) l : x ∉ l → unlink x (x :: l) = l.
Proof.
  intros H. unfold unlink.
  rewrite filter_cons_False by (intros Hx; apply Hx; reflexivity).
  apply unlink_notin, H.
Qed.

(** X24. A flow that is created and then expires leaves the tables as
    they were: after [bib_session_create], with objects that were not
    in use, on a queue that was empty, a run of the reaper once the
    deadline the session was given ([jiffies] plus the [int] product of
    the timeout and [HZ]) has passed frees the session and the BIB
    entry and leaves
    the allocated sessions and entries, both hash tables and all queues
    as before the flow. The free list is the exception: the transport
    address drawn for the flow stays off it. *)
Theorem bib_session_create_then_expiry
    HZ get_tranport_addr little_endian b s saddr in6_daddr daddr sport dport
    protocol ty j w :
  bib_cache w !! b = None →
  st_cache w !! s = None →
  (∀ h, b ∉ hash6 w h) →
  (∀ h, b ∉ hash4 w h) →
  (∀ q, s ∉ queue (expiry_base w q)) →
  queue (expiry_base w ty) = [] →
  time_after j
    (ulong (jiffies w + sint (timeout (expiry_base w ty) * HZ))) = true →
  ∃ w1 w2,
    bib_session_create HZ get_tranport_addr little_endian (Some b) (Some s)
      saddr in6_daddr daddr sport dport protocol ty w = Some (Some b, w1) ∧
    clean_expired_sessions HZ 1 ty (with_jiffies j w1) = Some w2 ∧
    st_cache w2 = st_cache w ∧
    bib_cache w2 = bib_cache w ∧
    (∀ h, hash6 w2 h = hash6 w h) ∧
    (∀ h, hash4 w2 h = hash4 w h) ∧
    (∀ q, expiry_base w2 q = expiry_base w q) ∧
    pool4 w2 = pool4 w ∧
    free_udp_transport_addr w2
    = (get_tranport_addr (free_udp_transport_addr w)).2.
Proof.
  intros Hb Hs H6 H4 Hq Hty Hexp.
  unfold bib_session_create.
  destruct (get_tranport_addr (free_udp_transport_addr w)) as [drawn free'].
  cbn [snd].
  set (port4 := match drawn with
                | Some ta => u16 (ntohs little_endian (port ta))
                | None => 65535 end).
  set (addr4 := match drawn with
                | Some ta => address ta
                | None => 0xffffffff end).
  assert (Hpair :
    match drawn with
    | Some ta => (u16 (ntohs little_endian (port ta)), address ta)
    | None => (u16 (-1), u32 (-1))
    end = (port4, addr4)) by (destruct drawn; reflexivity).
  rewrite Hpair.
  assert (Hport : (port4 <? 0) = false).
  { apply Z.ltb_ge. subst port4. destruct drawn; [apply u16_range|lia]. }
  rewrite Hport. cbn [bib_create].
  unfold session_create. cbn. rewrite lookup_insert_eq. cbn.
  eexists _, _. split; [reflexivity|].
  assert (Hq1 : queue (enqueue_tail s ty (expiry_base w) ty) = [s]).
  { unfold enqueue_tail. rewrite decide_True by reflexivity. cbn.
    rewrite Hty. reflexivity. }
  unfold clean_expired_sessions. cbn. rewrite !Hq1. cbn.
  unfold clean_session. cbn.
  rewrite lookup_insert_eq. cbn. rewrite Hexp.
  unfold tcp_timeout_fsm. cbn. rewrite lookup_insert_eq. cbn.
  destruct (decide (CLOSED = ESTABLISHED)); [discriminate|]. cbn.
  rewrite lookup_insert_eq. cbn.
  rewrite (decide_False (P := s ≠ s)) by (intros Hx; apply Hx; reflexivity).
  destruct (decide (s = s)); [|congruence].
  cbn. split; [reflexivity|]. cbn.
  split; [apply delete_insert_id, Hs|].
  split; [rewrite insert_insert_eq; apply delete_insert_id, Hb|].
  split.
  { intros h. unfold hlist_del, hlist_add_head.
    destruct (h =? nat64_hash6 saddr sport);
      [apply unlink_head_absent, H6|apply unlink_notin, H6]. }
  split.
  { intros h. unfold hlist_del, hlist_add_head.
    destruct (h =? port4);
      [apply unlink_head_absent, H4|apply unlink_notin, H4]. }
  split; [|split; reflexivity].
  intros q. unfold dequeue, enqueue_tail.
  destruct (decide (q = ty)) as [->|Hne]; cbn.
  - rewrite Hty. cbn. rewrite decide_False by (intros Hx; apply Hx; reflexivity).
    rewrite <- Hty. apply expiry_q_eta.
  - change (filter (λ y : ptr, y ≠ s) (queue (expiry_base w q)))
      with (unlink s (queue (expiry_base w q))).
    rewrite (unlink_notin _ _ (Hq q)). apply expiry_q_eta.
Qed.

Lemma session_renew_frame HZ s ty w w' :
  session_renew HZ s ty w = Some w' →
  pool4 w' = pool4 w ∧ free_udp_transport_addr w' = free_udp_transport_addr w.
Proof.
  unfold session_renew. destruct (st_cache w !! s); [|discriminate].
  intros [= <-]. split; reflexivity.
Qed.

Lemma store_state_frame s x w w' :
  store_state s x w = Some w' →
  pool4 w' = pool4 w ∧ free_udp_transport_addr w' = free_udp_transport_addr w.
Proof.
  unfold store_state. destruct (st_cache w !! s); [|discriminate].
  intros [= <-]. split; reflexivity.
Qed.

Lemma tcp_timeout_fsm_frame HZ s w g w' :
  tcp_timeout_fsm HZ s w = Some (g, w') →
  pool4 w' = pool4 w ∧ free_udp_transport_addr w' = free_udp_transport_addr w.
Proof.
  unfold tcp_timeout_fsm. destruct (st_cache w !! s) as [se|]; [|discriminate].
  simpl. destruct (decide (state se = ESTABLISHED)).
  - destruct (session_renew HZ s TCP_TRANS w) as [w1|] eqn:Hr; [|discriminate].
    simpl. destruct (store_state s FOUR_MIN w1) as [w2|] eqn:Hst;
      [|discriminate].
    simpl. intros [= _ <-].
    destruct (session_renew_frame _ _ _ _ _ Hr) as [Hp Hf].
    destruct (store_state_frame _ _ _ _ Hst) as [Hp' Hf'].
    split; congruence.
  - intros [= _ <-]. split; reflexivity.
Qed.

Lemma clean_session_frame HZ s w c w' :
  clean_session HZ s w = Some (c, w') →
  pool4 w' = pool4 w ∧ free_udp_transport_addr w' = free_udp_transport_addr w.
Proof.
  unfold clean_session. destruct (st_cache w !! s) as [se|]; [|discriminate].
  simpl. destruct (time_after (jiffies w) (expires se)).
  - destruct (tcp_timeout_fsm HZ s w) as [[g w1]|] eqn:Hg; [|discriminate].
    destruct (tcp_timeout_fsm_frame _ _ _ _ _ Hg) as [Hp Hf].
    simpl. destruct (negb (g =? 0)).
    + intros [= _ <-]. split; assumption.
    + simpl. destruct (bib_cache w1 !! ring se) as [b|]; [|discriminate].
      simpl. intros [= _ <-].
      destruct (unlink s (sessions b)); split; assumption.
  - intros [= _ <-]. split; reflexivity.
Qed.

Lemma clean_loop_frame HZ q fuel :
  ∀ pos w w',
    clean_loop HZ fuel q pos w = Some w' →
    pool4 w' = pool4 w ∧ free_udp_transport_addr w' = free_udp_transport_addr w.
Proof.
  induction fuel as [|fuel IH]; intros pos w w' H.
  - destruct pos; [discriminate|]. injection H as <-. split; reflexivity.
  - destruct pos as [s|]; [|injection H as <-; split; reflexivity].
    cbn [clean_loop] in H.
    destruct (clean_session HZ s w) as [[c w1]|] eqn:Hc; [|discriminate].
    simpl in H. destruct (clean_session_frame _ _ _ _ _ Hc) as [Hp Hf].
    destruct c.
    + destruct (IH _ _ _ H) as [Hp' Hf']. split; congruence.
    + injection H as <-. split; assumption.
Qed.

(** X25. On a queue that holds no session twice and whose sessions are
    allocated and linked into the ring of an allocated BIB entry, the
    walk of [clean_expired_sessions] comes to an end: two iterations
    for each session of the queue are enough, and more change nothing.
    Whatever the walk frees, it leaves the pools of [pool4.c] and the
    list of free transport addresses as they are. *)
Theorem reaper_returns_and_gives_nothing_back HZ q w :
  queue_wf q w →
  ∃ w',
    clean_expired_sessions HZ (2 * length (queue (expiry_base w q))) q w
    = Some w' ∧
    (∀ fuel, (2 * length (queue (expiry_base w q)) ≤ fuel)%nat →
             clean_expired_sessions HZ fuel q w = Some w' ∧
             clean_expired_sessions_tcp HZ fuel q w = Some w') ∧
    pool4 w' = pool4 w ∧
    free_udp_transport_addr w' = free_udp_transport_addr w.
Proof.
  intros Hwf.
  destruct (clean_expired_sessions_returns HZ q w Hwf) as [w' Hrun].
  exists w'. split; [exact Hrun|].
  split; [|exact (clean_loop_frame _ _ _ _ _ _ Hrun)].
  intros fuel Hfuel.
  assert (H : clean_expired_sessions HZ fuel q w = Some w').
  { unfold clean_expired_sessions in *.
    eapply clean_loop_fuel_mono; [exact Hfuel|exact Hrun]. }
  split; exact H.
Qed.

(** *** [bib_allocate_local4_port] *)

Lemma swab16_range x : 0 ≤ swab16 x < 65536.
Proof.
  unfold swab16.
  assert (Ha : 0 ≤ Z.land x 255 < 256).
  { change 255 with (Z.ones 8). rewrite Z.land_ones by lia.
    apply Z.mod_pos_bound. reflexivity. }
  assert (Hb : 0 ≤ Z.land (Z.shiftr x 8) 255 < 256).
  { change 255 with (Z.ones 8). rewrite Z.land_ones by lia.
    apply Z.mod_pos_bound. reflexivity. }
  rewrite Z.shiftl_mul_pow2 by lia.
  assert (Hdisj : Z.land (Z.land x 255 * 2 ^ 8) (Z.land (Z.shiftr x 8) 255) = 0).
  { apply Z.bits_inj'. intros n Hn. rewrite Z.land_spec, Z.bits_0.
    destruct (Z.ltb_spec n 8).
    - rewrite Z.mul_pow2_bits_low by lia. reflexivity.
    - rewrite (Z.land_spec (Z.shiftr x 8)).
      change 255 with (Z.ones 8). rewrite (Z.ones_spec_high 8 n) by lia.
      rewrite !andb_false_r. reflexivity. }
  rewrite <- Z.lxor_lor by exact Hdisj.
  rewrite <- Z.add_nocarry_lxor by exact Hdisj.
  change (2 ^ 8) with 256. lia.
Qed.

Lemma ntohs_range le x : 0 ≤ x < 65536 → 0 ≤ ntohs le x < 65536.
Proof.
  intros Hx. unfold ntohs, be16_to_cpu. destruct le; [apply swab16_range|lia].
Qed.

Lemma chain_has_type_total ty chain w :
  (∀ b, b ∈ chain → is_Some (bib_cache w !! b)) →
  is_Some (chain_has_type ty chain w).
Proof.
  induction chain as [|b chain IH]; intros Hall; [eexists; reflexivity|].
  simpl. destruct (Hall b) as [e He]; [left|]. rewrite He. simpl.
  destruct (type e =? ty); [eexists; reflexivity|].
  apply IH. intros b' Hb'. apply Hall. right. exact Hb'.
Qed.

Lemma u16_step_parity i d : (u16 (i + 2 * d)) mod 2 = i mod 2.
Proof. unfold u16, wrap. Z.div_mod_to_equations. lia. Qed.

Section Allocation.

Variable little_endian : bool.
Variable ty : Z.
Variable w : world.
Hypothesis allocated : ∀ h b, b ∈ hash4 w h → is_Some (bib_cache w !! b).

Lemma slot_taken_or_free i :
  chain_has_type ty (hash4 w (htons little_endian i)) w = Some true ∨
  port_is_free little_endian ty w i.
Proof.
  unfold port_is_free.
  destruct (chain_has_type_total ty (hash4 w (htons little_endian i)) w)
    as [[] H]; [apply allocated|left; exact H|right; exact H].
Qed.

Lemma allocate_upwards_found fuel :
  ∀ max i r,
    0 ≤ i < 65536 →
    allocate_upwards little_endian fuel ty max i w = Some (Some r) →
    ∃ i', 0 ≤ i' < 65536 ∧ i' mod 2 = i mod 2 ∧
          r = htons little_endian i' ∧ port_is_free little_endian ty w i'.
Proof.
  induction fuel as [|fuel IH]; intros max i r Hi H; [discriminate|].
  cbn [allocate_upwards] in H. destruct (i <=? max); [|discriminate].
  destruct (slot_taken_or_free i) as [Ht|Hf].
  - rewrite Ht in H. simpl in H.
    destruct (IH _ _ _ (u16_range _) H) as (i' & Hi' & Hpar & Hr & Hfree).
    exists i'. split; [exact Hi'|]. split; [|split; assumption].
    rewrite Hpar. apply (u16_step_parity i 1).
  - unfold port_is_free in Hf. rewrite Hf in H. simpl in H.
    injection H as <-. exists i. repeat split; try lia; exact Hf.
Qed.

Lemma allocate_downwards_found fuel :
  ∀ min i r,
    0 ≤ i < 65536 →
    allocate_downwards little_endian fuel ty min i w = Some (Some r) →
    ∃ i', 0 ≤ i' < 65536 ∧ i' mod 2 = i mod 2 ∧
          r = htons little_endian i' ∧ port_is_free little_endian ty w i'.
Proof.
  induction fuel as [|fuel IH]; intros min i r Hi H; [discriminate|].
  cbn [allocate_downwards] in H. destruct (i >=? min); [|discriminate].
  destruct (slot_taken_or_free i) as [Ht|Hf].
  - rewrite Ht in H. simpl in H.
    destruct (IH _ _ _ (u16_range _) H) as (i' & Hi' & Hpar & Hr & Hfree).
    exists i'. split; [exact Hi'|]. split; [|split; assumption].
    rewrite Hpar. apply (u16_step_parity i (-1)).
  - unfold port_is_free in Hf. rewrite Hf in H. simpl in H.
    injection H as <-. exists i. repeat split; try lia; exact Hf.
Qed.

(** With [max] at 65535 the test [i <= max] holds for every [__be16],
    and with [min] at 0 so does [i >= min]: neither loop ends. *)
Lemma allocate_upwards_no_end fuel :
  ∀ i, 0 ≤ i < 65536 →
       allocate_upwards little_endian fuel ty 65535 i w ≠ Some None.
Proof.
  induction fuel as [|fuel IH]; intros i Hi; [discriminate|].
  cbn [allocate_upwards].
  destruct (Z.leb_spec i 65535); [|lia].
  destruct (slot_taken_or_free i) as [Ht|Hf].
  - rewrite Ht. simpl. apply IH, u16_range.
  - unfold port_is_free in Hf. rewrite Hf. discriminate.
Qed.

Lemma allocate_downwards_no_end fuel :
  ∀ i, 0 ≤ i < 65536 →
       allocate_downwards little_endian fuel ty 0 i w ≠ Some None.
Proof.
  induction fuel as [|fuel IH]; intros i Hi; [discriminate|].
  cbn [allocate_downwards].
  destruct (Z.geb_spec i 0); [|lia].
  destruct (slot_taken_or_free i) as [Ht|Hf].
  - rewrite Ht. simpl. apply IH, u16_range.
  - unfold port_is_free in Hf. rewrite Hf. discriminate.
Qed.

(** A free port [k] steps ahead is reached. *)
Lemma allocate_upwards_reaches k :
  ∀ fuel i,
    0 ≤ i < 65536 → (k < fuel)%nat →
    port_is_free little_endian ty w (u16 (i + 2 * Z.of_nat k)) →
    ∃ r, allocate_upwards little_endian fuel ty 65535 i w = Some (Some r).
Proof.
  induction k as [|k IH]; intros fuel i Hi Hfuel Hfree;
    (destruct fuel as [|fuel]; [lia|]); cbn [allocate_upwards];
    (destruct (Z.leb_spec i 65535); [|lia]).
  - replace (u16 (i + 2 * Z.of_nat 0)) with i in Hfree
      by (unfold u16, wrap; rewrite Z.mod_small; lia).
    unfold port_is_free in Hfree. rewrite Hfree. eexists. reflexivity.
  - destruct (slot_taken_or_free i) as [Ht|Hf].
    + rewrite Ht. simpl. apply IH; [apply u16_range|lia|].
      replace (u16 (u16 (i + 2) + 2 * Z.of_nat k))
        with (u16 (i + 2 * Z.of_nat (S k))); [exact Hfree|].
      unfold u16, wrap. rewrite Zplus_mod_idemp_l. f_equal. lia.
    + unfold port_is_free in Hf. rewrite Hf. eexists. reflexivity.
Qed.

Lemma allocate_downwards_reaches k :
  ∀ fuel i,
    0 ≤ i < 65536 → (k < fuel)%nat →
    port_is_free little_endian ty w (u16 (i - 2 * Z.of_nat k)) →
    ∃ r, allocate_downwards little_endian fuel ty 0 i w = Some (Some r).
Proof.
  induction k as [|k IH]; intros fuel i Hi Hfuel Hfree;
    (destruct fuel as [|fuel]; [lia|]); cbn [allocate_downwards];
    (destruct (Z.geb_spec i 0); [|lia]).
  - replace (u16 (i - 2 * Z.of_nat 0)) with i in Hfree
      by (unfold u16, wrap; rewrite Z.mod_small; lia).
    unfold port_is_free in Hfree. rewrite Hfree. eexists. reflexivity.
  - destruct (slot_taken_or_free i) as [Ht|Hf].
    + rewrite Ht. simpl. apply IH; [apply u16_range|lia|].
      replace (u16 (u16 (i - 2) - 2 * Z.of_nat k))
        with (u16 (i - 2 * Z.of_nat (S k))); [exact Hfree|].
      unfold u16, wrap. rewrite Zminus_mod_idemp_l. f_equal. lia.
    + unfold port_is_free in Hf. rewrite Hf. eexists. reflexivity.
Qed.

(** The first loop over the low ports comes to its end. *)
Lemma allocate_upwards_low_returns fuel :
  ∀ i, 0 ≤ i < 65536 → (1 ≤ fuel)%nat → 1027 - i ≤ 2 * Z.of_nat fuel →
       is_Some (allocate_upwards little_endian fuel ty 1023 i w).
Proof.
  induction fuel as [|fuel IH]; intros i Hi H1 Hfuel; [lia|].
  cbn [allocate_upwards]. destruct (Z.leb_spec i 1023); [|eexists; reflexivity].
  destruct (slot_taken_or_free i) as [Ht|Hf].
  - rewrite Ht. simpl.
    assert (Hu : u16 (i + 2) = i + 2)
      by (unfold u16, wrap; rewrite Z.mod_small; lia).
    rewrite Hu. apply IH; lia.
  - unfold port_is_free in Hf. rewrite Hf. eexists. reflexivity.
Qed.

Lemma same_parity_distance i f :
  0 ≤ i < 65536 → 0 ≤ f < 65536 → f mod 2 = i mod 2 →
  ∃ k : nat, Z.of_nat k < 32768 ∧ u16 (i + 2 * Z.of_nat k) = f.
Proof.
  intros Hi Hf Hpar. exists (Z.to_nat (((f - i) mod 65536) / 2)).
  unfold u16, wrap. change (2 ^ 16) with 65536.
  rewrite Z2Nat.id by (Z.div_mod_to_equations; lia).
  split; Z.div_mod_to_equations; lia.
Qed.

Lemma same_parity_distance_down i f :
  0 ≤ i < 65536 → 0 ≤ f < 65536 → f mod 2 = i mod 2 →
  ∃ k : nat, Z.of_nat k < 32768 ∧ u16 (i - 2 * Z.of_nat k) = f.
Proof.
  intros Hi Hf Hpar. exists (Z.to_nat (((i - f) mod 65536) / 2)).
  unfold u16, wrap. change (2 ^ 16) with 65536.
  rewrite Z2Nat.id by (Z.div_mod_to_equations; lia).
  split; Z.div_mod_to_equations; lia.
Qed.

(** X26. [bib_allocate_local4_port] never gives up. The loop counters
    are 16 bits wide, so that [i <= 65535] and [i >= 0] always hold and
    the counter wraps around: the closing [return -1] is never reached.
    Whenever the function returns, the port it returns has the parity
    of the port asked for and no entry of the type on its chain of
    [hash4]; it returns as long as one such port exists, in any range,
    and when none exists it does not return at all. *)
Theorem bib_allocate_local4_port_never_gives_up port :
  0 ≤ port < 65536 →
  let p := ntohs little_endian port in
  (∀ fuel r,
     bib_allocate_local4_port little_endian fuel port ty w = Some r →
     ∃ i, 0 ≤ i < 65536 ∧ i mod 2 = p mod 2 ∧ r = htons little_endian i ∧
          port_is_free little_endian ty w i) ∧
  ((∃ i, 0 ≤ i < 65536 ∧ i mod 2 = p mod 2 ∧
         port_is_free little_endian ty w i) →
   ∀ fuel, 32768 < Z.of_nat fuel →
           is_Some (bib_allocate_local4_port little_endian fuel port ty w)) ∧
  ((∀ i, 0 ≤ i < 65536 → i mod 2 = p mod 2 →
         ¬ port_is_free little_endian ty w i) →
   ∀ fuel, bib_allocate_local4_port little_endian fuel port ty w = None).
Proof.
  intros Hport p. pose proof (ntohs_range little_endian port Hport) as Hp.
  fold p in Hp.
  assert (Hstart : 0 ≤ u16 (p - 2) < 65536) by apply u16_range.
  assert (Hstart_par : u16 (p - 2) mod 2 = p mod 2)
    by apply (u16_step_parity p (-1)).
  assert (Hfound : ∀ fuel r,
     bib_allocate_local4_port little_endian fuel port ty w = Some r →
     ∃ i, 0 ≤ i < 65536 ∧ i mod 2 = p mod 2 ∧ r = htons little_endian i ∧
          port_is_free little_endian ty w i).
  { intros fuel r. unfold bib_allocate_local4_port. cbv zeta. fold p.
    destruct (allocate_upwards little_endian fuel ty
                (if p <? 1024 then 1023 else 65535) p w)
      as [[r1|]|] eqn:Hup; simpl; [| |discriminate].
    - intros [= <-]. apply (allocate_upwards_found _ _ _ _ Hp Hup).
    - destruct (allocate_downwards little_endian fuel ty
                  (if p <? 1024 then 0 else 1024) (u16 (p - 2)) w)
        as [[r2|]|] eqn:Hdown; simpl; [| |discriminate].
      + intros [= <-].
        destruct (allocate_downwards_found _ _ _ _ Hstart Hdown)
          as (i & Hi & Hpar & Hr & Hfree).
        exists i. repeat split; first [lia|assumption|congruence].
      + exfalso. destruct (p <? 1024).
        * exact (allocate_downwards_no_end _ _ Hstart Hdown).
        * exact (allocate_upwards_no_end _ _ Hp Hup). }
  split; [exact Hfound|]. split.
  - intros (f & Hf & Hpar & Hfree) fuel Hfuel.
    unfold bib_allocate_local4_port. cbv zeta. fold p.
    destruct (p <? 1024).
    + assert (Hret : is_Some (allocate_upwards little_endian fuel ty 1023 p w))
        by (apply allocate_upwards_low_returns; lia).
      destruct Hret as [[r|] Hup]; rewrite Hup; simpl; [eexists; reflexivity|].
      destruct (same_parity_distance_down (u16 (p - 2)) f Hstart Hf)
        as (k & Hk & Hkf); [congruence|].
      destruct (allocate_downwards_reaches k fuel (u16 (p - 2)) Hstart)
        as [r Hdown]; [lia|rewrite Hkf; exact Hfree|].
      rewrite Hdown. simpl. eexists. reflexivity.
    + destruct (same_parity_distance p f Hp Hf Hpar) as (k & Hk & Hkf).
      destruct (allocate_upwards_reaches k fuel p Hp) as [r Hup];
        [lia|rewrite Hkf; exact Hfree|].
      rewrite Hup. simpl. eexists. reflexivity.
  - intros Hnone fuel.
    destruct (bib_allocate_local4_port little_endian fuel port ty w)
      as [r|] eqn:Hrun; [|reflexivity].
    destruct (Hfound fuel r Hrun) as (i & Hi & Hpar & _ & Hfree).
    exfalso. exact (Hnone i Hi Hpar Hfree).
Qed.

End Allocation.

Lemma w_tcp_idle_queued_once : sessions_queued_once w_tcp_idle.
Proof.
  intros s. unfold times_queued.
  change (queue (expiry_base w_tcp_idle UDP_DEFAULT)) with (@nil ptr).
  change (queue (expiry_base w_tcp_idle TCP_TRANS)) with (@nil ptr).
  change (queue (expiry_base w_tcp_idle TCP_EST)) with [2%positive].
  change (queue (expiry_base w_tcp_idle TCP_INCOMING_SYN)) with (@nil ptr).
  change (queue (expiry_base w_tcp_idle ICMP_DEFAULT)) with (@nil ptr).
  change (st_cache w_tcp_idle) with (<[2%positive := se_tcp_est]>
                                       (∅ : gmap ptr nat64_st_entry)).
  destruct (Pos.eq_dec 2%positive s) as [<-|Hne].
  - rewrite lookup_insert_eq. reflexivity.
  - rewrite (count_occ_cons_neq Pos.eq_dec _ Hne).
    rewrite lookup_insert_ne by exact Hne. rewrite lookup_empty. reflexivity.
Defined.

(** X21, on the idle sample TCP connection: its session, at address 2,
    is allocated, ESTABLISHED, past its deadline and linked on the
    TCP_EST queue, so that each of the operations has work to do
    there. The new flow takes the objects at addresses 3 and 4. *)
Lemma sessions_stay_queued_once_witness :
  sessions_queued_once w_tcp_idle ∧
  (∃ w', session_renew sample_HZ 2%positive TCP_TRANS w_tcp_idle = Some w' ∧
         queue (expiry_base w' TCP_TRANS) = [2%positive] ∧
         sessions_queued_once w') ∧
  (∃ w', tcp4_fsm sample_HZ 2%positive (mk_tcphdr false true false) w_tcp_idle
         = Some w' ∧
         state <$> st_cache w' !! 2%positive = Some V4_FIN_RCV ∧
         sessions_queued_once w') ∧
  (∃ w', tcp6_fsm sample_HZ 2%positive (mk_tcphdr false false true) w_tcp_idle
         = Some w' ∧
         state <$> st_cache w' !! 2%positive = Some FOUR_MIN ∧
         queue (expiry_base w' TCP_TRANS) = [2%positive] ∧
         sessions_queued_once w') ∧
  (∃ w', tcp_timeout_fsm sample_HZ 2%positive w_tcp_idle = Some (1, w') ∧
         queue (expiry_base w' TCP_TRANS) = [2%positive] ∧
         sessions_queued_once w') ∧
  (∃ w', clean_expired_sessions sample_HZ 2 TCP_EST w_tcp_idle = Some w' ∧
         queue (expiry_base w' TCP_EST) = [] ∧
         queue (expiry_base w' TCP_TRANS) = [2%positive] ∧
         sessions_queued_once w') ∧
  (∃ w', bib_session_create sample_HZ take_first_transport_addr true
           (Some 3%positive) (Some 4%positive) host6 dest6 0xc6336402 40001
           80 6 TCP_TRANS w_tcp_idle = Some (Some 3%positive, w') ∧
         queue (expiry_base w' TCP_TRANS) = [4%positive] ∧
         sessions_queued_once w').
Proof.
  pose proof w_tcp_idle_queued_once as Hinv.
  destruct (sessions_stay_queued_once sample_HZ take_first_transport_addr true
              w_tcp_idle Hinv)
    as (Hrenew & Hfsm4 & Hfsm6 & Htimeout & Hreaper & Hcreate).
  split; [exact Hinv|].
  split.
  { destruct (session_renew sample_HZ 2%positive TCP_TRANS w_tcp_idle)
      as [w'|] eqn:Hrun; [|vm_compute in Hrun; discriminate Hrun].
    exists w'. split; [reflexivity|]. split; [|exact (Hrenew _ _ _ Hrun)].
    vm_compute in Hrun. injection Hrun as <-. reflexivity. }
  split.
  { destruct (tcp4_fsm sample_HZ 2%positive (mk_tcphdr false true false)
                w_tcp_idle)
      as [w'|] eqn:Hrun; [|vm_compute in Hrun; discriminate Hrun].
    exists w'. split; [reflexivity|]. split; [|exact (Hfsm4 _ _ _ Hrun)].
    vm_compute in Hrun. injection Hrun as <-. vm_compute. reflexivity. }
  split.
  { destruct (tcp6_fsm sample_HZ 2%positive (mk_tcphdr false false true)
                w_tcp_idle)
      as [w'|] eqn:Hrun; [|vm_compute in Hrun; discriminate Hrun].
    exists w'. split; [reflexivity|].
    split; [|split; [|exact (Hfsm6 _ _ _ Hrun)]];
      vm_compute in Hrun; injection Hrun as <-; vm_compute; reflexivity. }
  split.
  { destruct (tcp_timeout_fsm sample_HZ 2%positive w_tcp_idle)
      as [[g w']|] eqn:Hrun; [|vm_compute in Hrun; discriminate Hrun].
    assert (Hg : g = 1) by (vm_compute in Hrun; congruence).
    subst g. exists w'. split; [reflexivity|].
    split; [|exact (Htimeout _ _ _ Hrun)].
    vm_compute in Hrun. injection Hrun as <-. reflexivity. }
  split.
  { destruct (clean_expired_sessions sample_HZ 2 TCP_EST w_tcp_idle)
      as [w'|] eqn:Hrun; [|vm_compute in Hrun; discriminate Hrun].
    exists w'. split; [reflexivity|].
    split; [|split; [|exact (Hreaper _ _ _ Hrun)]];
      vm_compute in Hrun; injection Hrun as <-; reflexivity. }
  destruct (bib_session_create sample_HZ take_first_transport_addr true
              (Some 3%positive) (Some 4%positive) host6 dest6 0xc6336402 40001
              80 6 TCP_TRANS w_tcp_idle)
    as [[r w']|] eqn:Hrun; [|vm_compute in Hrun; discriminate Hrun].
  assert (Hr : r = Some 3%positive) by (vm_compute in Hrun; congruence).
  subst r. exists w'. split; [reflexivity|]. split.
  - vm_compute in Hrun. injection Hrun as <-. reflexivity.
  - apply (Hcreate (Some 3%positive) (Some 4%positive) host6 dest6 0xc6336402
             40001 80 6 TCP_TRANS (Some 3%positive) w').
    + intros s [= <-]. vm_compute. reflexivity.
    + exact Hrun.
Defined.

(** X20, for a second flow from the same IPv6 source in the world of
    the sample UDP flow: the chain of [hash6] it goes on starts with
    the BIB entry of the first flow, and the UDP queue ends with the
    session of the first flow. *)
Lemma bib_session_create_fails_only_without_memory_witness :
  ∃ r w',
    bib_session_create sample_HZ take_first_transport_addr true
      (Some 3%positive) (Some 4%positive) host6 dest6 0xc6336402 40000 53 17
      UDP_DEFAULT w_udp_flow = Some (r, w') ∧
    (r = None ↔ Some 3%positive = None ∨ Some 4%positive = None) ∧
    (r ≠ None → r = Some 3%positive) ∧
    free_udp_transport_addr w'
    = (take_first_transport_addr (free_udp_transport_addr w_udp_flow)).2 ∧
    pool4 w' = pool4 w_udp_flow ∧
    (Some 3%positive = None →
     w' = with_free_udp
            (take_first_transport_addr (free_udp_transport_addr w_udp_flow)).2
            w_udp_flow).
Proof.
  apply (bib_session_create_fails_only_without_memory sample_HZ
           take_first_transport_addr true (Some 3%positive) (Some 4%positive)
           host6 dest6 0xc6336402 40000 53 17 UDP_DEFAULT w_udp_flow).
  - intros first Hfirst. vm_compute in Hfirst. injection Hfirst as <-.
    exists bib_udp. vm_compute. reflexivity.
  - intros first Hfirst. vm_compute in Hfirst. discriminate Hfirst.
  - intros tail Htail. vm_compute in Htail. injection Htail as <-.
    exists se_udp. vm_compute. reflexivity.
Defined.

(** X22, on the sample UDP flow. *)
Lemma session_renew_moves_to_tail_witness :
  ∃ w',
    session_renew sample_HZ 2%positive UDP_DEFAULT w_udp_flow = Some w' ∧
    st_cache w'
    = <[2%positive :=
          set_expires
            (ulong (jiffies w_udp_flow
                    + sint (timeout (expiry_base w_udp_flow UDP_DEFAULT)
                            * sample_HZ)))
            se_udp]> (st_cache w_udp_flow) ∧
    (- 2 ^ 31 ≤ timeout (expiry_base w_udp_flow UDP_DEFAULT) * sample_HZ
     < 2 ^ 31 →
     expires <$> st_cache w' !! 2%positive
     = Some (ulong (jiffies w_udp_flow
                    + timeout (expiry_base w_udp_flow UDP_DEFAULT)
                      * sample_HZ))) ∧
    queue (expiry_base w' UDP_DEFAULT)
    = unlink 2%positive (queue (expiry_base w_udp_flow UDP_DEFAULT))
      ++ [2%positive] ∧
    (∀ q, q ≠ UDP_DEFAULT →
          queue (expiry_base w' q)
          = unlink 2%positive (queue (expiry_base w_udp_flow q))) ∧
    (∀ q, timeout (expiry_base w' q) = timeout (expiry_base w_udp_flow q)) ∧
    (∀ q, NoDup (queue (expiry_base w_udp_flow q)) →
          NoDup (queue (expiry_base w' q))) ∧
    ∃ w'',
      session_renew sample_HZ 2%positive UDP_DEFAULT w' = Some w'' ∧
      st_cache w'' = st_cache w' ∧
      ∀ q, expiry_base w'' q = expiry_base w' q.
Proof.
  apply (session_renew_moves_to_tail sample_HZ 2%positive se_udp UDP_DEFAULT
           w_udp_flow).
  vm_compute. reflexivity.
Defined.

(** X23, on the sample UDP flow at the time it was created. *)
Lemma reaper_stops_at_first_unexpired_witness :
  clean_expired_sessions sample_HZ 1 UDP_DEFAULT w_udp_flow = Some w_udp_flow ∧
  clean_expired_sessions_tcp sample_HZ 1 UDP_DEFAULT w_udp_flow
  = Some w_udp_flow.
Proof.
  apply (reaper_stops_at_first_unexpired sample_HZ UDP_DEFAULT 2%positive []
           se_udp 0%nat w_udp_flow).
  - vm_compute. reflexivity.
  - vm_compute. reflexivity.
  - vm_compute. reflexivity.
Defined.

(** X24, for the sample UDP flow, one tick after its deadline. *)
Lemma bib_session_create_then_expiry_witness :
  ∃ w1 w2,
    bib_session_create sample_HZ take_first_transport_addr true
      (Some 1%positive) (Some 2%positive) host6 dest6 0xc6336402 40000 53 17
      UDP_DEFAULT w_boot = Some (Some 1%positive, w1) ∧
    clean_expired_sessions sample_HZ 1 UDP_DEFAULT (with_jiffies 75001 w1)
    = Some w2 ∧
    st_cache w2 = st_cache w_boot ∧
    bib_cache w2 = bib_cache w_boot ∧
    (∀ h, hash6 w2 h = hash6 w_boot h) ∧
    (∀ h, hash4 w2 h = hash4 w_boot h) ∧
    (∀ q, expiry_base w2 q = expiry_base w_boot q) ∧
    pool4 w2 = pool4 w_boot ∧
    free_udp_transport_addr w2
    = (take_first_transport_addr (free_udp_transport_addr w_boot)).2.
Proof.
  apply (bib_session_create_then_expiry sample_HZ take_first_transport_addr
           true 1%positive 2%positive host6 dest6 0xc6336402 40000 53 17
           UDP_DEFAULT 75001 w_boot).
  - reflexivity.
  - reflexivity.
  - intros h. apply not_elem_of_nil.
  - intros h. apply not_elem_of_nil.
  - intros q. apply not_elem_of_nil.
  - reflexivity.
  - vm_compute. reflexivity.
Defined.

(** X25, on the idle sample UDP flow. *)
Lemma reaper_returns_and_gives_nothing_back_witness :
  ∃ w',
    clean_expired_sessions sample_HZ
      (2 * length (queue (expiry_base w_udp_idle UDP_DEFAULT))) UDP_DEFAULT
      w_udp_idle = Some w' ∧
    (∀ fuel,
       (2 * length (queue (expiry_base w_udp_idle UDP_DEFAULT)) ≤ fuel)%nat →
       clean_expired_sessions sample_HZ fuel UDP_DEFAULT w_udp_idle = Some w' ∧
       clean_expired_sessions_tcp sample_HZ fuel UDP_DEFAULT w_udp_idle
       = Some w') ∧
    pool4 w' = pool4 w_udp_idle ∧
    free_udp_transport_addr w' = free_udp_transport_addr w_udp_idle.
Proof.
  apply (reaper_returns_and_gives_nothing_back sample_HZ UDP_DEFAULT
           w_udp_idle).
  split.
  - change (NoDup [2%positive]). apply NoDup_singleton.
  - intros s Hs. change (s ∈ [2%positive]) in Hs.
    apply list_elem_of_singleton in Hs. subst s.
    exists se_udp, bib_udp. split; [vm_compute; reflexivity|].
    split; [vm_compute; reflexivity|]. left.
Defined.

Lemma w_udp_flow_hash4_allocated :
  ∀ h b, b ∈ hash4 w_udp_flow h → is_Some (bib_cache w_udp_flow !! b).
Proof.
  intros h b Hb.
  change (b ∈ (if h =? 1024 then [1%positive] else [])) in Hb.
  destruct (h =? 1024); [|apply elem_of_nil in Hb; contradiction].
  apply list_elem_of_singleton in Hb. subst b.
  exists bib_udp. vm_compute. reflexivity.
Defined.

(** X26, in the world of the sample UDP flow, for the port 1024 (in
    network order on a little-endian host) and UDP. *)
Lemma bib_allocate_local4_port_never_gives_up_witness :
  (∀ fuel r,
     bib_allocate_local4_port true fuel 0x0004 17 w_udp_flow = Some r →
     ∃ i, 0 ≤ i < 65536 ∧ i mod 2 = ntohs true 0x0004 mod 2 ∧
          r = htons true i ∧ port_is_free true 17 w_udp_flow i) ∧
  ((∃ i, 0 ≤ i < 65536 ∧ i mod 2 = ntohs true 0x0004 mod 2 ∧
         port_is_free true 17 w_udp_flow i) →
   ∀ fuel, 32768 < Z.of_nat fuel →
           is_Some (bib_allocate_local4_port true fuel 0x0004 17 w_udp_flow)) ∧
  ((∀ i, 0 ≤ i < 65536 → i mod 2 = ntohs true 0x0004 mod 2 →
         ¬ port_is_free true 17 w_udp_flow i) →
   ∀ fuel, bib_allocate_local4_port true fuel 0x0004 17 w_udp_flow = None).
Proof.
  apply (bib_allocate_local4_port_never_gives_up true 17 w_udp_flow
           w_udp_flow_hash4_allocated 0x0004).
  lia.
Defined.

(** In that world the BIB entry of the flow hangs from slot 1024 of
    [hash4], which is where [bib_allocate_local4_port] looks for the
    port 4: the port 1024 is handed out again. *)
Example bib_allocate_local4_port_sample :
  bib_allocate_local4_port true 1 0x0004 17 w_udp_flow = Some 0x0004 ∧
  bib_allocate_local4_port true 2 0x0400 17 w_udp_flow = Some 0x0600.
Proof. split; vm_compute; reflexivity. Qed.

End FilteringCoverage.

(* ===================================================================== *)
(** ** Properties of include/nf_nat64_auxiliary_functions.h *)
(* ===================================================================== *)

Module AuxiliaryFacts.
Import Machine Filtering Auxiliary.

Lemma fold_u32 x :
  Z.land (u32 x) 0xffff = u32 x mod 65536 ∧ Z.shiftr (u32 x) 16 = u32 x / 65536.
Proof.
  split.
  - change 0xffff with (Z.ones 16). rewrite Z.land_ones by lia. reflexivity.
  - rewrite Z.shiftr_div_pow2 by lia. reflexivity.
Qed.

Lemma checksum_adjust_plain sum old new :
  is_word sum → is_word old → is_word new →
  is_word (checksum_adjust sum old new false) ∧
  same_sum (checksum_adjust sum old new false) (sum + old - new).
Proof.
  unfold is_word. intros Hs Ho Hn. unfold checksum_adjust, same_sum.
  cbn [andb].
  destruct (fold_u32 (sum + old - new)) as [-> ->].
  unfold u16, u32, wrap. change (2 ^ 16) with 65536.
  change (2 ^ 32) with 4294967296.
  split; Z.div_mod_to_equations; lia.
Qed.

Lemma checksum_adjust_udp sum old new :
  checksum_adjust sum old new true
  = if sum =? 0 then 0
    else if checksum_adjust sum old new false =? 0 then 0xffff
         else checksum_adjust sum old new false.
Proof.
  unfold checksum_adjust. cbn [andb].
  destruct (Z.eqb_spec sum 0) as [->|]; reflexivity.
Qed.

Lemma same_sum_refl a : same_sum a a.
Proof. reflexivity. Qed.

Lemma same_sum_trans a b c : same_sum a b → same_sum b c → same_sum a c.
Proof. unfold same_sum. congruence. Qed.

Lemma same_sum_shift a b d : same_sum a b → same_sum (a + d) (b + d).
Proof.
  unfold same_sum. intros H.
  rewrite (Z.add_mod a), (Z.add_mod b), H by lia. reflexivity.
Qed.

Lemma same_sum_words a b : is_word a → is_word b → same_sum a b →
  a ≠ 0 → b ≠ 0 → a = b.
Proof.
  unfold is_word, same_sum. intros Ha Hb H Ha0 Hb0.
  Z.div_mod_to_equations. lia.
Qed.

Lemma checksum_adjust_spec sum old new udp :
  is_word sum → is_word old → is_word new →
  is_word (checksum_adjust sum old new udp) ∧
  (udp = true → (checksum_adjust sum old new udp = 0 ↔ sum = 0)) ∧
  (¬ (udp = true ∧ sum = 0) →
   same_sum (checksum_adjust sum old new udp) (sum + old - new)).
Proof.
  intros Hs Ho Hn.
  destruct (checksum_adjust_plain sum old new Hs Ho Hn) as [Hw Hsame].
  destruct udp.
  - rewrite checksum_adjust_udp.
    destruct (Z.eqb_spec sum 0) as [H0|H0].
    + split; [unfold is_word; lia|]. split; [tauto|].
      intros H. exfalso. apply H. split; [reflexivity|exact H0].
    + destruct (Z.eqb_spec (checksum_adjust sum old new false) 0) as [Hz|Hz].
      * split; [unfold is_word; lia|]. split; [intros _; split; lia|].
        intros _. eapply same_sum_trans; [|exact Hsame]. rewrite Hz.
        reflexivity.
      * split; [exact Hw|]. split; [intros _; tauto|]. intros _. exact Hsame.
  - split; [exact Hw|]. split; [discriminate|]. intros _. exact Hsame.
Qed.

(** X27. [checksum_adjust] keeps the checksum a 16-bit value that
    stands for the one's complement sum of the old checksum and the old
    field less the new field. For UDP a checksum of 0 (none) is left
    at 0, and any other checksum is never turned into 0. *)
Theorem checksum_adjust_keeps_sum sum old new udp :
  is_word sum → is_word old → is_word new →
  is_word (checksum_adjust sum old new udp) ∧
  (udp = true → (checksum_adjust sum old new udp = 0 ↔ sum = 0)) ∧
  (¬ (udp = true ∧ sum = 0) →
   same_sum (checksum_adjust sum old new udp) (sum + old - new)).
Proof.
  intros Hs Ho Hn.
  destruct (checksum_adjust_plain sum old new Hs Ho Hn) as [Hw Hsame].
  destruct udp.
  - rewrite checksum_adjust_udp.
    destruct (Z.eqb_spec sum 0) as [H0|H0].
    + split; [unfold is_word; lia|]. split; [tauto|].
      intros H. exfalso. apply H. split; [reflexivity|exact H0].
    + destruct (Z.eqb_spec (checksum_adjust sum old new false) 0) as [Hz|Hz].
      * split; [unfold is_word; lia|]. split; [intros _; split; lia|].
        intros _. eapply same_sum_trans; [|exact Hsame]. rewrite Hz.
        reflexivity.
      * split; [exact Hw|]. split; [intros _; tauto|]. intros _. exact Hsame.
  - split; [exact Hw|]. split; [discriminate|]. intros _. exact Hsame.
Qed.

(** X28. [checksum_change] of a field to a new value and back to the
    old one restores the field, and a checksum that stands for the same
    sum; the checksum itself is restored for UDP, and otherwise unless
    it was 0 or 0xffff. *)
Theorem checksum_change_and_back sum x new udp :
  is_word sum → is_word x → is_word new →
  let there := checksum_change sum x new udp in
  let back := checksum_change there.1 there.2 x udp in
  back.2 = x ∧ is_word back.1 ∧ same_sum back.1 sum ∧
  (udp = true ∨ 0 < sum < 65535 → back.1 = sum).
Proof.
  intros Hs Hx Hn. cbv zeta. unfold checksum_change. cbn [fst snd].
  destruct (checksum_adjust_spec sum x new udp Hs Hx Hn)
    as (Hw1 & Hz1 & Hsame1).
  destruct (checksum_adjust_spec (checksum_adjust sum x new udp) new x udp
              Hw1 Hn Hx) as (Hw2 & Hz2 & Hsame2).
  split; [reflexivity|]. split; [exact Hw2|].
  destruct (decide (udp = true ∧ sum = 0)) as [[Hu H0]|Hno].
  - assert (H1 : checksum_adjust sum x new udp = 0) by (apply Hz1; assumption).
    assert (H2 : checksum_adjust (checksum_adjust sum x new udp) new x udp = 0)
      by (apply Hz2; assumption).
    rewrite H2, H0. split; [reflexivity|]. intros _. reflexivity.
  - assert (Hno1 : ¬ (udp = true ∧ checksum_adjust sum x new udp = 0)).
    { intros [Hu H1]. apply Hno. split; [exact Hu|]. apply Hz1; assumption. }
    specialize (Hsame1 Hno). specialize (Hsame2 Hno1).
    assert (Hsame : same_sum
              (checksum_adjust (checksum_adjust sum x new udp) new x udp) sum).
    { eapply same_sum_trans; [exact Hsame2|].
      replace sum with (sum + x - new + (new - x)) at 2 by lia.
      replace (checksum_adjust sum x new udp + new - x)
        with (checksum_adjust sum x new udp + (new - x)) by lia.
      apply same_sum_shift, Hsame1. }
    split; [exact Hsame|]. intros [Hu|Hmid].
    + apply same_sum_words; try assumption.
      * intros H2. apply Hno1. split; [exact Hu|]. apply Hz2; assumption.
      * intros H0. apply Hno. split; assumption.
    + unfold is_word, same_sum in *. Z.div_mod_to_equations. lia.
Qed.

Lemma is_word_0 : is_word 0.
Proof. unfold is_word. lia. Qed.

Lemma checksum_remove_spec udp words :
  ∀ sum,
    is_word sum → Forall is_word words →
    is_word (checksum_remove sum words udp) ∧
    (udp = true → (checksum_remove sum words udp = 0 ↔ sum = 0)) ∧
    (¬ (udp = true ∧ sum = 0) →
     same_sum (checksum_remove sum words udp) (sum + word_sum words)).
Proof.
  induction words as [|x words IH]; intros sum Hs Hall.
  - cbn. split; [exact Hs|]. split; [tauto|]. intros _.
    rewrite Z.add_0_r. apply same_sum_refl.
  - apply Forall_cons in Hall as [Hx Hall].
    destruct (checksum_adjust_spec sum x 0 udp Hs Hx is_word_0)
      as (Hw1 & Hz1 & Hsame1).
    destruct (IH _ Hw1 Hall) as (Hw & Hz & Hsame).
    change (checksum_remove sum (x :: words) udp)
      with (checksum_remove (checksum_adjust sum x 0 udp) words udp).
    split; [exact Hw|]. split.
    + intros Hu. rewrite (Hz Hu). apply Hz1, Hu.
    + intros Hno. eapply same_sum_trans.
      * apply Hsame. intros [Hu H1]. apply Hno. split; [exact Hu|].
        apply Hz1; assumption.
      * cbn [word_sum fold_right].
        replace (sum + (x + fold_right Z.add 0 words))
          with (sum + x - 0 + fold_right Z.add 0 words) by lia.
        apply same_sum_shift, Hsame1, Hno.
Qed.

Lemma checksum_add_spec udp words :
  ∀ sum,
    is_word sum → Forall is_word words →
    is_word (checksum_add sum words udp) ∧
    (udp = true → (checksum_add sum words udp = 0 ↔ sum = 0)) ∧
    (¬ (udp = true ∧ sum = 0) →
     same_sum (checksum_add sum words udp) (sum - word_sum words)).
Proof.
  induction words as [|x words IH]; intros sum Hs Hall.
  - cbn. split; [exact Hs|]. split; [tauto|]. intros _.
    rewrite Z.sub_0_r. apply same_sum_refl.
  - apply Forall_cons in Hall as [Hx Hall].
    destruct (checksum_adjust_spec sum 0 x udp Hs is_word_0 Hx)
      as (Hw1 & Hz1 & Hsame1).
    destruct (IH _ Hw1 Hall) as (Hw & Hz & Hsame).
    change (checksum_add sum (x :: words) udp)
      with (checksum_add (checksum_adjust sum 0 x udp) words udp).
    split; [exact Hw|]. split.
    + intros Hu. rewrite (Hz Hu). apply Hz1, Hu.
    + intros Hno. eapply same_sum_trans.
      * apply Hsame. intros [Hu H1]. apply Hno. split; [exact Hu|].
        apply Hz1; assumption.
      * cbn [word_sum fold_right].
        replace (sum - (x + fold_right Z.add 0 words))
          with (sum + 0 - x + - fold_right Z.add 0 words) by lia.
        replace (checksum_adjust sum 0 x udp - fold_right Z.add 0 words)
          with (checksum_adjust sum 0 x udp + - fold_right Z.add 0 words)
          by lia.
        apply same_sum_shift, Hsame1, Hno.
Qed.

Lemma land_is_word x : is_word (Z.land x 0xffff).
Proof.
  unfold is_word. change 0xffff with (Z.ones 16).
  rewrite Z.land_ones by lia. apply Z.mod_pos_bound. reflexivity.
Qed.

Lemma halves_are_words le x : Forall is_word (halves le x).
Proof.
  unfold halves. destruct le; repeat constructor; apply land_is_word.
Qed.

Lemma ip4_words_are_words le ip4 : Forall is_word (ip4_words le ip4).
Proof. unfold ip4_words. apply Forall_app. split; apply halves_are_words. Qed.

Lemma ip6_words_are_words le ip6 : Forall is_word (ip6_words le ip6).
Proof.
  unfold ip6_words, in6_words.
  repeat (apply Forall_app; split); apply halves_are_words.
Qed.

Lemma translation_spec udp sum out_words in_words :
  is_word sum → Forall is_word out_words → Forall is_word in_words →
  let sum' := checksum_add (checksum_remove sum out_words udp) in_words udp in
  is_word sum' ∧
  (udp = true → (sum' = 0 ↔ sum = 0)) ∧
  (¬ (udp = true ∧ sum = 0) →
   same_sum sum' (sum + word_sum out_words - word_sum in_words)).
Proof.
  intros Hs Hout Hin. cbv zeta.
  destruct (checksum_remove_spec udp out_words sum Hs Hout)
    as (Hw1 & Hz1 & Hsame1).
  destruct (checksum_add_spec udp in_words _ Hw1 Hin) as (Hw & Hz & Hsame).
  split; [exact Hw|]. split.
  - intros Hu. rewrite (Hz Hu). apply Hz1, Hu.
  - intros Hno. eapply same_sum_trans.
    + apply Hsame. intros [Hu H1]. apply Hno. split; [exact Hu|].
      apply Hz1; assumption.
    + replace (checksum_remove sum out_words udp - word_sum in_words)
        with (checksum_remove sum out_words udp + - word_sum in_words) by lia.
      replace (sum + word_sum out_words - word_sum in_words)
        with (sum + word_sum out_words + - word_sum in_words) by lia.
      apply same_sum_shift, Hsame1, Hno.
Qed.

(** X29. [adjust_checksum_ipv6_to_ipv4] turns the checksum of a packet
    into one that stands for the old sum plus the sixteen words of the
    IPv6 addresses less the four words of the IPv4 addresses, and
    [adjust_checksum_ipv4_to_ipv6] undoes it: the checksum stands for
    the same sum again, and is the same checksum for UDP, and otherwise
    unless it was 0 or 0xffff. For UDP a checksum of 0 stays 0 both
    ways and no other checksum becomes 0. *)
Theorem adjust_checksum_there_and_back little_endian sum ip6 ip4 udp :
  is_word sum →
  let sum4 :=
    adjust_checksum_ipv6_to_ipv4 little_endian sum ip6 ip4 (int_to_bool udp) in
  let sum6 := adjust_checksum_ipv4_to_ipv6 little_endian sum4 ip4 ip6 udp in
  is_word sum4 ∧
  (int_to_bool udp = true → (sum4 = 0 ↔ sum = 0)) ∧
  (¬ (int_to_bool udp = true ∧ sum = 0) →
   same_sum sum4
     (sum + word_sum (ip6_words little_endian ip6)
      - word_sum (ip4_words little_endian ip4))) ∧
  is_word sum6 ∧
  same_sum sum6 sum ∧
  (int_to_bool udp = true ∨ 0 < sum < 65535 → sum6 = sum).
Proof.
  intros Hs. cbv zeta.
  unfold adjust_checksum_ipv6_to_ipv4, adjust_checksum_ipv4_to_ipv6.
  set (u := int_to_bool udp).
  set (w6 := ip6_words little_endian ip6).
  set (w4 := ip4_words little_endian ip4).
  pose proof (ip6_words_are_words little_endian ip6) as H6. fold w6 in H6.
  pose proof (ip4_words_are_words little_endian ip4) as H4. fold w4 in H4.
  destruct (translation_spec u sum w6 w4 Hs H6 H4) as (Hw1 & Hz1 & Hsame1).
  set (sum4 := checksum_add (checksum_remove sum w6 u) w4 u) in *.
  destruct (translation_spec u sum4 w4 w6 Hw1 H4 H6) as (Hw2 & Hz2 & Hsame2).
  set (sum6 := checksum_add (checksum_remove sum4 w4 u) w6 u) in *.
  split; [exact Hw1|]. split; [exact Hz1|]. split; [exact Hsame1|].
  split; [exact Hw2|].
  destruct (decide (u = true ∧ sum = 0)) as [[Hu H0]|Hno].
  - assert (H1 : sum4 = 0) by (apply Hz1; assumption).
    assert (H2 : sum6 = 0) by (apply Hz2; assumption).
    rewrite H2, H0. split; [reflexivity|]. intros _. reflexivity.
  - assert (Hno1 : ¬ (u = true ∧ sum4 = 0)).
    { intros [Hu H1]. apply Hno. split; [exact Hu|]. apply Hz1; assumption. }
    specialize (Hsame1 Hno). specialize (Hsame2 Hno1).
    assert (Hsame : same_sum sum6 sum).
    { eapply same_sum_trans; [exact Hsame2|].
      pose proof (same_sum_shift _ _ (word_sum w4 - word_sum w6) Hsame1) as H.
      unfold same_sum in *.
      replace (sum4 + word_sum w4 - word_sum w6)
        with (sum4 + (word_sum w4 - word_sum w6)) by lia.
      rewrite H. f_equal. lia. }
    split; [exact Hsame|]. intros [Hu|Hmid].
    + apply same_sum_words; try assumption.
      * intros H2. apply Hno1. split; [exact Hu|]. apply Hz2; assumption.
      * intros H0. apply Hno. split; assumption.
    + unfold is_word, same_sum in *. Z.div_mod_to_equations. lia.
Qed.

(** X27, for the checksum 0x1c46 of a UDP packet whose port 40000
    becomes 1024. *)
Lemma checksum_adjust_keeps_sum_witness :
  is_word (checksum_adjust 0x1c46 40000 1024 true) ∧
  (true = true → (checksum_adjust 0x1c46 40000 1024 true = 0 ↔ 0x1c46 = 0)) ∧
  (¬ (true = true ∧ 0x1c46 = 0) →
   same_sum (checksum_adjust 0x1c46 40000 1024 true) (0x1c46 + 40000 - 1024)).
Proof.
  apply (checksum_adjust_keeps_sum 0x1c46 40000 1024 true);
    unfold is_word; lia.
Defined.

(** X28, for the same change and back, on a TCP checksum. *)
Lemma checksum_change_and_back_witness :
  (checksum_change (checksum_change 0x1c46 40000 1024 false).1
     (checksum_change 0x1c46 40000 1024 false).2 40000 false).2 = 40000 ∧
  is_word
    (checksum_change (checksum_change 0x1c46 40000 1024 false).1
       (checksum_change 0x1c46 40000 1024 false).2 40000 false).1 ∧
  same_sum
    (checksum_change (checksum_change 0x1c46 40000 1024 false).1
       (checksum_change 0x1c46 40000 1024 false).2 40000 false).1 0x1c46 ∧
  (false = true ∨ 0 < 0x1c46 < 65535 →
   (checksum_change (checksum_change 0x1c46 40000 1024 false).1
      (checksum_change 0x1c46 40000 1024 false).2 40000 false).1 = 0x1c46).
Proof.
  apply (checksum_change_and_back 0x1c46 40000 1024 false);
    unfold is_word; lia.
Defined.

(** X29, for the sample headers on a little-endian host, UDP. *)
Lemma adjust_checksum_there_and_back_witness :
  is_word (adjust_checksum_ipv6_to_ipv4 true 0x1c46 sample_ip6 sample_ip4
             (int_to_bool 1)) ∧
  (int_to_bool 1 = true →
   (adjust_checksum_ipv6_to_ipv4 true 0x1c46 sample_ip6 sample_ip4
      (int_to_bool 1) = 0 ↔ 0x1c46 = 0)) ∧
  (¬ (int_to_bool 1 = true ∧ 0x1c46 = 0) →
   same_sum
     (adjust_checksum_ipv6_to_ipv4 true 0x1c46 sample_ip6 sample_ip4
        (int_to_bool 1))
     (0x1c46 + word_sum (ip6_words true sample_ip6)
      - word_sum (ip4_words true sample_ip4))) ∧
  is_word
    (adjust_checksum_ipv4_to_ipv6 true
       (adjust_checksum_ipv6_to_ipv4 true 0x1c46 sample_ip6 sample_ip4
          (int_to_bool 1)) sample_ip4 sample_ip6 1) ∧
  same_sum
    (adjust_checksum_ipv4_to_ipv6 true
       (adjust_checksum_ipv6_to_ipv4 true 0x1c46 sample_ip6 sample_ip4
          (int_to_bool 1)) sample_ip4 sample_ip6 1) 0x1c46 ∧
  (int_to_bool 1 = true ∨ 0 < 0x1c46 < 65535 →
   adjust_checksum_ipv4_to_ipv6 true
     (adjust_checksum_ipv6_to_ipv4 true 0x1c46 sample_ip6 sample_ip4
        (int_to_bool 1)) sample_ip4 sample_ip6 1 = 0x1c46).
Proof.
  apply (adjust_checksum_there_and_back true 0x1c46 sample_ip6 sample_ip4 1).
  unfold is_word. lia.
Defined.

(** The sample translation, computed. *)
Example adjust_checksum_sample :
  adjust_checksum_ipv6_to_ipv4 true 0x1c46 sample_ip6 sample_ip4 true = 0x1fcb.
Proof. vm_compute. reflexivity. Qed.

End AuxiliaryFacts.
